(* ===== verification/_CoqProject ===== *)
-Q . S2P
Prelude.v
Text.v
Schemas.v
Models.v
LabelStore.v
TodoStore.v
Concurrency.v
WriteLock.v
Abstract.v
Api.v
Refinement.v
Linearizability.v
Tests.v
