(* ===== verification/Prelude.v ===== *)
(** * A verification development of micro_arch (the todo/label API of src/lab1)

    ** The program

    [src/lab1] is a FastAPI service over SQLite through SQLAlchemy.  Its
    parts and how they interact:
    - [schemas.py]: the pydantic request models.  [LabelCreate] checks the
      raw name's length (1..50), strips and lowercases it; [TodoBase]
      normalises a list of label names ([normalize_labels]); [TodoCreate]
      requires a title of 1..200 characters, [TodoUpdate] makes every field
      optional.  A body that fails validation never reaches a handler
      (HTTP 422).
    - [models.py]: three tables, [labels] (primary key [id], [name] UNIQUE),
      [todos] (primary key [id]) and the association table [todo_labels]
      (primary key [(todo_id, label_id)]); [Todo.labels] is the
      many-to-many relationship ordered by [Label.id].
    - [database.py]: one session per request ([get_db]), no autoflush; an
      exception inside a handler closes the session, which rolls back what
      was flushed but not committed.
    - [main.py]: the handlers [create_label], [list_labels], [create_todo],
      [list_todos], [update_todo] and their helpers [random_id] and
      [todo_to_out].  Both todo handlers resolve label names with the same
      get-or-create loop (query by name; if absent insert a label with a
      random id and flush).
    - [test_app.py]: end-to-end tests through the HTTP client.

    ** The development (files in dependency order)
    - [Prelude] (this file): the error taxonomy ([api_error], with the
      HTTP status of each), the [result] type with its [let?] notation,
      64-bit and 32-bit bounds, generic lemmas on lists, sorting and
      permutations (a [Proper] instance for [omap]) and relations (unique
      normal forms of a deterministic relation), the tactics and the hint
      database [api].
    - [Text]: Python's [str.strip]/[str.lower] on ASCII ([py_strip],
      [py_lower]) and SQLite's [LIKE] ([sql_like]; [sql_ilike] is
      [lower(x) LIKE lower(y)]), with the substring contract of the label
      filter of [list_labels] and its wildcard behaviour.
    - [Schemas]: the validators of [schemas.py] as functions from the raw
      JSON fields ([json]: absent, null or present) to a payload or a
      [ValidationError]: Modules [LabelCreate], [TodoBase] (the loop of
      [normalize_labels], faithful to its never-filled [seen] set),
      [TodoCreate], [TodoUpdate].
    - [Models]: the tables of [models.py] as [gmap]s keyed by primary key
      and [todo_labels] as a [gset] of pairs; the constraint-checked
      inserts ([insert_label], [insert_todo], [insert_todo_labels]) and the
      delete of association rows; [Todo.labels] ([label_ids_of],
      [labels_of], ordered by id); the session monad [M] (state: the
      database and the position of the random generator) with [run_tx]
      for [get_db]; [random_id] and the freshness of its draws
      ([fresh_ids]); the store invariant [wf_db]; three program logics
      for [M]: [wp] (what holds after success), [wpe] (which errors may be
      raised) and [wpt] (the program is sure to succeed).
    - [LabelStore]: [create_label], [list_labels] and the get-or-create
      loop ([get_or_create], [resolve_labels]) of both todo handlers.  The
      loop is seen by the todo handlers only through the class
      [LabelResolver], whose laws ([resolve_spec], [resolve_err]) are
      proved for [resolve_labels].
    - [TodoStore]: [todo_to_out], [create_todo], [list_todos] (filters
      [todo_matches], [ORDER BY created_at DESC]), [update_todo] with
      SQLAlchemy's collection replacement of [todo.labels]
      ([collection_added]/[collection_deleted], [replace_labels]); their
      success specifications ([created], [updated]) and error contracts.
    - [Concurrency]: concurrent [POST /labels] and [POST /todos] requests
      as interleavings of their statements.  A request in flight is its
      next statement ([pc]: the [SELECT] by name, the draw, the insert or
      flush, the commit) and the transaction it holds ([r_tx]); a
      configuration ([Conf]) is the committed database, the generator
      position and the requests.  A request that has flushed holds
      SQLite's write lock ([lock_holder], [may_write]) and reads its own
      writes ([view]); the others read the committed database and wait
      for the lock to write.  [cstep] runs one statement of any request.
    - [WriteLock]: the invariant of the interleaved system ([conc_inv]),
      kept by every statement; the measure [cost] (statements left), and
      the progress of the holder of the write lock.
    - [Abstract]: the spec's view of the store ([AState]: label names and
      todos with a set of label names), the abstraction [abs], the
      abstract operations and the refinement lemmas of each handler.
    - [Api]: the routes as a [request] type (the five JSON routes and the
      redirect of [/]), [handle] (validation, then the handler), [serve] (one request in its transaction), the transition
      relation [step] and [reachable]; the reachable-state invariant, the
      error classification, round trips, and the scenarios of the spec
      and of [test_app.py] run by [vm_compute].
    - [Refinement]: the abstract spec of one request ([a_step]) and of a
      run ([a_run]); [serve] refines it, runs from the empty store are
      abstract runs, reachable states are abstractly reachable, and
      nothing is ever deleted.
    - [Linearizability]: the composition of the interleaved requests with
      the abstract spec: each statement that decides an answer is an
      [a_step] of the committed database seen through [abs], for the HTTP
      request it serves ([orig_ok]); every other statement commits
      nothing.
    - [Tests]: the six tests of [test_app.py] as functions of the service
      state; they pass on the model when random ids do not collide, and
      four fail with a generator that repeats an id.

    ** What the theorems show
    - Invariant: every reachable state satisfies [wf_db] (normalised,
      unique label names; association rows between stored rows; ids in
      [0, 2^32); titles of 1..200 characters).
    - Refinement: every run of requests is a run of the abstract spec,
      answers included; reachable states simulate abstract ones; the
      diff-based label replacement equals delete-then-insert when it
      succeeds.
    - Functional behaviour of each handler on success, and its errors:
      [POST /labels] 409 only for a stored name, [PATCH] 404 only for an
      unknown id and the overflow only beyond 64 bits, 422 before any
      handler runs (nothing changes), rollback of every failure.
    - Round trips: what [POST] creates, the next [GET] lists.
    - Typing: every successful answer has the shape of its response model.
    - Progress: [POST /todos] with a valid body and distinct labels
      succeeds whenever the random draws it needs are fresh.
    - Interleaving: run alone, a [POST /labels] request is [create_label]
      and a [POST /todos] request is [create_todo] under [get_db]; under
      every interleaving the committed store stays well formed, every
      successful answer is committed and no two [POST /labels] succeed
      with one name; interleavings exist in which the lost race for a new
      label name answers 500, for [POST /labels] (instead of 409) and for
      [POST /todos] (which run in sequence would both succeed).
    - Linearizability: after any interleaving of [POST /labels] and
      [POST /todos], serving the answered requests one after the other in
      the order they answered, with the answers they got, is a run of the
      abstract spec from the initial store to the committed one.
    - Termination and deadlock freedom: every interleaving ends, in at
      most [cost] steps (three per [POST /labels], three per label name
      and three more per [POST /todos]), and one that cannot go on has
      answered every request, because the holder of the write lock can
      always run.
    - Findings: duplicate label names pass
      validation and end in 500; label length is unchecked on the todo
      routes; [q] of [list_labels] is an unescaped [LIKE] pattern; random
      ids may collide; [updated_at] is never refreshed; ids beyond 64 bits
      give 500 instead of 404.

    ** Choices of the model
    - Strings are Stdlib [string]s over [ascii]; Python's [strip] and
      [lower] are modelled on ASCII (non-ASCII case folding is not).
    - Timestamps ([due_date], [created_at]) are integers (seconds); the
      server's [now()] is a parameter of [serve]; parsing of datetimes by
      pydantic and the string comparison of [due_before]/[due_after] are
      not modelled.
    - [random.randint(0, 2**32 - 1)] is a section variable [rng : nat -> Z]
      read at a counter that the state carries; [random_id] reduces the
      draw modulo [2^32], which is the identity on the values randint can
      return, so every oracle in range is represented.  The concrete runs
      use [demo_rng k = 7k + 3].
    - SQLite's [INTEGER] is 64-bit signed: an id outside that range makes
      the driver raise [OverflowError] before any row is read.
    - No fuel is needed: every loop of the code runs over a finite list
      (the label names, the query result) and is a structural [Fixpoint]
      or a library fold, so termination of one request is by
      construction.  The interleaved system is a relation, not a
      function; its termination is a theorem ([interleavings_terminate]).
    - Concurrency: each SQL statement is atomic; a waiting writer waits
      (sqlite3's busy timeout, after which the writer fails with
      "database is locked", is not modelled).
    - Not modelled: the static files mounted at [/static] (files read from
      disk), [create_all] on an existing database (the model starts from
      empty tables), [PATCH /todos] and the [GET] routes in interleavings
      ([GET /todos] loads each todo's labels lazily, in separate
      [SELECT]s), and the timestamps of [unique_name] in [test_app.py]
      (fixed distinct names stand for them).
*)

From stdpp Require Export base gmap strings sorting list.
From Stdlib Require Export ZArith Ascii String Lia.

Declare Scope api_scope.
Delimit Scope api_scope with api.
Open Scope api_scope.

(** ** Errors of a request, with the HTTP status the service answers *)

Inductive api_error :=
| ValidationError (errors : list (string * string))
| Conflict (name : string)
| NotFound (id : Z)
| IntegrityError (constraint : string)
| OverflowError.

Definition status_of_error (e : api_error) : Z :=
  match e with
  | ValidationError _ => 422
  | Conflict _ => 409
  | NotFound _ => 404
  | IntegrityError _ | OverflowError => 500
  end.

Inductive result (A : Type) :=
| Ok (a : A)
| Err (e : api_error).
Arguments Ok {A} a.
Arguments Err {A} e.

Definition result_bind {A B} (r : result A) (k : A -> result B) : result B :=
  match r with
  | Ok a => k a
  | Err e => Err e
  end.

Notation "'let?' x ':=' r 'in' k" := (result_bind r (fun x => k))
  (at level 10, x name, r at level 100, k at level 200) : api_scope.

Definition is_ok {A} (r : result A) : bool :=
  match r with Ok _ => true | Err _ => false end.

Lemma result_bind_Ok {A B} (r : result A) (k : A -> result B) b :
  result_bind r k = Ok b <-> exists a, r = Ok a /\ k a = Ok b.
Proof.
  destruct r as [a|e]; simpl; split.
  - eauto.
  - intros (a' & [= ->] & H). exact H.
  - discriminate.
  - intros (a' & ? & _). discriminate.
Qed.

(** ** Machine integers *)

Definition u32_max : Z := (2 ^ 32)%Z.
Definition sqlite_int_min : Z := (- 2 ^ 63)%Z.
Definition sqlite_int_max : Z := (2 ^ 63 - 1)%Z.

Definition in_u32 (z : Z) : Prop := (0 <= z < u32_max)%Z.
Definition fits_sqlite_int (z : Z) : bool :=
  ((sqlite_int_min <=? z) && (z <=? sqlite_int_max))%Z.

Lemma mod_u32_in_range (z : Z) : in_u32 (z mod u32_max)%Z.
Proof. unfold in_u32, u32_max. apply Z.mod_pos_bound. lia. Qed.

Lemma in_u32_fits_sqlite (z : Z) : in_u32 z -> fits_sqlite_int z = true.
Proof.
  unfold in_u32, u32_max, fits_sqlite_int, sqlite_int_min, sqlite_int_max.
  intros H. apply andb_true_intro. split; apply Z.leb_le; lia.
Qed.

(** ** Lists *)

Lemma NoDup_filter_map_to_list {K V} `{Countable K} (P : K * V -> Prop)
    `{!∀ kv, Decision (P kv)} (m : gmap K V) :
  NoDup (filter P (map_to_list m)).
Proof. apply NoDup_filter, NoDup_map_to_list. Qed.

(** ** Tactics and the hint database of the development *)

Create HintDb api discriminated.
Create Rewrite HintDb api_rw.

Ltac invc H := inversion H; subst; clear H.

(** [case_res] splits on the first [match] on a result in the goal. *)
Ltac case_res :=
  match goal with
  | |- context [match ?r with Ok _ => _ | Err _ => _ end] =>
      let E := fresh "E" in destruct r eqn:E
  end.

#[export] Hint Resolve mod_u32_in_range in_u32_fits_sqlite : api.

(** A list sorted by a key under [<=] whose keys are distinct is sorted
    under [<]. *)
Lemma StronglySorted_le_lt {A} (f : A -> Z) (l : list A) :
  StronglySorted (fun a b => (f a <= f b)%Z) l -> NoDup (f <$> l) ->
  StronglySorted (fun a b => (f a < f b)%Z) l.
Proof.
  induction 1 as [|a l Hs IH Hall]; intros Hnd; constructor.
  - apply IH. by apply NoDup_cons in Hnd as [_ ?].
  - apply NoDup_cons in Hnd as [Hn _]. apply Forall_forall. intros b Hb.
    apply (Forall_forall _ _) with (x := b) in Hall; [|done].
    destruct (Z.eq_dec (f a) (f b)) as [Heq|]; [|lia].
    exfalso. apply Hn. rewrite Heq. by apply list_elem_of_fmap_2.
Qed.

Lemma NoDup_fmap_filter {A B} (f : A -> B) (P : A -> Prop) `{!∀ x, Decision (P x)} (l : list A) :
  NoDup (f <$> l) -> NoDup (f <$> filter P l).
Proof.
  induction l as [|x l IH]; [done|]. rewrite fmap_cons, NoDup_cons. intros [Hx Hl].
  rewrite filter_cons. case_decide; [|by apply IH].
  rewrite fmap_cons, NoDup_cons. split; [|by apply IH].
  intros Hin. apply Hx. apply list_elem_of_fmap in Hin as (y & -> & Hy).
  apply list_elem_of_fmap_2. by apply list_elem_of_filter in Hy as [_ ?].
Qed.

(** [omap] respects permutations, so query results compared up to order
    can be rewritten with [≡ₚ]. *)
#[export] Instance omap_Permutation_proper {A B} (f : A -> option B) :
  Proper ((≡ₚ) ==> (≡ₚ)) (omap (M:=list) f).
Proof.
  intros l k Hp. induction Hp as [|x l k _ IH|x y l|l m k _ IH1 _ IH2]; simpl.
  - done.
  - destruct (f x); [by constructor|done].
  - destruct (f x), (f y); try constructor; done.
  - by rewrite IH1.
Qed.

Lemma NoDup_omap {A B} (f : A -> option B) (l : list A) :
  (forall x y z, x ∈ l -> y ∈ l -> f x = Some z -> f y = Some z -> x = y) ->
  NoDup l -> NoDup (omap f l).
Proof.
  intros Hinj Hnd. induction Hnd as [|x l Hx Hnd IH]; simpl; [constructor|].
  assert (IH' : NoDup (omap f l)) by (apply IH; intros; eapply Hinj; eauto; by right).
  destruct (f x) as [z|] eqn:Ez; [|done]. constructor; [|done].
  intros (y & Hy & Ey)%list_elem_of_omap. apply Hx.
  rewrite (Hinj x y z); [done|left|by right|done|done].
Qed.

(** [NoDup] of two projections of a list agree when the projections
    identify the same elements. *)
Lemma NoDup_fmap_ext {A B C} (f : A -> B) (g : A -> C) (l : list A) :
  (forall x y, x ∈ l -> y ∈ l -> f x = f y <-> g x = g y) ->
  NoDup (f <$> l) <-> NoDup (g <$> l).
Proof.
  induction l as [|x l IH]; intros Hfg; [split; constructor|].
  rewrite !fmap_cons, !NoDup_cons, IH by (intros; apply Hfg; by right).
  apply and_iff_compat_r. apply not_iff_compat.
  rewrite !list_elem_of_fmap. split; intros (y & Hy & Hin); exists y;
    (split; [|done]); apply Hfg; try done; solve [left; done | right; done].
Qed.

(** [omap] keeps the order of the elements it keeps. *)
Lemma StronglySorted_omap {A B} (R : relation A) (R' : relation B) (f : A -> option B) (l : list A) :
  (forall x y x' y', f x = Some x' -> f y = Some y' -> R x y -> R' x' y') ->
  StronglySorted R l -> StronglySorted R' (omap f l).
Proof.
  intros Hf. induction 1 as [|x l Hs IH Hall]; simpl; [constructor|].
  destruct (f x) as [x'|] eqn:Ex; [|done]. constructor; [done|].
  apply Forall_forall. intros y' (y & Hy & Ey)%list_elem_of_omap.
  eapply Hf; [exact Ex|exact Ey|]. by eapply Forall_forall in Hall.
Qed.

(** [sum_list_with] after updating one element. *)
Lemma sum_list_with_insert {A} (f : A -> nat) (l : list A) i x y :
  l !! i = Some y -> sum_list_with f (<[i := x]> l) + f y = sum_list_with f l + f x.
Proof.
  revert i. induction l as [|z l IH]; intros [|i]; simpl; try done.
  - intros [= ->]. lia.
  - intros Hi. specialize (IH i Hi). lia.
Qed.

(** A relation that is deterministic on a set closed under it has at most
    one normal form reachable from each point of the set. *)
Lemma rtc_nf_unique {A} (R : relation A) (P : A -> Prop) :
  (forall x y, P x -> R x y -> P y) ->
  (forall x y z, P x -> R x y -> R x z -> y = z) ->
  forall x y z, P x -> rtc R x y -> nf R y -> rtc R x z -> nf R z -> y = z.
Proof.
  intros HP Hdet x y z Px Hxy. revert z. induction Hxy as [x|x x' y Hxx' Hx'y IH]; intros z Hny Hxz Hnz.
  - destruct Hxz as [|x w z Hxw _]; [done|]. destruct Hny. by exists w.
  - destruct Hxz as [|x w z Hxw Hwz]; [destruct Hnz; by exists x'|].
    rewrite (Hdet x w x' Px Hxw Hxx') in Hwz. apply IH; eauto.
Qed.
