(* ===== verification/Text.v ===== *)
(** * Text: the string operations the service relies on

    Python's [str.strip()] and [str.lower()] (called by the validators of
    [schemas.py]) on ASCII strings, and the [ILIKE] filter of [list_labels]
    ([main.py]), which SQLAlchemy renders on SQLite as
    [lower(name) LIKE lower('%q%')].  SQLite's [LIKE] treats ['%'] as any
    sequence of characters and ['_'] as any one character, with no escape
    character by default, and folds ASCII case.

    The theorems: normalisation ([lower] after [strip]) is idempotent, and
    the label filter is the substring test exactly when the query has no
    wildcard character. *)

From S2P Require Import Prelude.

Open Scope string_scope.

(** ** Python's character classes on ASCII *)

(** [str.isspace] on ASCII: tab, line feed, vertical tab, form feed,
    carriage return, the four separators [\x1c]..[\x1f] and space. *)
Definition py_isspace (c : ascii) : bool :=
  let n := nat_of_ascii c in
  (((9 <=? n) && (n <=? 13)) || ((28 <=? n) && (n <=? 32)))%nat.

(** [str.lower] on one ASCII character. *)
Definition py_lower_char (c : ascii) : ascii :=
  let n := nat_of_ascii c in
  if ((65 <=? n) && (n <=? 90))%nat then ascii_of_nat (n + 32)%nat else c.

Fixpoint py_lower (s : string) : string :=
  match s with
  | EmptyString => EmptyString
  | String c s' => String (py_lower_char c) (py_lower s')
  end.

Fixpoint py_lstrip (s : string) : string :=
  match s with
  | EmptyString => EmptyString
  | String c s' => if py_isspace c then py_lstrip s' else s
  end.

Fixpoint py_rstrip (s : string) : string :=
  match s with
  | EmptyString => EmptyString
  | String c s' =>
      match py_rstrip s' with
      | EmptyString => if py_isspace c then EmptyString else String c EmptyString
      | r => String c r
      end
  end.

(** [str.strip()] removes leading and trailing whitespace. *)
Definition py_strip (s : string) : string := py_rstrip (py_lstrip s).

(** ** SQLite's LIKE and SQLAlchemy's ilike *)

Definition like_char_eq (c d : ascii) : bool :=
  Ascii.eqb (py_lower_char c) (py_lower_char d).

Fixpoint sql_like (p s : string) {struct p} : bool :=
  match p with
  | EmptyString => match s with EmptyString => true | String _ _ => false end
  | String c p' =>
      if Ascii.eqb c "%" then
        (fix any_suffix (t : string) : bool :=
           sql_like p' t ||
           match t with EmptyString => false | String _ t' => any_suffix t' end) s
      else
        match s with
        | EmptyString => false
        | String d s' => (Ascii.eqb c "_" || like_char_eq c d) && sql_like p' s'
        end
  end.

(** [Label.name.ilike(pattern)] on SQLite: [lower(name) LIKE lower(pattern)]. *)
Definition sql_ilike (name pattern : string) : bool :=
  sql_like (py_lower pattern) (py_lower name).

(** The pattern [list_labels] builds: [f"%{q.lower()}%"]. *)
Definition label_filter_pattern (q : string) : string :=
  "%" ++ py_lower q ++ "%".

(** ** The contract of the filter: Python's [q in name] *)

Fixpoint any_suffix (f : string -> bool) (s : string) : bool :=
  f s || match s with EmptyString => false | String _ s' => any_suffix f s' end.

Fixpoint prefix_by (eqc : ascii -> ascii -> bool) (q s : string) : bool :=
  match q, s with
  | EmptyString, _ => true
  | String _ _, EmptyString => false
  | String c q', String d s' => eqc c d && prefix_by eqc q' s'
  end.

Definition contains (q s : string) : bool := any_suffix (prefix_by Ascii.eqb q) s.

Definition is_wildcard (c : ascii) : bool := Ascii.eqb c "%" || Ascii.eqb c "_".

Fixpoint no_wildcards (q : string) : bool :=
  match q with
  | EmptyString => true
  | String c q' => negb (is_wildcard c) && no_wildcards q'
  end.

(** ** Character lemmas, by evaluation on the 256 characters *)

Ltac by_all_chars c :=
  destruct c as [[] [] [] [] [] [] [] []]; reflexivity.

Lemma py_lower_char_idem c : py_lower_char (py_lower_char c) = py_lower_char c.
Proof. by_all_chars c. Qed.

Lemma py_isspace_lower_char c : py_isspace (py_lower_char c) = py_isspace c.
Proof. by_all_chars c. Qed.

Lemma is_wildcard_lower_char c : is_wildcard (py_lower_char c) = is_wildcard c.
Proof. by_all_chars c. Qed.

Lemma like_char_eq_spec c d : like_char_eq c d = Ascii.eqb (py_lower_char c) (py_lower_char d).
Proof. reflexivity. Qed.

#[export] Hint Rewrite py_lower_char_idem py_isspace_lower_char is_wildcard_lower_char : api_rw.

(** ** Lowering and stripping *)

(** stdpp makes [String.append] [simpl never]; these are its equations. *)
Lemma string_app_nil t : EmptyString ++ t = t.
Proof. reflexivity. Qed.

Lemma string_app_cons c s t : String c s ++ t = String c (s ++ t).
Proof. reflexivity. Qed.

#[export] Hint Rewrite string_app_nil string_app_cons : api_rw.

Lemma py_lower_app s t : py_lower (s ++ t) = py_lower s ++ py_lower t.
Proof. induction s; simpl; autorewrite with api_rw; simpl; congruence. Qed.

Lemma py_lower_idem s : py_lower (py_lower s) = py_lower s.
Proof. induction s; simpl; autorewrite with api_rw; congruence. Qed.

Lemma py_lower_empty_iff s : py_lower s = EmptyString <-> s = EmptyString.
Proof. destruct s; simpl; split; congruence. Qed.

Lemma py_lstrip_lower s : py_lstrip (py_lower s) = py_lower (py_lstrip s).
Proof.
  induction s as [|c s IH]; simpl; [done|].
  rewrite py_isspace_lower_char. by destruct (py_isspace c).
Qed.

Lemma py_rstrip_lower s : py_rstrip (py_lower s) = py_lower (py_rstrip s).
Proof.
  induction s as [|c s IH]; simpl; [done|].
  rewrite IH, py_isspace_lower_char.
  destruct (py_rstrip s); simpl; [by destruct (py_isspace c)|done].
Qed.

Lemma py_strip_lower s : py_strip (py_lower s) = py_lower (py_strip s).
Proof. unfold py_strip. by rewrite py_lstrip_lower, py_rstrip_lower. Qed.

Lemma py_rstrip_cons c t :
  py_rstrip (String c t) =
  match py_rstrip t with
  | EmptyString => if py_isspace c then EmptyString else String c EmptyString
  | r => String c r
  end.
Proof. reflexivity. Qed.

Lemma py_rstrip_idem s : py_rstrip (py_rstrip s) = py_rstrip s.
Proof.
  induction s as [|c s IH]; [done|].
  rewrite py_rstrip_cons. destruct (py_rstrip s) as [|a r] eqn:E.
  - destruct (py_isspace c) eqn:Hc; [done|]. simpl. by rewrite Hc.
  - by rewrite py_rstrip_cons, IH.
Qed.

(** [rstrip] keeps a first character that is not whitespace. *)
Lemma py_rstrip_head c s :
  py_isspace c = false -> py_rstrip (String c s) = String c (py_rstrip s).
Proof. intros Hc. simpl. destruct (py_rstrip s); [by rewrite Hc|done]. Qed.

Lemma py_lstrip_rstrip_lstrip s :
  py_lstrip (py_rstrip (py_lstrip s)) = py_rstrip (py_lstrip s).
Proof.
  induction s as [|c s IH]; simpl; [done|].
  destruct (py_isspace c) eqn:Hc; [done|].
  rewrite py_rstrip_head by done. simpl. by rewrite Hc.
Qed.

Lemma py_strip_idem s : py_strip (py_strip s) = py_strip s.
Proof.
  unfold py_strip. rewrite py_lstrip_rstrip_lstrip. apply py_rstrip_idem.
Qed.

(** ** LIKE on a wildcard-free pattern *)

Lemma sql_like_percent_cons p d s :
  sql_like (String "%" p) (String d s) =
  sql_like p (String d s) || sql_like (String "%" p) s.
Proof. reflexivity. Qed.

Lemma sql_like_percent p s :
  sql_like (String "%" p) s = any_suffix (sql_like p) s.
Proof.
  induction s as [|d s IH]; [done|].
  by rewrite sql_like_percent_cons, IH.
Qed.

Lemma any_suffix_cons f c s :
  any_suffix f (String c s) = f (String c s) || any_suffix f s.
Proof. reflexivity. Qed.

Lemma any_suffix_ext f g s :
  (forall t, f t = g t) -> any_suffix f s = any_suffix g s.
Proof. intros Hfg. induction s; simpl; congruence. Qed.

Lemma any_suffix_true f s : f EmptyString = true -> any_suffix f s = true.
Proof. intros Hf. induction s; simpl; rewrite ?Hf, ?IHs; auto using orb_true_r. Qed.

Lemma sql_like_prefix p s :
  no_wildcards p = true ->
  sql_like (p ++ "%") s = prefix_by like_char_eq p s.
Proof.
  revert s. induction p as [|c p IH]; intros s Hp.
  - rewrite string_app_nil, sql_like_percent. apply any_suffix_true. reflexivity.
  - rewrite string_app_cons. simpl. simpl in Hp. apply andb_prop in Hp as [Hc Hp].
    unfold is_wildcard in Hc. apply negb_true_iff, orb_false_elim in Hc as [H1 H2].
    rewrite H1. destruct s as [|d s]; [done|]. by rewrite H2, IH.
Qed.

Lemma prefix_by_lower q s :
  prefix_by like_char_eq q s = prefix_by Ascii.eqb (py_lower q) (py_lower s).
Proof. revert s. induction q; destruct s; simpl; rewrite ?like_char_eq_spec; congruence. Qed.

Lemma any_suffix_lower f s :
  any_suffix f (py_lower s) = any_suffix (fun t => f (py_lower t)) s.
Proof. induction s; simpl; congruence. Qed.

Lemma no_wildcards_lower q : no_wildcards (py_lower q) = no_wildcards q.
Proof. induction q; simpl; autorewrite with api_rw; congruence. Qed.

Lemma py_lower_filter_pattern q :
  py_lower (label_filter_pattern q) = label_filter_pattern q.
Proof.
  unfold label_filter_pattern. rewrite !py_lower_app, py_lower_idem. done.
Qed.

(** ** The label filter *)

(** C36 The filter [list_labels] applies for a query [q] with no ['%'] or
    ['_'] keeps exactly the labels whose lowercased name contains the
    lowercased query as a substring. *)
Theorem label_filter_substring (name q : string) :
  no_wildcards q = true ->
  sql_ilike name (label_filter_pattern q) = contains (py_lower q) (py_lower name).
Proof.
  intros Hq. unfold sql_ilike, contains.
  rewrite py_lower_filter_pattern. unfold label_filter_pattern.
  rewrite string_app_cons, string_app_nil, sql_like_percent, !any_suffix_lower.
  apply any_suffix_ext. intros t.
  rewrite sql_like_prefix by (by rewrite no_wildcards_lower).
  by rewrite prefix_by_lower, !py_lower_idem.
Qed.

Lemma label_filter_substring_witness :
  no_wildcards "RG" = true /\
  sql_ilike "Urgent" (label_filter_pattern "RG") = contains (py_lower "RG") (py_lower "Urgent").
Proof. split; [reflexivity|]. apply (label_filter_substring "Urgent" "RG"). reflexivity. Defined.

(** C37 The query ["_"] is a wildcard: the filter keeps every non-empty
    label name, although a name such as ["abc"] does not contain ["_"]
    (the spec promises a substring match). *)
Theorem label_filter_underscore_matches_all (name : string) :
  name <> EmptyString ->
  sql_ilike name (label_filter_pattern "_") = true.
Proof.
  intros Hne. destruct name as [|c s]; [done|].
  unfold sql_ilike. rewrite py_lower_filter_pattern. unfold label_filter_pattern.
  rewrite string_app_cons, string_app_nil, sql_like_percent.
  change (py_lower (String c s)) with (String (py_lower_char c) (py_lower s)).
  rewrite any_suffix_cons.
  change (sql_like (py_lower "_" ++ "%") (String (py_lower_char c) (py_lower s)))
    with (sql_like "%" (py_lower s)).
  rewrite sql_like_percent, any_suffix_true; reflexivity.
Qed.

Lemma label_filter_underscore_matches_all_witness :
  "abc" <> EmptyString /\ sql_ilike "abc" (label_filter_pattern "_") = true /\
  contains "_" "abc" = false.
Proof.
  split; [discriminate|]. split; [|reflexivity].
  apply label_filter_underscore_matches_all. discriminate.
Defined.
