(* ===== verification/Schemas.v ===== *)
(** * Schemas: the request validators of [schemas.py]

    A JSON field is absent, [null] or present ([json]).  Each pydantic
    model is a Module whose [validate] turns the raw fields into the
    validated payload, or into one [ValidationError] listing every failing
    field as (location, message), the 422 answer FastAPI sends before any
    handler runs.  Field constraints ([min_length], [max_length]) are
    checked on the raw string before an [@field_validator] runs, as pydantic
    v2 does for "after" validators.

    Theorems: normalisation is idempotent, [LabelCreate] accepts exactly the
    names of 1..50 raw characters that do not strip to nothing,
    [normalize_labels] is [map normalize_name] on lists without a blank
    name, and in particular it lets duplicate names through: the [seen] set
    of the source is never filled. *)

From S2P Require Import Prelude Text.

Open Scope string_scope.

Inductive json (A : Type) :=
| Absent
| Null
| Present (a : A).
Arguments Absent {A}.
Arguments Null {A}.
Arguments Present {A} a.

Definition str_constraints (loc : string) (min_length max_length : nat) (v : string)
    : list (string * string) :=
  if Nat.ltb (String.length v) min_length then [(loc, "string_too_short")]
  else if Nat.ltb max_length (String.length v) then [(loc, "string_too_long")]
  else [].

(** Errors of the fields of one model are reported together. *)
Definition errors_of {A} (r : result A) : list (string * string) :=
  match r with
  | Err (ValidationError es) => es
  | _ => []
  end.

(** [name.strip().lower()]: the normal form of a label name. *)
Definition normalize_name (name : string) : string := py_lower (py_strip name).

Module LabelCreate.

(** [LabelCreate.normalize], the [@field_validator("name")]. *)
Definition normalize (v : string) : result string :=
  let v := py_strip v in
  if String.eqb v "" then Err (ValidationError [("name", "must not be empty")])
  else Ok (py_lower v).

(** [name: str = Field(min_length=1, max_length=50)], then [normalize]. *)
Definition validate (name : json string) : result string :=
  match name with
  | Absent => Err (ValidationError [("name", "missing")])
  | Null => Err (ValidationError [("name", "string_type")])
  | Present v =>
      match str_constraints "name" 1 50 v with
      | [] => normalize v
      | es => Err (ValidationError es)
      end
  end.

End LabelCreate.

Module TodoBase.

(** The loop of [normalize_labels].  [seen] is passed along unchanged:
    the source never adds a name to it. *)
Fixpoint normalize_labels_loop (seen : list string) (v : list string)
    (cleaned : list string) : result (list string) :=
  match v with
  | [] => Ok cleaned
  | name :: rest =>
      let name := normalize_name name in
      if String.eqb name "" then
        Err (ValidationError [("labels", "label names must not be empty")])
      else if bool_decide (name ∈ seen) then
        Err (ValidationError [("labels", "label should be unique")])
      else normalize_labels_loop seen rest (cleaned ++ [name])
  end.

(** [TodoBase.normalize_labels], the [@field_validator("labels")]. *)
Definition normalize_labels (v : option (list string)) : result (option (list string)) :=
  match v with
  | None => Ok None
  | Some v =>
      let? cleaned := normalize_labels_loop [] v [] in
      Ok (Some cleaned)
  end.

(** A [labels] field: absent gives the model's default, [null] and a
    list go through the validator. *)
Definition validate_labels (default : option (list string))
    (labels : json (list string)) : result (option (list string)) :=
  match labels with
  | Absent => Ok default
  | Null => normalize_labels None
  | Present l => normalize_labels (Some l)
  end.

(** An optional field without constraints. *)
Definition optional {A} (f : json A) : option A :=
  match f with
  | Present a => Some a
  | _ => None
  end.

(** [title: Optional[str] = Field(default=None, min_length=1, max_length=200)]. *)
Definition validate_optional_title (title : json string) : result (option string) :=
  match title with
  | Present t =>
      match str_constraints "title" 1 200 t with
      | [] => Ok (Some t)
      | es => Err (ValidationError es)
      end
  | _ => Ok None
  end.

End TodoBase.

Module TodoCreate.

Record t := mk {
  title : string;
  due_date : option Z;
  labels : option (list string)
}.

(** [title: str = Field(min_length=1, max_length=200)]. *)
Definition validate_title (title : json string) : result string :=
  match title with
  | Absent => Err (ValidationError [("title", "missing")])
  | Null => Err (ValidationError [("title", "string_type")])
  | Present s =>
      match str_constraints "title" 1 200 s with
      | [] => Ok s
      | es => Err (ValidationError es)
      end
  end.

(** [labels: Optional[List[str]] = []]; the fields in declaration order. *)
Definition validate (title : json string) (due_date : json Z)
    (labels : json (list string)) : result t :=
  let rt := validate_title title in
  let rl := TodoBase.validate_labels (Some []) labels in
  match rt, rl with
  | Ok ti, Ok ls => Ok (mk ti (TodoBase.optional due_date) ls)
  | _, _ => Err (ValidationError (errors_of rt ++ errors_of rl))
  end.

End TodoCreate.

Module TodoUpdate.

Record t := mk {
  title : option string;
  due_date : option Z;
  labels : option (list string);
  done : option bool
}.

Definition validate (title : json string) (due_date : json Z)
    (labels : json (list string)) (done : json bool) : result t :=
  let rt := TodoBase.validate_optional_title title in
  let rl := TodoBase.validate_labels None labels in
  match rt, rl with
  | Ok ti, Ok ls =>
      Ok (mk ti (TodoBase.optional due_date) ls (TodoBase.optional done))
  | _, _ => Err (ValidationError (errors_of rt ++ errors_of rl))
  end.

End TodoUpdate.

(** ** Normal forms *)

(** A name as the validators leave it: normalised and not empty. *)
Definition label_name_ok (n : string) : Prop := normalize_name n = n /\ n <> "".

Definition nonblank (name : string) : bool := negb (String.eqb (normalize_name name) "").

(** Normalising a normalised label name changes nothing, so a stored
    name found again by [Label.name == name] is found under its own
    normal form. *)
Theorem normalize_name_idem (s : string) : normalize_name (normalize_name s) = normalize_name s.
Proof. unfold normalize_name. rewrite py_strip_lower, py_strip_idem. apply py_lower_idem. Qed.

Lemma normalize_name_empty_iff s : normalize_name s = "" <-> py_strip s = "".
Proof. apply py_lower_empty_iff. Qed.

Lemma str_constraints_nil loc lo hi v :
  str_constraints loc lo hi v = [] <-> (lo <= String.length v <= hi)%nat.
Proof.
  unfold str_constraints.
  destruct (Nat.ltb_spec (String.length v) lo); [split; [discriminate|lia]|].
  destruct (Nat.ltb_spec hi (String.length v)); [split; [discriminate|lia]|].
  split; [lia|done].
Qed.

(** ** LabelCreate *)

Lemma LabelCreate_validate_accepts v :
  (1 <= String.length v <= 50)%nat -> normalize_name v <> "" ->
  LabelCreate.validate (Present v) = Ok (normalize_name v).
Proof.
  intros Hl Hn. rewrite normalize_name_empty_iff in Hn. unfold LabelCreate.validate.
  rewrite (proj2 (str_constraints_nil "name" 1 50 v) Hl). unfold LabelCreate.normalize.
  by destruct (String.eqb_spec (py_strip v) "").
Qed.

Lemma LabelCreate_validate_inv v n :
  LabelCreate.validate (Present v) = Ok n ->
  (1 <= String.length v <= 50)%nat /\ normalize_name v <> "" /\ n = normalize_name v.
Proof.
  unfold LabelCreate.validate. rewrite normalize_name_empty_iff.
  destruct (str_constraints "name" 1 50 v) eqn:Hc; [|done].
  apply str_constraints_nil in Hc. unfold LabelCreate.normalize.
  destruct (String.eqb_spec (py_strip v) ""); [done|]. by intros [= <-].
Qed.

(** C35 [LabelCreate] accepts a present name exactly when its raw length
    is 1..50 and it does not strip to the empty string, and it yields
    the name's normal form. *)
Theorem LabelCreate_validate_Ok (v n : string) :
  LabelCreate.validate (Present v) = Ok n <->
  (1 <= String.length v <= 50)%nat /\ normalize_name v <> "" /\ n = normalize_name v.
Proof.
  split; [apply LabelCreate_validate_inv|].
  intros (Hl & Hn & ->). by apply LabelCreate_validate_accepts.
Qed.

Lemma LabelCreate_validate_normal v n :
  LabelCreate.validate v = Ok n -> normalize_name n = n /\ n <> "".
Proof.
  destruct v as [| |v]; try discriminate.
  intros (_ & Hne & ->)%LabelCreate_validate_inv. split; [apply normalize_name_idem|].
  intros Hn. apply Hne. rewrite <- normalize_name_idem, Hn. done.
Qed.

(** ** normalize_labels *)

Lemma normalize_labels_loop_nil v cleaned :
  TodoBase.normalize_labels_loop [] v cleaned =
  if forallb nonblank v then Ok (cleaned ++ map normalize_name v)%list
  else Err (ValidationError [("labels", "label names must not be empty")]).
Proof.
  revert cleaned. induction v as [|a v IH]; intros cleaned; simpl.
  - by rewrite app_nil_r.
  - unfold nonblank. destruct (String.eqb (normalize_name a) ""); simpl; [done|].
    rewrite IH, <- app_assoc. done.
Qed.

(** [normalize_labels] on a list is [map normalize_name] when no name
    is blank, and the "must not be empty" error otherwise; no other
    outcome is possible. *)
Theorem normalize_labels_spec (v : list string) :
  TodoBase.normalize_labels (Some v) =
  if forallb nonblank v then Ok (Some (map normalize_name v))
  else Err (ValidationError [("labels", "label names must not be empty")]).
Proof.
  unfold TodoBase.normalize_labels. rewrite normalize_labels_loop_nil.
  by destruct (forallb nonblank v).
Qed.

(** C16 Two spellings of one label name in a request both pass
    [normalize_labels], and the validated list holds the name twice: the
    "label should be unique" error of the spec and of the source is never
    raised. *)
Theorem normalize_labels_accepts_duplicates (a b : string) :
  normalize_name a = normalize_name b -> normalize_name a <> "" ->
  TodoBase.normalize_labels (Some [a; b]) = Ok (Some [normalize_name a; normalize_name a]).
Proof.
  intros Hab Hne. unfold TodoBase.normalize_labels. simpl.
  rewrite <- Hab. destruct (String.eqb_spec (normalize_name a) ""); [done|].
  reflexivity.
Qed.

Lemma normalize_labels_accepts_duplicates_witness :
  normalize_name "Errand" = normalize_name " errand" /\ normalize_name "Errand" <> "" /\
  TodoBase.normalize_labels (Some ["Errand"; " errand"]) =
    Ok (Some [normalize_name "Errand"; normalize_name "Errand"]).
Proof.
  split; [reflexivity|]. split; [discriminate|].
  apply normalize_labels_accepts_duplicates; [reflexivity|discriminate].
Defined.

Lemma LabelCreate_validate_Ok_witness :
  LabelCreate.validate (Present " URGENT ") = Ok "urgent".
Proof. apply LabelCreate_validate_Ok. split; [simpl; lia|]. split; [discriminate|reflexivity]. Defined.

(** ** What a validated payload guarantees *)

Lemma normalize_name_ok s : nonblank s = true -> label_name_ok (normalize_name s).
Proof.
  unfold nonblank. intros Hs. split; [apply normalize_name_idem|].
  by destruct (String.eqb_spec (normalize_name s) "").
Qed.

Lemma normalize_labels_ok v l :
  TodoBase.normalize_labels v = Ok (Some l) -> Forall label_name_ok l.
Proof.
  destruct v as [v|]; [|done]. unfold TodoBase.normalize_labels.
  rewrite normalize_labels_loop_nil.
  destruct (forallb nonblank v) eqn:E; [|done]. intros [= <-].
  apply Forall_fmap, Forall_forall. intros x Hx. apply normalize_name_ok.
  rewrite forallb_forall in E. apply E. by apply list_elem_of_In.
Qed.

Lemma validate_labels_ok d f l :
  Forall label_name_ok (default [] d) ->
  TodoBase.validate_labels d f = Ok l -> Forall label_name_ok (default [] l).
Proof.
  intros Hd. destruct f as [| |v]; unfold TodoBase.validate_labels.
  - by intros [= <-].
  - intros [= <-]. constructor.
  - destruct l as [l'|]; [apply normalize_labels_ok|intros; constructor].
Qed.

Lemma TodoCreate_validate_ok t d f p :
  TodoCreate.validate t d f = Ok p ->
  (1 <= String.length (TodoCreate.title p) <= 200)%nat /\
  Forall label_name_ok (default [] (TodoCreate.labels p)).
Proof.
  unfold TodoCreate.validate.
  destruct (TodoCreate.validate_title t) as [ti|] eqn:Et; [|by destruct (TodoBase.validate_labels _ _)].
  destruct (TodoBase.validate_labels (Some []) f) as [ls|] eqn:El; [|done]. intros [= <-]. simpl.
  split.
  - destruct t as [| |s]; try done. simpl in Et.
    destruct (str_constraints "title" 1 200 s) eqn:Hc; [|done]. injection Et as <-.
    by apply str_constraints_nil in Hc.
  - eapply validate_labels_ok; [|exact El]. constructor.
Qed.

Lemma TodoUpdate_validate_ok t d f dn p :
  TodoUpdate.validate t d f dn = Ok p ->
  (forall ti, TodoUpdate.title p = Some ti -> (1 <= String.length ti <= 200)%nat) /\
  Forall label_name_ok (default [] (TodoUpdate.labels p)).
Proof.
  unfold TodoUpdate.validate.
  destruct (TodoBase.validate_optional_title t) as [ti|] eqn:Et;
    [|by destruct (TodoBase.validate_labels _ _)].
  destruct (TodoBase.validate_labels None f) as [ls|] eqn:El; [|done]. intros [= <-]. simpl.
  split.
  - intros x ->. destruct t as [| |s]; try done. simpl in Et.
    destruct (str_constraints "title" 1 200 s) eqn:Hc; [|done]. injection Et as <-.
    by apply str_constraints_nil in Hc.
  - eapply validate_labels_ok; [|exact El]. constructor.
Qed.

(** ** Every failure of a validator is a [ValidationError] *)

Definition is_validation (e : api_error) : Prop := exists es, e = ValidationError es.

Lemma normalize_labels_Err v e : TodoBase.normalize_labels v = Err e -> is_validation e.
Proof.
  destruct v as [v|]; [|done]. unfold TodoBase.normalize_labels. rewrite normalize_labels_loop_nil.
  destruct (forallb nonblank v); simpl; intros [= <-]. eexists; reflexivity.
Qed.

Lemma LabelCreate_validate_Err v e : LabelCreate.validate v = Err e -> is_validation e.
Proof.
  unfold LabelCreate.validate, LabelCreate.normalize.
  destruct v as [| |v]; [intros [= <-]; eexists; reflexivity..|].
  destruct (str_constraints "name" 1 50 v); [|intros [= <-]; eexists; reflexivity].
  case_match; intros [= <-]; eexists; reflexivity.
Qed.

Lemma TodoCreate_validate_Err t d l e : TodoCreate.validate t d l = Err e -> is_validation e.
Proof.
  unfold TodoCreate.validate. repeat case_match; intros [= <-]; eexists; reflexivity.
Qed.

Lemma TodoUpdate_validate_Err t d l dn e : TodoUpdate.validate t d l dn = Err e -> is_validation e.
Proof.
  unfold TodoUpdate.validate. repeat case_match; intros [= <-]; eexists; reflexivity.
Qed.

(** Closes [Forall label_name_ok l] for a literal list of normal names. *)
Ltac solve_names_ok :=
  simpl; repeat (constructor; [split; [reflexivity|discriminate]|]); constructor.
