(* ===== verification/Models.v ===== *)
(** * Models: the database of [models.py] and the session of [database.py]

    The three tables are finite maps keyed by their primary keys: [labels]
    ([id] to [name]), [todos] ([id] to the other columns) and the
    association table [todo_labels] as a set of [(todo_id, label_id)]
    pairs, which is exactly what its composite primary key allows.  The
    inserts check the constraints SQLite enforces ([PRIMARY KEY], [UNIQUE]
    on [labels.name]) and fail with [IntegrityError] like the driver.
    SQLite leaves foreign keys unchecked by default, so the inserts do not
    check them; the invariant [wf_db] states that the handlers keep them
    anyway.

    A request runs in the session monad [M]: a state of the database as
    the session sees it and the position of the random generator.
    [run_tx] is [get_db]: on success the session's writes are committed,
    on an exception they are rolled back, while the random draws stay
    drawn. *)

From S2P Require Import Prelude Text Schemas.

Open Scope string_scope.

(** ** Rows and tables *)

(** A [Label] object: a row of [labels]. *)
Record Label := mkLabel {
  label_id : Z;
  label_name : string
}.

(** The columns of a [todos] row besides its [id]. *)
Record TodoRow := mkTodoRow {
  todo_title : string;
  todo_done : bool;
  todo_due_date : option Z;
  todo_created_at : Z;
  todo_updated_at : Z
}.

Record DB := mkDB {
  labels : gmap Z string;
  todos : gmap Z TodoRow;
  todo_labels : gset (Z * Z)
}.

Definition empty_db : DB := mkDB ∅ ∅ ∅.

Definition set_labels (m : gmap Z string) (db : DB) : DB :=
  mkDB m (todos db) (todo_labels db).
Definition set_todos (m : gmap Z TodoRow) (db : DB) : DB :=
  mkDB (labels db) m (todo_labels db).
Definition set_todo_labels (r : gset (Z * Z)) (db : DB) : DB :=
  mkDB (labels db) (todos db) r.

(** ** Queries *)

(** [db.query(Label).filter(Label.name == name).first()]. *)
Definition find_label_by_name (db : DB) (name : string) : option Label :=
  match filter (fun kv : Z * string => kv.2 = name) (map_to_list (labels db)) with
  | (i, n) :: _ => Some (mkLabel i n)
  | [] => None
  end.

(** The relationship [Todo.labels]: the labels joined through
    [todo_labels], [order_by=Label.id]. *)
Definition label_ids_of (db : DB) (tid : Z) : list Z :=
  merge_sort Z.le
    (omap (fun p : Z * Z => if decide (p.1 = tid) then Some p.2 else None)
       (elements (todo_labels db))).

Definition labels_of (db : DB) (tid : Z) : list Label :=
  omap (fun lid => mkLabel lid <$> labels db !! lid) (label_ids_of db tid).

(** ** Constraint-checked writes *)

Definition pk_labels_error := IntegrityError "UNIQUE constraint failed: labels.id".
Definition unique_name_error := IntegrityError "UNIQUE constraint failed: labels.name".
Definition pk_todos_error := IntegrityError "UNIQUE constraint failed: todos.id".
Definition pk_todo_labels_error :=
  IntegrityError "UNIQUE constraint failed: todo_labels.todo_id, todo_labels.label_id".

(** [INSERT INTO labels]. *)
Definition insert_label (l : Label) (db : DB) : result DB :=
  if decide (is_Some (labels db !! label_id l)) then Err pk_labels_error
  else if decide (is_Some (find_label_by_name db (label_name l))) then Err unique_name_error
  else Ok (set_labels (<[label_id l := label_name l]> (labels db)) db).

(** [INSERT INTO todos]. *)
Definition insert_todo (tid : Z) (row : TodoRow) (db : DB) : result DB :=
  if decide (is_Some (todos db !! tid)) then Err pk_todos_error
  else Ok (set_todos (<[tid := row]> (todos db)) db).

(** [INSERT INTO todo_labels], one row per label, in order. *)
Fixpoint insert_todo_labels (tid : Z) (lids : list Z) (db : DB) : result DB :=
  match lids with
  | [] => Ok db
  | lid :: rest =>
      if decide ((tid, lid) ∈ todo_labels db) then Err pk_todo_labels_error
      else insert_todo_labels tid rest (set_todo_labels ({[(tid, lid)]} ∪ todo_labels db) db)
  end.

(** [DELETE FROM todo_labels WHERE todo_id = tid AND label_id IN lids]. *)
Definition delete_todo_labels (tid : Z) (lids : list Z) (db : DB) : DB :=
  set_todo_labels (filter (fun p : Z * Z => ~ (p.1 = tid /\ p.2 ∈ lids)) (todo_labels db)) db.

(** ** The session monad *)

Record Sess := mkSess {
  s_db : DB;
  s_rng : nat
}.

Definition M (A : Type) : Type := Sess -> result A * Sess.

Definition ret {A} (a : A) : M A := fun s => (Ok a, s).

Definition bind {A B} (m : M A) (k : A -> M B) : M B :=
  fun s =>
    match m s with
    | (Ok a, s') => k a s'
    | (Err e, s') => (Err e, s')
    end.

Definition raise {A} (e : api_error) : M A := fun s => (Err e, s).

Notation "x <- m ;; k" := (bind m (fun x => k))
  (at level 100, m at next level, right associativity) : api_scope.
Notation "m ;;; k" := (bind m (fun _ => k))
  (at level 100, right associativity) : api_scope.

Definition read {A} (f : DB -> A) : M A := fun s => (Ok (f (s_db s)), s).

(** A write that the database may refuse. *)
Definition write (f : DB -> result DB) : M unit :=
  fun s =>
    match f (s_db s) with
    | Ok db' => (Ok tt, mkSess db' (s_rng s))
    | Err e => (Err e, s)
    end.

(** [get_db] around a handler: commit on success, roll back the database
    on an exception (the random draws are not undone). *)
Definition run_tx {A} (h : M A) (s : Sess) : result A * Sess :=
  match h s with
  | (Ok a, s') => (Ok a, s')
  | (Err e, s') => (Err e, mkSess (s_db s) (s_rng s'))
  end.

Section WithRng.

(** [random.randint(0, 2**32 - 1)] at each position of the generator. *)
Context (rng : nat -> Z).

(** [random_id()]. *)
Definition random_id : M Z :=
  fun s => (Ok (rng (s_rng s) mod u32_max)%Z, mkSess (s_db s) (S (s_rng s))).

End WithRng.

(** A fixed generator for the concrete runs of the witnesses. *)
Definition demo_rng (k : nat) : Z := Z.of_nat (7 * k + 3).

(** ** The invariant of the store *)

Record wf_db (db : DB) : Prop := {
  wf_names_unique : forall i j n, labels db !! i = Some n -> labels db !! j = Some n -> i = j;
  wf_names_normal : map_Forall (fun _ n => label_name_ok n) (labels db);
  wf_assoc_todo : set_Forall (fun p => is_Some (todos db !! p.1)) (todo_labels db);
  wf_assoc_label : set_Forall (fun p => is_Some (labels db !! p.2)) (todo_labels db);
  wf_label_ids : map_Forall (fun i _ => in_u32 i) (labels db);
  wf_todo_ids : map_Forall (fun i _ => in_u32 i) (todos db);
  wf_titles : map_Forall (fun _ r => (1 <= String.length (todo_title r) <= 200)%nat) (todos db)
}.

(** ** A weakest precondition for the session monad

    [wp m Q s]: if [m] run from [s] succeeds with [a] in [s'], then
    [Q a s'].  The handlers' invariants are proved with these rules. *)

Definition wp {A} (m : M A) (Q : A -> Sess -> Prop) (s : Sess) : Prop :=
  match m s with
  | (Ok a, s') => Q a s'
  | (Err _, _) => True
  end.

Lemma wp_bind {A B} (m : M A) (k : A -> M B) Q s :
  wp m (fun a s' => wp (k a) Q s') s -> wp (bind m k) Q s.
Proof. unfold wp, bind. by destruct (m s) as [[a|e] s']. Qed.

Lemma wp_ret {A} (a : A) Q s : Q a s -> wp (ret a) Q s.
Proof. done. Qed.

Lemma wp_raise {A} e (Q : A -> Sess -> Prop) s : wp (raise e) Q s.
Proof. done. Qed.

Lemma wp_read {A} (f : DB -> A) Q s : Q (f (s_db s)) s -> wp (read f) Q s.
Proof. done. Qed.

Lemma wp_write f Q s :
  (forall db', f (s_db s) = Ok db' -> Q tt (mkSess db' (s_rng s))) -> wp (write f) Q s.
Proof. unfold wp, write. destruct (f (s_db s)) eqn:E; auto. Qed.

Lemma wp_random_id rng Q s :
  Q (rng (s_rng s) mod u32_max)%Z (mkSess (s_db s) (S (s_rng s))) -> wp (random_id rng) Q s.
Proof. done. Qed.

Lemma wp_mono {A} (m : M A) (Q Q' : A -> Sess -> Prop) s :
  (forall a s', Q a s' -> Q' a s') -> wp m Q s -> wp m Q' s.
Proof. unfold wp. destruct (m s) as [[a|e] s']; auto. Qed.

#[export] Hint Resolve wp_ret wp_raise wp_read : api.

(** One symbolic step of a monadic program. *)
Ltac wp_step :=
  match goal with
  | |- wp (bind _ _) _ _ => apply wp_bind
  | |- wp (ret _) _ _ => apply wp_ret
  | |- wp (raise _) _ _ => apply wp_raise
  | |- wp (read _) _ _ => apply wp_read
  | |- wp (write _) _ _ => apply wp_write; intros ? ?
  | |- wp (random_id _) _ _ => apply wp_random_id
  end.

(** ** The name lookup *)

Lemma find_label_by_name_Some db n l :
  find_label_by_name db n = Some l -> labels db !! label_id l = Some n /\ label_name l = n.
Proof.
  unfold find_label_by_name.
  destruct (filter _ _) as [|[i m] rest] eqn:E; [done|]. intros [= <-]. simpl.
  assert (Hin : (i, m) ∈ filter (fun kv : Z * string => kv.2 = n) (map_to_list (labels db)))
    by (rewrite E; left).
  apply list_elem_of_filter in Hin as [Hm Hin]. simpl in Hm. subst.
  by apply elem_of_map_to_list in Hin.
Qed.

Lemma find_label_by_name_None db n :
  find_label_by_name db n = None <-> forall i, labels db !! i <> Some n.
Proof.
  unfold find_label_by_name. split.
  - destruct (filter _ _) as [|[i m] rest] eqn:E; [|done]. intros _ i Hi.
    eapply (filter_nil_not_elem_of _ _ (i, n)); [exact E|done|].
    by apply elem_of_map_to_list.
  - intros Hn. destruct (filter _ _) as [|[i m] rest] eqn:E; [done|].
    assert (Hin : (i, m) ∈ filter (fun kv : Z * string => kv.2 = n) (map_to_list (labels db)))
      by (rewrite E; left).
    apply list_elem_of_filter in Hin as [Hm Hin]. simpl in Hm. subst.
    apply elem_of_map_to_list in Hin. exfalso. exact (Hn i Hin).
Qed.

Lemma find_label_by_name_wf db i n :
  wf_db db -> labels db !! i = Some n -> find_label_by_name db n = Some (mkLabel i n).
Proof.
  intros Hwf Hi. destruct (find_label_by_name db n) as [[j m]|] eqn:E.
  - apply find_label_by_name_Some in E as [Hj Hm]. simpl in Hj, Hm. subst m.
    by rewrite (wf_names_unique _ Hwf i j n Hi Hj).
  - exfalso. exact (proj1 (find_label_by_name_None db n) E i Hi).
Qed.

(** ** The writes keep the invariant *)

Lemma insert_label_Ok db l db' :
  insert_label l db = Ok db' ->
  labels db !! label_id l = None /\ find_label_by_name db (label_name l) = None /\
  db' = set_labels (<[label_id l := label_name l]> (labels db)) db.
Proof.
  unfold insert_label.
  destruct (decide (is_Some (labels db !! label_id l))) as [|Hi]; [done|].
  destruct (decide (is_Some (find_label_by_name db (label_name l)))) as [|Hn]; [done|].
  intros [= <-]. split; [by apply eq_None_not_Some|]. split; [by apply eq_None_not_Some|done].
Qed.

Lemma insert_label_wf db l db' :
  wf_db db -> label_name_ok (label_name l) -> in_u32 (label_id l) ->
  insert_label l db = Ok db' -> wf_db db'.
Proof.
  intros Hwf Hn Hid (Hi & Hfind & ->)%insert_label_Ok.
  pose proof (proj1 (find_label_by_name_None _ _) Hfind) as Hfresh.
  destruct Hwf; constructor; simpl; try done.
  - intros j k m Hj Hk. rewrite lookup_insert in Hj, Hk.
    repeat case_decide; simplify_eq; eauto; exfalso; eapply Hfresh; eauto.
  - by apply map_Forall_insert_2.
  - intros p Hp. rewrite lookup_insert_is_Some'. right. by apply wf_assoc_label0.
  - by apply map_Forall_insert_2.
Qed.

Lemma insert_todo_wf db tid row db' :
  wf_db db -> in_u32 tid -> (1 <= String.length (todo_title row) <= 200)%nat ->
  insert_todo tid row db = Ok db' -> wf_db db'.
Proof.
  unfold insert_todo. intros Hwf Htid Hti.
  destruct (decide (is_Some (todos db !! tid))); [done|]. intros [= <-].
  destruct Hwf; constructor; simpl; try done.
  - intros p Hp. rewrite lookup_insert_is_Some'. right. by apply wf_assoc_todo0.
  - by apply map_Forall_insert_2.
  - by apply map_Forall_insert_2.
Qed.

Lemma insert_todo_labels_wf tid lids db db' :
  wf_db db -> is_Some (todos db !! tid) ->
  (forall lid, lid ∈ lids -> is_Some (labels db !! lid)) ->
  insert_todo_labels tid lids db = Ok db' -> wf_db db'.
Proof.
  revert db. induction lids as [|lid lids IH]; intros db Hwf Ht Hl; simpl.
  - by intros [= <-].
  - case_decide; [done|]. apply IH; [|done|intros; apply Hl; by right].
    destruct Hwf; constructor; simpl; try done.
    + apply set_Forall_union; [by apply set_Forall_singleton|done].
    + apply set_Forall_union; [apply set_Forall_singleton, Hl; by left|done].
Qed.

Lemma delete_todo_labels_wf tid lids db :
  wf_db db -> wf_db (delete_todo_labels tid lids db).
Proof.
  intros []. constructor; simpl; try done;
    intros p Hp; apply elem_of_filter in Hp as [_ Hp]; auto.
Qed.

Lemma set_todo_labels_same db r : r = todo_labels db -> set_todo_labels r db = db.
Proof. intros ->. by destruct db. Qed.

(** The association rows a successful insert adds: the listed labels,
    which must be distinct and not yet attached. *)
Lemma insert_todo_labels_Ok tid lids db db' :
  insert_todo_labels tid lids db = Ok db' <->
  NoDup lids /\ (forall lid, lid ∈ lids -> (tid, lid) ∉ todo_labels db) /\
  db' = set_todo_labels (list_to_set ((fun lid => (tid, lid)) <$> lids) ∪ todo_labels db) db.
Proof.
  revert db. induction lids as [|lid lids IH]; intros db; simpl.
  - split.
    + intros [= <-]. split; [constructor|]. split; [set_solver|].
      symmetry. apply set_todo_labels_same. set_solver.
    + intros (_ & _ & ->). rewrite set_todo_labels_same; [done|set_solver].
  - case_decide as Hin.
    + split; [done|]. intros (_ & Hnot & _). by destruct (Hnot lid); [left|].
    + rewrite IH. simpl. split.
      * intros (Hnd & Hnot & ->). split; [constructor; [|done]|split].
        -- intros Hl. apply (Hnot lid Hl). set_solver.
        -- intros l' [->|Hl']%elem_of_cons; [done|]. specialize (Hnot l' Hl'). set_solver.
        -- unfold set_todo_labels. simpl. f_equal. set_solver.
      * intros (Hnd & Hnot & ->). apply NoDup_cons in Hnd as [Hl Hnd].
        split; [done|]. split.
        -- intros l' Hl'. apply not_elem_of_union. split; [|apply Hnot; by right].
           apply not_elem_of_singleton. intros [= ->]. done.
        -- unfold set_todo_labels. simpl. f_equal. set_solver.
Qed.

(** ** The relationship read *)

Lemma elem_of_label_ids_of db tid l :
  l ∈ label_ids_of db tid <-> (tid, l) ∈ todo_labels db.
Proof.
  unfold label_ids_of. rewrite (merge_sort_Permutation Z.le), list_elem_of_omap.
  split.
  - intros ([t l'] & Hin & Hf). apply elem_of_elements in Hin. simpl in Hf.
    case_decide; simplify_eq. done.
  - intros Hin. exists (tid, l). rewrite elem_of_elements. simpl. by rewrite decide_True.
Qed.

Lemma label_ids_of_NoDup db tid : NoDup (label_ids_of db tid).
Proof.
  unfold label_ids_of. rewrite (merge_sort_Permutation Z.le).
  apply NoDup_omap; [|apply NoDup_elements].
  intros [t1 l1] [t2 l2] z _ _. simpl. do 2 case_decide; congruence.
Qed.

Lemma label_names_of db tid :
  label_name <$> labels_of db tid = omap (fun lid => labels db !! lid) (label_ids_of db tid).
Proof.
  unfold labels_of. induction (label_ids_of db tid) as [|lid ids IH]; [done|]. simpl.
  destruct (labels db !! lid); simpl; [f_equal|]; exact IH.
Qed.

Lemma omap_stored (m : gmap Z string) (lbls : list Label) :
  Forall (fun l => m !! label_id l = Some (label_name l)) lbls ->
  omap (fun lid => m !! lid) (label_id <$> lbls) = label_name <$> lbls.
Proof.
  induction 1 as [|l lbls Hl _ IH]; [done|]. simpl. rewrite Hl. simpl. f_equal. exact IH.
Qed.

(** The names a todo shows are those of the labels its association rows
    name, up to order, when those labels are stored. *)
Lemma labels_of_perm db tid (lbls : list Label) :
  (forall l, (tid, l) ∈ todo_labels db <-> l ∈ label_id <$> lbls) ->
  NoDup (label_id <$> lbls) ->
  Forall (fun l => labels db !! label_id l = Some (label_name l)) lbls ->
  label_name <$> labels_of db tid ≡ₚ label_name <$> lbls.
Proof.
  intros Hrows Hnd Hst. rewrite label_names_of, <- (omap_stored _ _ Hst).
  apply omap_Permutation_proper, NoDup_Permutation; [apply label_ids_of_NoDup|done|].
  intros l. by rewrite elem_of_label_ids_of.
Qed.

(** Labels stored under one name have one id, so their ids repeat exactly
    when their names do. *)
Lemma stored_ids_NoDup_iff db (lbls : list Label) :
  wf_db db -> Forall (fun l => labels db !! label_id l = Some (label_name l)) lbls ->
  NoDup (label_id <$> lbls) <-> NoDup (label_name <$> lbls).
Proof.
  intros Hwf Hst. apply NoDup_fmap_ext. intros x y Hx Hy.
  rewrite Forall_forall in Hst. pose proof (Hst x Hx). pose proof (Hst y Hy).
  split; intros E.
  - congruence.
  - eapply wf_names_unique; [done| |]; [done|]. by rewrite E.
Qed.

Lemma wp_False_Err {A} (m : M A) s :
  wp m (fun _ _ => False) s -> exists e s', m s = (Err e, s').
Proof. unfold wp. destruct (m s) as [[a|e] s']; [done|eauto]. Qed.

Lemma wf_empty_db : wf_db empty_db.
Proof. constructor; simpl; try done; intros ?; set_solver. Qed.

Lemma labels_of_stored db tid n :
  n ∈ label_name <$> labels_of db tid -> exists i, labels db !! i = Some n.
Proof.
  rewrite label_names_of, list_elem_of_omap. intros (i & _ & Hi). eauto.
Qed.

Lemma elem_of_labels_of db tid lb :
  lb ∈ labels_of db tid <->
  (tid, label_id lb) ∈ todo_labels db /\ labels db !! label_id lb = Some (label_name lb).
Proof.
  unfold labels_of. rewrite list_elem_of_omap. split.
  - intros (lid & Hin%elem_of_label_ids_of & Hl). apply fmap_Some in Hl as (n & Hn & ->). done.
  - intros [Hin Hl]. exists (label_id lb). rewrite elem_of_label_ids_of, Hl. by destruct lb.
Qed.

Lemma labels_of_stored_all db tid :
  Forall (fun l => labels db !! label_id l = Some (label_name l)) (labels_of db tid).
Proof. apply Forall_forall. intros lb Hlb. by apply elem_of_labels_of in Hlb as [_ ?]. Qed.

Lemma elem_of_label_names_of db tid n :
  n ∈ label_name <$> labels_of db tid <->
  exists lid, (tid, lid) ∈ todo_labels db /\ labels db !! lid = Some n.
Proof.
  rewrite list_elem_of_fmap. split.
  - intros (lb & -> & (Hin & Hl)%elem_of_labels_of). eauto.
  - intros (lid & Hin & Hl). exists (mkLabel lid n). split; [done|]. by apply elem_of_labels_of.
Qed.

Lemma elem_of_label_ids_labels_of db tid l :
  wf_db db -> l ∈ label_id <$> labels_of db tid <-> (tid, l) ∈ todo_labels db.
Proof.
  intros Hwf. rewrite list_elem_of_fmap. split.
  - intros (lb & -> & (Hin & _)%elem_of_labels_of). done.
  - intros Hin. destruct (wf_assoc_label _ Hwf _ Hin) as [n Hn]. simpl in Hn.
    exists (mkLabel l n). split; [done|]. by apply elem_of_labels_of.
Qed.

Lemma label_ids_labels_of db tid :
  label_id <$> labels_of db tid = filter (fun lid => is_Some (labels db !! lid)) (label_ids_of db tid).
Proof.
  unfold labels_of. induction (label_ids_of db tid) as [|lid ids IH]; [done|].
  rewrite filter_cons. case_decide as Hs.
  - destruct Hs as [n E]. simpl. rewrite E. simpl. f_equal. exact IH.
  - simpl. destruct (labels db !! lid) eqn:E; [by destruct Hs; eexists|]. exact IH.
Qed.

(** The labels of a todo ([Todo.labels], [order_by=Label.id]) come
    in strictly increasing id order, so a todo shows its label names in
    the order of their ids. *)
Theorem labels_of_sorted (db : DB) (tid : Z) :
  StronglySorted (fun l1 l2 => (label_id l1 < label_id l2)%Z) (labels_of db tid).
Proof.
  unfold labels_of. apply (StronglySorted_omap (fun a b => (a < b)%Z)).
  - intros x y x' y' (n & _ & ->)%fmap_Some (m & _ & ->)%fmap_Some. done.
  - apply (StronglySorted_le_lt id); [apply (StronglySorted_merge_sort Z.le)|].
    rewrite list_fmap_id. apply label_ids_of_NoDup.
Qed.

(** Under the invariant a todo shows each of its label names once. *)
Lemma labels_of_names_NoDup db tid : wf_db db -> NoDup (label_name <$> labels_of db tid).
Proof.
  intros Hwf. apply (stored_ids_NoDup_iff db); [done|apply labels_of_stored_all|].
  rewrite label_ids_labels_of. apply NoDup_filter, label_ids_of_NoDup.
Qed.

(** [UPDATE todos SET ... WHERE id = tid] keeps the invariant. *)
Lemma update_row_wf db tid r :
  wf_db db -> is_Some (todos db !! tid) -> (1 <= String.length (todo_title r) <= 200)%nat ->
  wf_db (set_todos (<[tid := r]> (todos db)) db).
Proof.
  intros [] [r0 Hr0] Ht. constructor; simpl; try done.
  - intros q Hq. rewrite lookup_insert_is_Some'. right. by apply wf_assoc_todo0.
  - apply map_Forall_insert_2; [|done]. by apply (wf_todo_ids0 tid r0).
  - by apply map_Forall_insert_2.
Qed.

Lemma wp_run {A} (m : M A) Q s a s' : wp m Q s -> m s = (Ok a, s') -> Q a s'.
Proof. unfold wp. intros H E. by rewrite E in H. Qed.

(** A failed request leaves the database of the session as it found it. *)
Lemma run_tx_Err {A} (h : M A) s e s' : run_tx h s = (Err e, s') -> s_db s' = s_db s.
Proof. unfold run_tx. destruct (h s) as [[a|e'] s1]; [done|]. by intros [= <- <-]. Qed.

(** ** Which errors a program may raise

    [wpe m E s]: if [m] run from [s] fails with [e], then [E e].  With
    [wp] it gives the whole contract of a handler: its result on success
    and its possible errors on failure. *)

Definition wpe {A} (m : M A) (E : api_error -> Prop) (s : Sess) : Prop :=
  forall e s', m s = (Err e, s') -> E e.

(** A failure of a database constraint. *)
Definition is_integrity (e : api_error) : Prop := exists c, e = IntegrityError c.

Lemma wp_intro {A} (m : M A) (Q : A -> Sess -> Prop) s : (forall a s', Q a s') -> wp m Q s.
Proof. unfold wp. destruct (m s) as [[a|e] s']; auto. Qed.

Lemma wpe_bind {A B} (m : M A) (k : A -> M B) E s :
  wpe m E s -> wp m (fun a s' => wpe (k a) E s') s -> wpe (bind m k) E s.
Proof.
  unfold wpe, wp, bind. destruct (m s) as [[a|e0] s1]; intros He Hk e s'.
  - apply Hk.
  - intros [= <- _]. by eapply He.
Qed.

Lemma wpe_ret {A} (a : A) E s : wpe (ret a) E s.
Proof. by intros e s'. Qed.

Lemma wpe_raise {A} e (E : api_error -> Prop) s : E e -> wpe (A:=A) (raise e) E s.
Proof. intros He e' s' [= <- _]. exact He. Qed.

Lemma wpe_read {A} (f : DB -> A) E s : wpe (read f) E s.
Proof. by intros e s'. Qed.

Lemma wpe_write f (E : api_error -> Prop) s :
  (forall e, f (s_db s) = Err e -> E e) -> wpe (write f) E s.
Proof. unfold wpe, write. intros H e s'. destruct (f (s_db s)) eqn:Ef; [done|]. intros [= <- _]. auto. Qed.

Lemma wpe_random_id rng E s : wpe (random_id rng) E s.
Proof. by intros e s'. Qed.

Lemma wpe_mono {A} (m : M A) (E E' : api_error -> Prop) s :
  (forall e, E e -> E' e) -> wpe m E s -> wpe m E' s.
Proof. unfold wpe. eauto. Qed.

(** One symbolic step of the error logic: the binds whose first part
    cannot fail are passed with [wp_intro]. *)
Ltac wpe_step :=
  match goal with
  | |- wpe (bind _ _) _ _ => apply wpe_bind
  | |- wpe (ret _) _ _ => apply wpe_ret
  | |- wpe (raise _) _ _ => apply wpe_raise
  | |- wpe (read _) _ _ => apply wpe_read
  | |- wpe (random_id _) _ _ => apply wpe_random_id
  | |- wpe (write _) _ _ => apply wpe_write; intros ? ?
  | |- wp _ (fun _ _ => wpe _ _ _) _ => apply wp_intro; intros ? ?; cbv beta
  end.

Lemma insert_label_Err l db e : insert_label l db = Err e -> is_integrity e.
Proof. unfold insert_label. repeat case_decide; intros [= <-]; eexists; reflexivity. Qed.

Lemma insert_todo_Err tid row db e : insert_todo tid row db = Err e -> is_integrity e.
Proof. unfold insert_todo. case_decide; intros [= <-]. eexists; reflexivity. Qed.

Lemma insert_todo_labels_Err tid lids db e : insert_todo_labels tid lids db = Err e -> is_integrity e.
Proof.
  revert db. induction lids as [|lid lids IH]; intros db; simpl; [done|].
  case_decide; [intros [= <-]; eexists; reflexivity|apply IH].
Qed.

#[export] Hint Resolve insert_label_Err insert_todo_Err insert_todo_labels_Err : api.

(** ** Which programs are sure to succeed

    [wpt m Q s]: [m] run from [s] succeeds, with a result and a state
    satisfying [Q].  It states the progress of a handler: under its
    preconditions the request is answered with a success. *)

Definition wpt {A} (m : M A) (Q : A -> Sess -> Prop) (s : Sess) : Prop :=
  exists a s', m s = (Ok a, s') /\ Q a s'.

Lemma wpt_bind {A B} (m : M A) (k : A -> M B) Q s :
  wpt m (fun a s' => wpt (k a) Q s') s -> wpt (bind m k) Q s.
Proof. unfold wpt, bind. intros (a & s1 & -> & b & s2 & Hk & HQ). eauto. Qed.

Lemma wpt_ret {A} (a : A) (Q : A -> Sess -> Prop) s : Q a s -> wpt (ret a) Q s.
Proof. unfold wpt. eauto. Qed.

Lemma wpt_read {A} (f : DB -> A) Q s : Q (f (s_db s)) s -> wpt (read f) Q s.
Proof. unfold wpt. eauto. Qed.

Lemma wpt_random_id rng Q s :
  Q (rng (s_rng s) mod u32_max)%Z (mkSess (s_db s) (S (s_rng s))) -> wpt (random_id rng) Q s.
Proof. unfold wpt. eauto. Qed.

Lemma wpt_write f Q s db' :
  f (s_db s) = Ok db' -> Q tt (mkSess db' (s_rng s)) -> wpt (write f) Q s.
Proof. unfold wpt, write. intros -> HQ. eauto. Qed.

Lemma wpt_mono {A} (m : M A) (Q Q' : A -> Sess -> Prop) s :
  (forall a s', Q a s' -> Q' a s') -> wpt m Q s -> wpt m Q' s.
Proof. unfold wpt. intros H (a & s' & E & HQ). eauto. Qed.

(** A success also meets what [wp] promises. *)
Lemma wpt_wp {A} (m : M A) (Q Q' : A -> Sess -> Prop) s :
  wpt m Q s -> wp m Q' s -> wpt m (fun a s' => Q a s' /\ Q' a s') s.
Proof. unfold wpt, wp. intros (a & s' & E & HQ) H. rewrite E in H. eauto. Qed.

(** ** Fresh random ids

    The [n] draws from position [k] on are pairwise distinct and name no
    stored label and no stored todo. *)

Definition fresh_ids (rng : nat -> Z) (k n : nat) (db : DB) : Prop :=
  (forall j, k <= j < k + n ->
     labels db !! (rng j mod u32_max)%Z = None /\ todos db !! (rng j mod u32_max)%Z = None) /\
  (forall i j, k <= i < k + n -> k <= j < k + n -> i <> j ->
     (rng i mod u32_max)%Z <> (rng j mod u32_max)%Z).

Lemma fresh_ids_weaken rng k n n' db : n' <= n -> fresh_ids rng k n db -> fresh_ids rng k n' db.
Proof. intros Hn [Hf Hi]. split; [intros j ?; apply Hf; lia|intros i j ???; apply Hi; lia]. Qed.

(** Using the draw at [k] for one new row leaves the later draws fresh. *)
Lemma fresh_ids_use rng k n db db' :
  fresh_ids rng k (S n) db ->
  (forall i, is_Some (labels db' !! i) -> is_Some (labels db !! i) \/ i = (rng k mod u32_max)%Z) ->
  (forall i, is_Some (todos db' !! i) -> is_Some (todos db !! i) \/ i = (rng k mod u32_max)%Z) ->
  fresh_ids rng (S k) n db'.
Proof.
  intros [Hf Hi] Hl Ht. split; [|intros i j ???; apply Hi; lia].
  intros j Hj. destruct (Hf j ltac:(lia)) as [Hlj Htj].
  assert (Hne : (rng j mod u32_max)%Z <> (rng k mod u32_max)%Z) by (apply Hi; lia).
  split; apply eq_None_not_Some; intros Hs.
  - destruct (Hl _ Hs) as [Hs'|]; [rewrite Hlj in Hs'; by destruct Hs'|done].
  - destruct (Ht _ Hs) as [Hs'|]; [rewrite Htj in Hs'; by destruct Hs'|done].
Qed.
