(* ===== verification/LabelStore.v ===== *)
(** * LabelStore: the label handlers of [main.py] and the get-or-create loop

    [create_label] and [list_labels] are the handlers of [POST /labels] and
    [GET /labels]; [get_or_create] is the body of the loop that both todo
    handlers run over the validated label names, and [resolve_labels] the
    loop itself.  The todo handlers see the loop only through the class
    [LabelResolver]: what resolving a list of names promises (every name
    has a stored label of that name, in order, and nothing else of the
    store changes), proved here for [resolve_labels].

    Theorems: the conflict and success branches of [create_label], the
    unchecked collision of a random id, the order and contents of
    [list_labels], and the contract of the loop. *)

From S2P Require Import Prelude Text Schemas Models.

Open Scope string_scope.

(** [order_by(Label.id)]. *)
Definition label_le (l1 l2 : Label) : Prop := (label_id l1 <= label_id l2)%Z.

#[export] Instance label_le_dec : RelDecision label_le.
Proof. intros l1 l2. unfold label_le. apply _. Defined.

#[export] Instance label_le_total : Total label_le.
Proof. intros l1 l2. unfold label_le. lia. Qed.

#[export] Instance label_le_trans : Transitive label_le.
Proof. intros l1 l2 l3. unfold label_le. lia. Qed.

Definition label_rows (db : DB) : list Label :=
  (fun kv : Z * string => mkLabel kv.1 kv.2) <$> map_to_list (labels db).

(** The filter of [list_labels]: [if q:] then [ilike '%q.lower()%']. *)
Definition label_matches (q : option string) (l : Label) : bool :=
  match q with
  | Some q' => if String.eqb q' "" then true else sql_ilike (label_name l) (label_filter_pattern q')
  | None => true
  end.

Definition list_labels_query (q : option string) (db : DB) : list Label :=
  merge_sort label_le (filter (fun l => label_matches q l = true) (label_rows db)).

Section WithRng.

Context (rng : nat -> Z).

(** [create_label]: the name is [LabelCreate]'s output. *)
Definition create_label (name : string) : M Label :=
  existing <- read (fun db => find_label_by_name db name) ;;
  match existing with
  | Some _ => raise (Conflict name)
  | None =>
      i <- random_id rng ;;
      write (insert_label (mkLabel i name)) ;;;
      ret (mkLabel i name)
  end.

(** [list_labels]. *)
Definition list_labels (q : option string) : M (list Label) :=
  read (list_labels_query q).

(** One iteration of the loop of [create_todo] and [update_todo]: the
    label of that name, inserted and flushed if it is new. *)
Definition get_or_create (name : string) : M Label :=
  found <- read (fun db => find_label_by_name db name) ;;
  match found with
  | Some lbl => ret lbl
  | None =>
      i <- random_id rng ;;
      write (insert_label (mkLabel i name)) ;;;
      ret (mkLabel i name)
  end.

(** The loop: the labels in the order of the names. *)
Fixpoint resolve_labels (names : list string) : M (list Label) :=
  match names with
  | [] => ret []
  | name :: rest =>
      lbl <- get_or_create name ;;
      lbls <- resolve_labels rest ;;
      ret (lbl :: lbls)
  end.

End WithRng.

(** ** The interface the todo handlers use *)

(** What resolving [names] from [db] to [db'] guarantees. *)
Record resolved (names : list string) (lbls : list Label) (db db' : DB) : Prop := {
  resolved_wf : wf_db db';
  resolved_names : label_name <$> lbls = names;
  resolved_stored : Forall (fun l => labels db' !! label_id l = Some (label_name l)) lbls;
  resolved_grow : labels db ⊆ labels db';
  resolved_new : forall i n, labels db' !! i = Some n -> labels db !! i = Some n \/ n ∈ names;
  resolved_todos : todos db' = todos db;
  resolved_rows : todo_labels db' = todo_labels db
}.

Class LabelResolver := {
  resolve : list string -> M (list Label);
  resolve_spec : forall names s,
    wf_db (s_db s) -> Forall label_name_ok names ->
    wp (resolve names) (fun lbls s' => resolved names lbls (s_db s) (s_db s')) s;
  resolve_err : forall names s, wpe (resolve names) is_integrity s
}.

(** ** create_label *)

Lemma find_label_by_name_exists db i name :
  labels db !! i = Some name -> exists l, find_label_by_name db name = Some l.
Proof.
  intros Hi. destruct (find_label_by_name db name) as [l|] eqn:E; [by exists l|].
  exfalso. exact (proj1 (find_label_by_name_None db name) E i Hi).
Qed.

(** [POST /labels] with a name some label already has fails with
    [Conflict] and changes nothing, not even the random generator. *)
Theorem create_label_conflict (rng : nat -> Z) (s : Sess) (i : Z) (name : string) :
  labels (s_db s) !! i = Some name ->
  create_label rng name s = (Err (Conflict name), s).
Proof.
  intros Hi. destruct (find_label_by_name_exists _ _ _ Hi) as [l Hl].
  unfold create_label, bind, read. simpl. by rewrite Hl.
Qed.

(** C26 [POST /labels] with a new name inserts one label under the id
    [random_id] draws, when that id is free, and returns it. *)
Theorem create_label_fresh (rng : nat -> Z) (s : Sess) (name : string) :
  (forall i, labels (s_db s) !! i <> Some name) ->
  labels (s_db s) !! (rng (s_rng s) mod u32_max)%Z = None ->
  create_label rng name s =
    (Ok (mkLabel (rng (s_rng s) mod u32_max) name),
     mkSess (set_labels (<[(rng (s_rng s) mod u32_max)%Z := name]> (labels (s_db s))) (s_db s))
       (S (s_rng s))).
Proof.
  intros Hname Hid. pose proof (proj2 (find_label_by_name_None _ _) Hname) as Hf.
  unfold create_label, bind, read, write, random_id, ret. simpl. rewrite Hf.
  unfold insert_label. simpl. rewrite Hid, Hf. reflexivity.
Qed.

(** C27 The id of a new label is drawn without looking at the ids in use:
    when the draw hits one, the insert fails with an [IntegrityError]
    (HTTP 500) instead of retrying. *)
Theorem create_label_id_collision (rng : nat -> Z) (s : Sess) (name : string) :
  (forall i, labels (s_db s) !! i <> Some name) ->
  is_Some (labels (s_db s) !! (rng (s_rng s) mod u32_max)%Z) ->
  create_label rng name s = (Err pk_labels_error, mkSess (s_db s) (S (s_rng s))).
Proof.
  intros Hname Hid. pose proof (proj2 (find_label_by_name_None _ _) Hname) as Hf.
  unfold create_label, bind, read, write, random_id. simpl. rewrite Hf.
  unfold insert_label. simpl. by rewrite decide_True.
Qed.

(** ** list_labels *)

Lemma elem_of_label_rows db l :
  l ∈ label_rows db <-> labels db !! label_id l = Some (label_name l).
Proof.
  unfold label_rows. rewrite list_elem_of_fmap. split.
  - intros ([i n] & -> & Hin). by apply elem_of_map_to_list in Hin.
  - intros Hl. exists (label_id l, label_name l). split; [by destruct l|].
    by apply elem_of_map_to_list.
Qed.

Lemma label_rows_ids_NoDup db : NoDup (label_id <$> label_rows db).
Proof.
  unfold label_rows. rewrite <- list_fmap_compose. apply NoDup_fst_map_to_list.
Qed.

Lemma elem_of_list_labels_query q db l :
  l ∈ list_labels_query q db <->
  labels db !! label_id l = Some (label_name l) /\ label_matches q l = true.
Proof.
  unfold list_labels_query.
  rewrite (merge_sort_Permutation label_le), list_elem_of_filter, elem_of_label_rows. tauto.
Qed.

Lemma list_labels_query_ids_NoDup q db : NoDup (label_id <$> list_labels_query q db).
Proof.
  unfold list_labels_query. rewrite (merge_sort_Permutation label_le).
  apply NoDup_fmap_filter, label_rows_ids_NoDup.
Qed.

(** C25 [GET /labels?q=...] answers the stored labels that pass the
    filter, each once, in strictly increasing id order. *)
Theorem list_labels_query_spec (q : option string) (db : DB) :
  StronglySorted (fun l1 l2 => (label_id l1 < label_id l2)%Z) (list_labels_query q db) /\
  (forall l, l ∈ list_labels_query q db <->
             labels db !! label_id l = Some (label_name l) /\ label_matches q l = true).
Proof.
  unfold list_labels_query. split.
  - apply StronglySorted_le_lt; [apply (StronglySorted_merge_sort label_le)|].
    apply list_labels_query_ids_NoDup.
  - apply elem_of_list_labels_query.
Qed.

(** ** The get-or-create loop meets its interface *)

Lemma resolved_nil db : wf_db db -> resolved [] [] db db.
Proof. intros Hwf. constructor; try done. intros i n Hi. by left. Qed.

Lemma resolved_cons n ns l ls db1 db2 db3 :
  resolved [n] [l] db1 db2 -> resolved ns ls db2 db3 -> resolved (n :: ns) (l :: ls) db1 db3.
Proof.
  intros [_ Hn1 Hs1 Hg1 Hw1 Ht1 Hr1] [Hwf Hn2 Hs2 Hg2 Hw2 Ht2 Hr2]. constructor; try done.
  - rewrite fmap_cons, Hn2. simpl in Hn1. by injection Hn1 as ->.
  - constructor; [|done]. apply Forall_inv in Hs1. by eapply lookup_weaken.
  - by transitivity (labels db2).
  - intros i m Hi. destruct (Hw2 i m Hi) as [Hi2|]; [|right; by right].
    destruct (Hw1 i m Hi2) as [|Hm]; [by left|].
    apply list_elem_of_singleton in Hm as ->. right. by left.
  - congruence.
  - congruence.
Qed.

Lemma get_or_create_spec rng name s :
  wf_db (s_db s) -> label_name_ok name ->
  wp (get_or_create rng name) (fun l s' => resolved [name] [l] (s_db s) (s_db s')) s.
Proof.
  intros Hwf Hn. unfold get_or_create. wp_step. wp_step. simpl.
  destruct (find_label_by_name (s_db s) name) as [l|] eqn:E.
  - wp_step. apply find_label_by_name_Some in E as [Hl <-].
    constructor; [done|done|by constructor|done|by left|done|done].
  - wp_step. wp_step. simpl. wp_step. wp_step. wp_step. simpl.
    match goal with H : insert_label _ _ = Ok _ |- _ => rename H into Hins end.
    simpl in Hins.
    pose proof (insert_label_wf _ (mkLabel _ name) _ Hwf Hn (mod_u32_in_range _) Hins) as Hwf'.
    apply insert_label_Ok in Hins as (Hfree & _ & ->). simpl in *.
    constructor; [done|done| | | |done|done].
    + constructor; [|done]. simpl. apply lookup_insert_eq.
    + simpl. by apply insert_subseteq.
    + simpl. intros i m. rewrite lookup_insert. case_decide; [intros [= <-]; right; by left|by left].
Qed.

Lemma resolved_names_ok names lbls db db' :
  Forall label_name_ok names -> resolved names lbls db db' -> Forall label_name_ok (label_name <$> lbls).
Proof. intros Hn Hr. by rewrite (resolved_names _ _ _ _ Hr). Qed.

(** The loop resolves every name to a stored label of that name, keeps
    the invariant and changes nothing but the labels table, where it only
    adds. *)
Lemma resolve_labels_spec rng names s :
  wf_db (s_db s) -> Forall label_name_ok names ->
  wp (resolve_labels rng names) (fun lbls s' => resolved names lbls (s_db s) (s_db s')) s.
Proof.
  revert s. induction names as [|n ns IH]; intros s Hwf Hns; simpl.
  - wp_step. by apply resolved_nil.
  - apply Forall_cons in Hns as [Hn Hns]. wp_step.
    eapply wp_mono; [|by apply get_or_create_spec]. intros l s1 Hr1. simpl.
    wp_step. eapply wp_mono; [|apply IH; [apply Hr1|done]]. intros ls s2 Hr2. simpl.
    wp_step. exact (resolved_cons _ _ _ _ _ _ _ Hr1 Hr2).
Qed.

(** The loop fails only on a constraint of [labels]. *)
Lemma get_or_create_err rng name s : wpe (get_or_create rng name) is_integrity s.
Proof.
  unfold get_or_create. wpe_step; [wpe_step|]. apply wp_intro. intros found s1. cbv beta.
  destruct found; [wpe_step|]. repeat wpe_step. by eapply insert_label_Err.
Qed.

Lemma resolve_labels_err rng names s : wpe (resolve_labels rng names) is_integrity s.
Proof.
  revert s. induction names as [|n ns IH]; intros s; simpl; [wpe_step|].
  wpe_step; [apply get_or_create_err|]. wpe_step. wpe_step; [apply IH|]. repeat wpe_step.
Qed.

(** With a fresh draw at hand the loop body succeeds; it uses at most
    that draw. *)
Lemma get_or_create_live rng name s n :
  fresh_ids rng (s_rng s) (S n) (s_db s) ->
  wpt (get_or_create rng name) (fun _ s' => fresh_ids rng (s_rng s') n (s_db s')) s.
Proof.
  intros Hf. unfold get_or_create. apply wpt_bind, wpt_read. simpl.
  destruct (find_label_by_name (s_db s) name) as [l|] eqn:E.
  - apply wpt_ret. eapply fresh_ids_weaken; [|exact Hf]. lia.
  - destruct (proj1 Hf (s_rng s) ltac:(lia)) as [Hid _].
    apply wpt_bind, wpt_random_id. simpl. apply wpt_bind. eapply wpt_write.
    + unfold insert_label. simpl. rewrite Hid, E. reflexivity.
    + apply wpt_ret. eapply fresh_ids_use; [exact Hf| |]; simpl.
      * intros i. rewrite lookup_insert_is_Some'. intros [->|?]; auto.
      * intros i Hi. by left.
Qed.

(** The loop succeeds when as many fresh draws as names are at hand. *)
Lemma resolve_labels_live rng names s n :
  fresh_ids rng (s_rng s) (List.length names + n) (s_db s) ->
  wpt (resolve_labels rng names) (fun _ s' => fresh_ids rng (s_rng s') n (s_db s')) s.
Proof.
  revert s. induction names as [|nm ns IH]; intros s Hf; simpl in *.
  - by apply wpt_ret.
  - apply wpt_bind. eapply wpt_mono; [|by apply get_or_create_live]. intros l s1 Hf1.
    apply wpt_bind. eapply wpt_mono; [|by apply IH]. intros ls s2 Hf2. by apply wpt_ret.
Qed.

#[export] Instance resolve_labels_resolver (rng : nat -> Z) : LabelResolver := {|
  resolve := resolve_labels rng;
  resolve_spec := resolve_labels_spec rng;
  resolve_err := resolve_labels_err rng
|}.

(** A label [create_label] answers is stored under its id. *)
Lemma create_label_stored rng name s :
  wp (create_label rng name) (fun l s' => labels (s_db s') !! label_id l = Some (label_name l)) s.
Proof.
  unfold create_label. wp_step. wp_step. simpl.
  destruct (find_label_by_name (s_db s) name); [wp_step|].
  wp_step. wp_step. simpl. wp_step. wp_step. wp_step. simpl.
  match goal with H : insert_label _ _ = Ok _ |- _ => apply insert_label_Ok in H as (_ & _ & ->) end.
  apply lookup_insert_eq.
Qed.

(** [POST /labels] fails with [Conflict] only for a stored name, and
    otherwise only on a constraint of [labels]. *)
Lemma create_label_err rng name s :
  wpe (create_label rng name) (fun e =>
    (e = Conflict name /\ exists i, labels (s_db s) !! i = Some name) \/ is_integrity e) s.
Proof.
  unfold create_label. wpe_step; [wpe_step|]. apply wp_read. cbv beta.
  destruct (find_label_by_name (s_db s) name) as [l|] eqn:E.
  - wpe_step. left. split; [done|]. apply find_label_by_name_Some in E as [Hl <-]. eauto.
  - repeat wpe_step; try discriminate. right. by eapply insert_label_Err.
Qed.

(** ** create_label keeps the invariant *)

Lemma create_label_wf rng name s :
  wf_db (s_db s) -> label_name_ok name ->
  wp (create_label rng name) (fun _ s' => wf_db (s_db s')) s.
Proof.
  intros Hwf Hn. unfold create_label. wp_step. wp_step. simpl.
  destruct (find_label_by_name (s_db s) name); [wp_step|].
  wp_step. wp_step. simpl. wp_step. wp_step. wp_step.
  simpl in *. by eapply (insert_label_wf _ (mkLabel _ name)); [| |apply mod_u32_in_range|].
Qed.

(** ** Concrete runs *)

Definition demo_db : DB := set_labels (<[3%Z := "urgent"]> ∅) empty_db.

Lemma create_label_fresh_witness :
  (forall i, labels (s_db (mkSess demo_db 1)) !! i <> Some "errand") /\
  labels (s_db (mkSess demo_db 1)) !! (demo_rng 1 mod u32_max)%Z = None /\
  create_label demo_rng "errand" (mkSess demo_db 1) =
    (Ok (mkLabel (demo_rng 1 mod u32_max) "errand"),
     mkSess (set_labels (<[(demo_rng 1 mod u32_max)%Z := "errand"]> (labels demo_db)) demo_db) 2).
Proof.
  assert (Hn : forall i, labels demo_db !! i <> Some "errand").
  { intros i. simpl. rewrite lookup_insert. case_decide; [discriminate|by rewrite lookup_empty]. }
  split; [exact Hn|]. split; [reflexivity|].
  apply (create_label_fresh demo_rng (mkSess demo_db 1)); [exact Hn|reflexivity].
Defined.

Lemma create_label_id_collision_witness :
  (forall i, labels (s_db (mkSess demo_db 0)) !! i <> Some "errand") /\
  is_Some (labels (s_db (mkSess demo_db 0)) !! (demo_rng 0 mod u32_max)%Z) /\
  create_label demo_rng "errand" (mkSess demo_db 0) = (Err pk_labels_error, mkSess demo_db 1).
Proof.
  assert (Hn : forall i, labels demo_db !! i <> Some "errand").
  { intros i. simpl. rewrite lookup_insert. case_decide; [discriminate|by rewrite lookup_empty]. }
  assert (Hid : is_Some (labels demo_db !! (demo_rng 0 mod u32_max)%Z)) by (eexists; reflexivity).
  split; [exact Hn|]. split; [exact Hid|].
  apply (create_label_id_collision demo_rng (mkSess demo_db 0)); [exact Hn|exact Hid].
Defined.
