(* ===== verification/TodoStore.v ===== *)
(** * TodoStore: the todo handlers of [main.py]

    [create_todo], [update_todo] and [list_todos] are the handlers of
    [POST /todos], [PATCH /todos/{id}] and [GET /todos]; [todo_to_out]
    builds the response from the committed, refreshed row.  The handlers
    are written against the class [LabelResolver] for the label loop and
    take the section's [rng] for the todo's own [random_id()].

    [todo.labels = new_labels] is SQLAlchemy's collection replacement: it
    deletes the association rows of the labels no longer listed and inserts
    one row for each listed label that was not attached before, duplicates
    included ([replace_labels]).  A new todo's rows are all inserted.

    [created_at] and [updated_at] are the server's [now()] when the row is
    inserted, passed to the handler as [now].

    Theorems: the success specifications [created] and [updated], the
    error contracts ([create_todo_err], [update_todo_err]), the equivalence
    of the collection replacement with delete-then-insert, and the
    filters and order of [list_todos]. *)

From S2P Require Import Prelude Text Schemas Models LabelStore.

Open Scope string_scope.

(** [TodoOut]. *)
Record TodoOut := mkTodoOut {
  out_id : Z;
  out_title : string;
  out_done : bool;
  out_due_date : option Z;
  out_labels : list string;
  out_created_at : Z;
  out_updated_at : Z
}.

(** [todo_to_out(todo)] after [db.refresh(todo)]. *)
Definition todo_to_out (db : DB) (tid : Z) (row : TodoRow) : TodoOut :=
  mkTodoOut tid (todo_title row) (todo_done row) (todo_due_date row)
    (label_name <$> labels_of db tid) (todo_created_at row) (todo_updated_at row).

(** SQLAlchemy's history of [todo.labels = new]: the added and the
    deleted members. *)
Definition collection_added (old new : list Z) : list Z := filter (fun l => l ∉ old) new.
Definition collection_deleted (old new : list Z) : list Z := filter (fun l => l ∉ new) old.

Definition replace_labels (tid : Z) (old new : list Z) (db : DB) : result DB :=
  insert_todo_labels tid (collection_added old new)
    (delete_todo_labels tid (collection_deleted old new) db).

(** The row after the [if payload.x is not None] assignments. *)
Definition apply_update (p : TodoUpdate.t) (row : TodoRow) : TodoRow :=
  let title := match TodoUpdate.title p with Some t => t | None => todo_title row end in
  let due := match TodoUpdate.due_date p with Some d => Some d | None => todo_due_date row end in
  let done := match TodoUpdate.done p with Some d => d | None => todo_done row end in
  mkTodoRow title done due (todo_created_at row) (todo_updated_at row).

(** ** The filters and the order of [list_todos] *)

Definition todo_matches (db : DB) (done : option bool) (label : option string)
    (due_before due_after : option Z) (tid : Z) (row : TodoRow) : bool :=
  match done with Some d => Bool.eqb (todo_done row) d | None => true end &&
  match label with
  | Some l =>
      if String.eqb l "" then true
      else existsb (fun lb => String.eqb (label_name lb) (py_lower l)) (labels_of db tid)
  | None => true
  end &&
  match due_before with
  | Some b => match todo_due_date row with Some d => Z.leb d b | None => false end
  | None => true
  end &&
  match due_after with
  | Some a => match todo_due_date row with Some d => Z.leb a d | None => false end
  | None => true
  end.

(** [order_by(Todo.created_at.desc())]. *)
Definition created_desc (x y : Z * TodoRow) : Prop :=
  (todo_created_at y.2 <= todo_created_at x.2)%Z.

#[export] Instance created_desc_dec : RelDecision created_desc.
Proof. intros x y. unfold created_desc. apply _. Defined.

#[export] Instance created_desc_total : Total created_desc.
Proof. intros x y. unfold created_desc. lia. Qed.

#[export] Instance created_desc_trans : Transitive created_desc.
Proof. intros x y z. unfold created_desc. lia. Qed.

Definition list_todos_query (done : option bool) (label : option string)
    (due_before due_after : option Z) (db : DB) : list (Z * TodoRow) :=
  merge_sort created_desc
    (filter (fun tr : Z * TodoRow => todo_matches db done label due_before due_after tr.1 tr.2 = true)
       (map_to_list (todos db))).

Section Handlers.

Context (rng : nat -> Z) `{!LabelResolver}.

(** [create_todo]. *)
Definition create_todo (now : Z) (p : TodoCreate.t) : M TodoOut :=
  lbls <- resolve (default [] (TodoCreate.labels p)) ;;
  tid <- random_id rng ;;
  let row := mkTodoRow (TodoCreate.title p) false (TodoCreate.due_date p) now now in
  write (insert_todo tid row) ;;;
  write (insert_todo_labels tid (label_id <$> lbls)) ;;;
  db <- read id ;;
  ret (todo_to_out db tid row).

(** [list_todos]. *)
Definition list_todos (done : option bool) (label : option string)
    (due_before due_after : option Z) : M (list TodoOut) :=
  read (fun db =>
    (fun tr : Z * TodoRow => todo_to_out db tr.1 tr.2) <$>
      list_todos_query done label due_before due_after db).

(** [if payload.labels is not None:] the loop, then
    [todo.labels = new_labels], flushed at the commit. *)
Definition labels_phase (tid : Z) (old : list Z) (lp : option (list string)) : M unit :=
  match lp with
  | None => ret tt
  | Some names =>
      new_labels <- resolve names ;;
      write (replace_labels tid old (label_id <$> new_labels))
  end.

(** [update_todo]; [db.query(Todo).get(todo_id)] binds the id as an
    SQLite integer first. *)
Definition update_todo (todo_id : Z) (p : TodoUpdate.t) : M TodoOut :=
  if negb (fits_sqlite_int todo_id) then raise OverflowError else
  found <- read (fun db => todos db !! todo_id) ;;
  match found with
  | None => raise (NotFound todo_id)
  | Some row =>
      old <- read (fun db => label_id <$> labels_of db todo_id) ;;
      let row' := apply_update p row in
      labels_phase todo_id old (TodoUpdate.labels p) ;;;
      write (fun db => Ok (set_todos (<[todo_id := row']> (todos db)) db)) ;;;
      db <- read id ;;
      ret (todo_to_out db todo_id row')
  end.

End Handlers.

(** ** update_todo: the error paths *)

(** C30 An id that does not fit SQLite's 64-bit [INTEGER] makes
    [PATCH /todos/{id}] fail with [OverflowError] (HTTP 500) before any
    lookup, where the spec promises [NotFound]. *)
Theorem update_todo_overflow `{!LabelResolver} (todo_id : Z) (p : TodoUpdate.t) (s : Sess) :
  fits_sqlite_int todo_id = false ->
  update_todo todo_id p s = (Err OverflowError, s).
Proof. intros Hf. unfold update_todo. by rewrite Hf. Qed.

(** C29 [PATCH /todos/{id}] of an id that fits but names no todo fails
    with [NotFound] and changes nothing. *)
Theorem update_todo_not_found `{!LabelResolver} (todo_id : Z) (p : TodoUpdate.t) (s : Sess) :
  fits_sqlite_int todo_id = true -> todos (s_db s) !! todo_id = None ->
  update_todo todo_id p s = (Err (NotFound todo_id), s).
Proof. intros Hf Hn. unfold update_todo, bind, read, raise. rewrite Hf. simpl. by rewrite Hn. Qed.

(** ** Replacing a todo's label collection *)

Lemma elem_of_collection_added old new l :
  l ∈ collection_added old new <-> l ∈ new /\ l ∉ old.
Proof. unfold collection_added. rewrite list_elem_of_filter. tauto. Qed.

Lemma elem_of_collection_deleted old new l :
  l ∈ collection_deleted old new <-> l ∈ old /\ l ∉ new.
Proof. unfold collection_deleted. rewrite list_elem_of_filter. tauto. Qed.

(** When [old] lists the todo's rows, the replacement leaves exactly the
    rows of [new] for it and the other todos' rows as they were. *)
Lemma replace_labels_Ok tid old new db db' :
  (forall l, (tid, l) ∈ todo_labels db <-> l ∈ old) ->
  replace_labels tid old new db = Ok db' ->
  labels db' = labels db /\ todos db' = todos db /\
  (forall t l, (t, l) ∈ todo_labels db' <-> if decide (t = tid) then l ∈ new else (t, l) ∈ todo_labels db).
Proof.
  intros Hold (_ & _ & ->)%insert_todo_labels_Ok. split; [done|]. split; [done|].
  intros t l. simpl. rewrite elem_of_union, elem_of_list_to_set, list_elem_of_fmap, elem_of_filter.
  setoid_rewrite elem_of_collection_added. case_decide as Ht; [subst t|]; simpl.
  - rewrite Hold. destruct (decide (l ∈ old)), (decide (l ∈ new)); naive_solver.
  - naive_solver.
Qed.

Lemma replace_labels_wf tid old new db db' :
  wf_db db -> is_Some (todos db !! tid) ->
  (forall l, l ∈ new -> is_Some (labels db !! l)) ->
  replace_labels tid old new db = Ok db' -> wf_db db'.
Proof.
  intros Hwf Ht Hl. unfold replace_labels. apply insert_todo_labels_wf.
  - by apply delete_todo_labels_wf.
  - done.
  - intros l Hin. apply Hl. by apply elem_of_collection_added in Hin as [? _].
Qed.

(** C19 SQLAlchemy's diff-based replacement of [todo.labels] is the
    reference "delete all the todo's rows, insert one row per new label"
    whenever it succeeds, and it succeeds exactly when the labels it adds
    (those not attached before) are distinct: a repeated label that was
    already attached goes through, where the reference would fail. *)
Theorem replace_labels_reference (tid : Z) (old new : list Z) (db db' : DB) :
  (forall l, (tid, l) ∈ todo_labels db <-> l ∈ old) ->
  replace_labels tid old new db = Ok db' <->
  NoDup (collection_added old new) /\
  db' = set_todo_labels (filter (fun p : Z * Z => p.1 <> tid) (todo_labels db) ∪
                         list_to_set ((fun l => (tid, l)) <$> new)) db.
Proof.
  intros Hold. unfold replace_labels. rewrite insert_todo_labels_Ok.
  assert (Hrows : list_to_set ((fun l => (tid, l)) <$> collection_added old new) ∪
                    todo_labels (delete_todo_labels tid (collection_deleted old new) db) =@{gset (Z * Z)}
                  filter (fun p : Z * Z => p.1 <> tid) (todo_labels db) ∪
                    list_to_set ((fun l => (tid, l)) <$> new)).
  { apply set_eq. intros [t l]. unfold delete_todo_labels, set_todo_labels. cbn [todo_labels].
    rewrite !elem_of_union, !elem_of_list_to_set, !list_elem_of_fmap, !elem_of_filter.
    setoid_rewrite elem_of_collection_added. simpl.
    destruct (decide (t = tid)) as [->|Ht]; [|naive_solver].
    specialize (Hold l). destruct (decide (l ∈ old)), (decide (l ∈ new)); naive_solver. }
  split.
  - intros (Hnd & _ & ->). split; [done|]. by rewrite Hrows.
  - intros (Hnd & ->). split; [done|]. split; [|by rewrite Hrows].
    intros lid (_ & Hno)%elem_of_collection_added. simpl. rewrite elem_of_filter.
    intros [_ Hin]. by apply Hold in Hin.
Qed.

(** ** create_todo *)

Lemma rows_of_fresh_todo db tid l :
  wf_db db -> todos db !! tid = None -> (tid, l) ∉ todo_labels db.
Proof.
  intros Hwf Hn Hin. destruct (wf_assoc_todo _ Hwf _ Hin) as [? Hs]. simpl in Hs. congruence.
Qed.

Definition new_row (now : Z) (p : TodoCreate.t) : TodoRow :=
  mkTodoRow (TodoCreate.title p) false (TodoCreate.due_date p) now now.

(** What a successful [create_todo] did. *)
Record created (now : Z) (p : TodoCreate.t) (out : TodoOut) (db db' : DB) : Prop := {
  created_wf : wf_db db';
  created_fresh : todos db !! out_id out = None;
  created_todos : todos db' = <[out_id out := new_row now p]> (todos db);
  created_labels_grow : labels db ⊆ labels db';
  created_labels_new : forall i n, labels db' !! i = Some n ->
                       labels db !! i = Some n \/ n ∈ default [] (TodoCreate.labels p);
  created_rows_other : forall t l, t <> out_id out -> (t, l) ∈ todo_labels db' <-> (t, l) ∈ todo_labels db;
  created_out : out = todo_to_out db' (out_id out) (new_row now p);
  created_names : out_labels out ≡ₚ default [] (TodoCreate.labels p);
  created_distinct : NoDup (default [] (TodoCreate.labels p))
}.

Lemma create_todo_spec rng `{!LabelResolver} now p s :
  wf_db (s_db s) -> Forall label_name_ok (default [] (TodoCreate.labels p)) ->
  (1 <= String.length (TodoCreate.title p) <= 200)%nat ->
  wp (create_todo rng now p) (fun out s' => created now p out (s_db s) (s_db s')) s.
Proof.
  intros Hwf Hn Ht. unfold create_todo. wp_step.
  eapply wp_mono; [|by apply resolve_spec]. intros lbls s1 Hr. simpl in Hr |- *.
  wp_step. wp_step. simpl. set (tid := (rng (s_rng s1) mod u32_max)%Z).
  wp_step. apply wp_write. intros db2 H2. simpl in H2.
  pose proof (insert_todo_wf _ _ (new_row now p) _ (resolved_wf _ _ _ _ Hr)
                (mod_u32_in_range _) Ht H2) as Hwf2.
  unfold insert_todo in H2. case_decide as Hfree; [done|]. injection H2 as <-.
  apply eq_None_not_Some in Hfree.
  wp_step. apply wp_write. intros db3 H3. simpl in H3.
  pose proof H3 as H3'. apply insert_todo_labels_Ok in H3' as (Hnd & _ & Hdb3).
  wp_step. wp_step. wp_step. simpl.
  destruct Hr as [Hwf1 Hnames Hst Hgrow Hnew Htodos Hrows].
  rewrite Htodos in Hfree.
  assert (Hwf3 : wf_db db3).
  { eapply insert_todo_labels_wf; [exact Hwf2| | |exact H3].
    - simpl. rewrite lookup_insert_eq. by eexists.
    - intros l (lb & -> & Hin)%list_elem_of_fmap. rewrite Forall_forall in Hst.
      simpl. eexists. by apply Hst. }
  constructor; simpl; try done.
  - subst db3. simpl. by rewrite Htodos.
  - subst db3. simpl. by rewrite Hgrow.
  - subst db3. exact Hnew.
  - intros t l Ht'. subst db3. simpl. rewrite <- Hrows, elem_of_union, elem_of_list_to_set, list_elem_of_fmap.
    naive_solver.
  - rewrite <- Hnames. apply labels_of_perm.
    + intros l. subst db3. simpl. rewrite elem_of_union, elem_of_list_to_set, list_elem_of_fmap.
      split; [intros [(l' & [= <-] & ?)|Hin]; [done|]|intros Hl; left; eauto].
      exfalso. eapply rows_of_fresh_todo; [exact Hwf|exact Hfree|]. by rewrite <- Hrows.
    + done.
    + subst db3. simpl. done.
  - rewrite <- Hnames. apply (stored_ids_NoDup_iff db3); [done| |done].
    subst db3. simpl. done.
Qed.

(** C14 A successful [POST /todos] answers a todo that is not done, has
    the submitted title and [now] as both timestamps, shows exactly the
    submitted label names (in label-id order, so up to a permutation),
    and every one of those names is a stored label afterwards. *)
Theorem create_todo_result (rng : nat -> Z) `{!LabelResolver} (now : Z) (p : TodoCreate.t) (s : Sess) :
  wf_db (s_db s) -> Forall label_name_ok (default [] (TodoCreate.labels p)) ->
  (1 <= String.length (TodoCreate.title p) <= 200)%nat ->
  wp (create_todo rng now p) (fun out s' =>
    out_done out = false /\ out_title out = TodoCreate.title p /\
    out_created_at out = now /\ out_updated_at out = now /\
    out_labels out ≡ₚ default [] (TodoCreate.labels p) /\
    forall n, n ∈ default [] (TodoCreate.labels p) -> exists i, labels (s_db s') !! i = Some n) s.
Proof.
  intros Hwf Hn Ht. eapply wp_mono; [|by apply create_todo_spec].
  intros out s' Hc. pose proof (created_out _ _ _ _ _ Hc) as Hout.
  split_and!; try (rewrite Hout at 1; reflexivity).
  - exact (created_names _ _ _ _ _ Hc).
  - intros n Hin. apply (labels_of_stored _ (out_id out)).
    rewrite <- (created_names _ _ _ _ _ Hc) in Hin. rewrite Hout in Hin at 1. exact Hin.
Qed.

(** C31 The id [POST /todos] answers is a 32-bit unsigned value, so it
    fits SQLite's 64-bit [INTEGER] and a later [PATCH] of it never
    overflows. *)
Theorem create_todo_id_bounds (rng : nat -> Z) `{!LabelResolver} (now : Z) (p : TodoCreate.t) (s : Sess) :
  wf_db (s_db s) -> Forall label_name_ok (default [] (TodoCreate.labels p)) ->
  (1 <= String.length (TodoCreate.title p) <= 200)%nat ->
  wp (create_todo rng now p) (fun out _ =>
    (0 <= out_id out < 2 ^ 32)%Z /\ fits_sqlite_int (out_id out) = true) s.
Proof.
  intros Hwf Hn Ht. eapply wp_mono; [|by apply create_todo_spec]. intros out s' Hc.
  assert (Hin : in_u32 (out_id out)).
  { apply (wf_todo_ids _ (created_wf _ _ _ _ _ Hc) _ (new_row now p)).
    rewrite (created_todos _ _ _ _ _ Hc). apply lookup_insert_eq. }
  split; [exact Hin|]. by apply in_u32_fits_sqlite.
Qed.


(** ** update_todo *)

Lemma labels_phase_spec `{!LabelResolver} tid old lp s :
  wf_db (s_db s) -> is_Some (todos (s_db s) !! tid) -> Forall label_name_ok (default [] lp) ->
  (forall l, (tid, l) ∈ todo_labels (s_db s) <-> l ∈ old) ->
  wp (labels_phase tid old lp) (fun _ s' =>
    wf_db (s_db s') /\ todos (s_db s') = todos (s_db s) /\ labels (s_db s) ⊆ labels (s_db s') /\
    (forall i n, labels (s_db s') !! i = Some n -> labels (s_db s) !! i = Some n \/ n ∈ default [] lp) /\
    (forall t l, t <> tid -> (t, l) ∈ todo_labels (s_db s') <-> (t, l) ∈ todo_labels (s_db s)) /\
    match lp with
    | None => todo_labels (s_db s') = todo_labels (s_db s)
    | Some names => forall n, n ∈ label_name <$> labels_of (s_db s') tid <-> n ∈ names
    end) s.
Proof.
  intros Hwf Ht Hn Hold. destruct lp as [names|]; simpl.
  2: { wp_step. split_and!; try done. intros i n Hi. by left. }
  wp_step. eapply wp_mono; [|by apply resolve_spec]. intros lbls s1 Hr. simpl in Hr.
  destruct Hr as [Hwf1 Hnames Hst Hgrow Hnew Htodos Hrows].
  apply wp_write. intros db2 H2. simpl.
  pose proof H2 as H2'. rewrite <- Hrows in Hold.
  apply replace_labels_Ok in H2' as (Hl2 & Ht2 & Hr2); [|done].
  split_and!.
  - eapply replace_labels_wf; [done|by rewrite Htodos| |exact H2].
    intros l (lb & -> & Hin)%list_elem_of_fmap. rewrite Forall_forall in Hst. eexists. by apply Hst.
  - congruence.
  - by rewrite Hl2.
  - rewrite Hl2. exact Hnew.
  - intros t l Htl. rewrite Hr2, <- Hrows. by rewrite decide_False.
  - intros n. rewrite elem_of_label_names_of, <- Hnames, list_elem_of_fmap.
    assert (Hr2' : forall l, (tid, l) ∈ todo_labels db2 <-> l ∈ label_id <$> lbls)
      by (intros l; rewrite Hr2; by rewrite decide_True).
    setoid_rewrite Hr2'. rewrite Hl2. split.
    + intros (lid & (lb & -> & Hin)%list_elem_of_fmap & Hl).
      rewrite Forall_forall in Hst. rewrite (Hst lb Hin) in Hl. injection Hl as <-. eauto.
    + intros (lb & -> & Hin). exists (label_id lb). split; [by apply list_elem_of_fmap_2|].
      rewrite Forall_forall in Hst. by apply Hst.
Qed.

(** What a successful [update_todo] did. *)
Record updated (p : TodoUpdate.t) (tid : Z) (row : TodoRow) (out : TodoOut) (db db' : DB) : Prop := {
  updated_wf : wf_db db';
  updated_todos : todos db' = <[tid := apply_update p row]> (todos db);
  updated_labels_grow : labels db ⊆ labels db';
  updated_labels_new : forall i n, labels db' !! i = Some n ->
                       labels db !! i = Some n \/ n ∈ default [] (TodoUpdate.labels p);
  updated_rows_other : forall t l, t <> tid -> (t, l) ∈ todo_labels db' <-> (t, l) ∈ todo_labels db;
  updated_out : out = todo_to_out db' tid (apply_update p row);
  updated_names : forall names, TodoUpdate.labels p = Some names ->
                  forall n, n ∈ out_labels out <-> n ∈ names;
  updated_rows : TodoUpdate.labels p = None -> todo_labels db' = todo_labels db
}.

Lemma update_todo_spec `{!LabelResolver} tid p s row :
  wf_db (s_db s) -> todos (s_db s) !! tid = Some row ->
  Forall label_name_ok (default [] (TodoUpdate.labels p)) ->
  (forall t, TodoUpdate.title p = Some t -> (1 <= String.length t <= 200)%nat) ->
  wp (update_todo tid p) (fun out s' => updated p tid row out (s_db s) (s_db s')) s.
Proof.
  intros Hwf Hrow Hn Hti. unfold update_todo.
  rewrite in_u32_fits_sqlite by (by apply (wf_todo_ids _ Hwf tid row)). simpl.
  wp_step. wp_step. simpl. rewrite Hrow. wp_step. wp_step. simpl. wp_step.
  eapply wp_mono; [|apply labels_phase_spec; [done|by eexists|done|]].
  2: { intros l. symmetry. by apply elem_of_label_ids_labels_of. }
  intros [] s1 (Hwf1 & Ht1 & Hg1 & Hnew1 & Hoth1 & Hph). simpl.
  wp_step. apply wp_write. intros db2 [= <-]. wp_step. wp_step. wp_step. simpl.
  assert (Htitle : (1 <= String.length (todo_title (apply_update p row)) <= 200)%nat).
  { unfold apply_update. simpl. destruct (TodoUpdate.title p) eqn:E; [by apply Hti|].
    by apply (wf_titles _ Hwf tid row). }
  constructor; simpl.
  - apply update_row_wf; [done| |done]. rewrite Ht1. by eexists.
  - by rewrite Ht1.
  - done.
  - done.
  - done.
  - done.
  - intros names Hp. rewrite Hp in Hph. exact Hph.
  - intros Hp. rewrite Hp in Hph. exact Hph.
Qed.

(** A successful [PATCH] found its row first. *)
Lemma update_todo_spec_found `{!LabelResolver} tid p s :
  wf_db (s_db s) -> Forall label_name_ok (default [] (TodoUpdate.labels p)) ->
  (forall t, TodoUpdate.title p = Some t -> (1 <= String.length t <= 200)%nat) ->
  wp (update_todo tid p) (fun out s' =>
    exists row, todos (s_db s) !! tid = Some row /\ updated p tid row out (s_db s) (s_db s')) s.
Proof.
  intros Hwf Hn Hti. destruct (todos (s_db s) !! tid) as [row|] eqn:Er.
  - eapply wp_mono; [|by apply update_todo_spec]. eauto.
  - unfold update_todo. destruct (negb (fits_sqlite_int tid)); [apply wp_raise|].
    wp_step. wp_step. simpl. rewrite Er. apply wp_raise.
Qed.

(** C18 A successful [PATCH /todos/{id}] overwrites exactly the fields
    present in the payload, keeps [created_at], and does not refresh
    [updated_at] (the spec flags this as a likely bug); the answer shows
    the stored row. *)
Theorem update_todo_fields `{!LabelResolver} (tid : Z) (p : TodoUpdate.t) (s : Sess) (row : TodoRow) :
  wf_db (s_db s) -> todos (s_db s) !! tid = Some row ->
  Forall label_name_ok (default [] (TodoUpdate.labels p)) ->
  (forall t, TodoUpdate.title p = Some t -> (1 <= String.length t <= 200)%nat) ->
  wp (update_todo tid p) (fun out s' =>
    out_id out = tid /\
    out_title out = default (todo_title row) (TodoUpdate.title p) /\
    out_done out = default (todo_done row) (TodoUpdate.done p) /\
    out_due_date out = (if TodoUpdate.due_date p is Some d then Some d else todo_due_date row) /\
    out_created_at out = todo_created_at row /\
    out_updated_at out = todo_updated_at row /\
    todos (s_db s') !! tid = Some (apply_update p row)) s.
Proof.
  intros Hwf Hrow Hn Hti. eapply wp_mono; [|by apply update_todo_spec].
  intros out s' Hu. rewrite (updated_out _ _ _ _ _ _ Hu), (updated_todos _ _ _ _ _ _ Hu).
  simpl. rewrite lookup_insert_eq.
  destruct (TodoUpdate.title p), (TodoUpdate.done p), (TodoUpdate.due_date p); done.
Qed.

(** C15 A [PATCH] carrying [labels] replaces the todo's whole label set:
    afterwards it shows each submitted name once and no other, and every
    label that existed before still exists. *)
Theorem update_todo_replaces_labels `{!LabelResolver} (tid : Z) (p : TodoUpdate.t) (s : Sess)
    (row : TodoRow) (names : list string) :
  wf_db (s_db s) -> todos (s_db s) !! tid = Some row ->
  TodoUpdate.labels p = Some names -> Forall label_name_ok names ->
  (forall t, TodoUpdate.title p = Some t -> (1 <= String.length t <= 200)%nat) ->
  wp (update_todo tid p) (fun out s' =>
    (forall n, n ∈ out_labels out <-> n ∈ names) /\ NoDup (out_labels out) /\
    labels (s_db s) ⊆ labels (s_db s')) s.
Proof.
  intros Hwf Hrow Hp Hn Hti. eapply wp_mono; [|apply update_todo_spec; try done; by rewrite Hp].
  intros out s' Hu. split_and!.
  - by apply (updated_names _ _ _ _ _ _ Hu).
  - rewrite (updated_out _ _ _ _ _ _ Hu). apply labels_of_names_NoDup, (updated_wf _ _ _ _ _ _ Hu).
  - apply (updated_labels_grow _ _ _ _ _ _ Hu).
Qed.

(** ** list_todos *)

Lemma done_filter_spec (done : option bool) row :
  (match done with Some d => Bool.eqb (todo_done row) d | None => true end) = true <->
  (forall d, done = Some d -> todo_done row = d).
Proof. destruct done as [d|]; [|naive_solver]. rewrite Bool.eqb_true_iff. naive_solver. Qed.

Lemma label_filter_spec db (label : option string) tid :
  (match label with
   | Some l =>
       if String.eqb l "" then true
       else existsb (fun lb => String.eqb (label_name lb) (py_lower l)) (labels_of db tid)
   | None => true
   end) = true <->
  (forall l, label = Some l -> l <> "" ->
     exists lid, (tid, lid) ∈ todo_labels db /\ labels db !! lid = Some (py_lower l)).
Proof.
  destruct label as [l|]; [|naive_solver].
  destruct (String.eqb_spec l ""); [naive_solver|].
  rewrite existsb_exists. setoid_rewrite String.eqb_eq. split.
  - intros (lb & Hin & Hn) l' [= <-] _. apply list_elem_of_In, elem_of_labels_of in Hin.
    exists (label_id lb). rewrite <- Hn. apply Hin.
  - intros H. destruct (H l eq_refl) as (lid & Hin & Hl); [done|].
    exists (mkLabel lid (py_lower l)). split; [|done].
    apply list_elem_of_In, elem_of_labels_of. done.
Qed.

Lemma bound_filter_spec (bound : option Z) (due : option Z) (le : Z -> Z -> Prop) (leb : Z -> Z -> bool) :
  (forall x y, leb x y = true <-> le x y) ->
  (match bound with
   | Some b => match due with Some d => leb d b | None => false end
   | None => true
   end) = true <->
  (forall b, bound = Some b -> exists d, due = Some d /\ le d b).
Proof.
  intros Hle. destruct bound as [b|]; [|naive_solver].
  destruct due as [d|]; [rewrite Hle; naive_solver|naive_solver].
Qed.

(** The filters of [GET /todos] are the conjunction the spec
    describes: [done] by equality, [label] by an attached label whose name
    is the lowercased query (an empty query is no filter), and the due-date
    bounds inclusive, a todo without a due date failing any bound. *)
Theorem todo_matches_spec (db : DB) (done : option bool) (label : option string)
    (due_before due_after : option Z) (tid : Z) (row : TodoRow) :
  todo_matches db done label due_before due_after tid row = true <->
  (forall d, done = Some d -> todo_done row = d) /\
  (forall l, label = Some l -> l <> "" ->
     exists lid, (tid, lid) ∈ todo_labels db /\ labels db !! lid = Some (py_lower l)) /\
  (forall b, due_before = Some b -> exists d, todo_due_date row = Some d /\ (d <= b)%Z) /\
  (forall a, due_after = Some a -> exists d, todo_due_date row = Some d /\ (a <= d)%Z).
Proof.
  unfold todo_matches. rewrite !andb_true_iff, done_filter_spec, label_filter_spec.
  rewrite (bound_filter_spec due_before _ (fun d b => (d <= b)%Z) Z.leb) by (intros; apply Z.leb_le).
  rewrite (bound_filter_spec due_after _ (fun d a => (a <= d)%Z) (fun d a => Z.leb a d))
    by (intros; apply Z.leb_le).
  tauto.
Qed.

Lemma list_todos_query_NoDup done label due_before due_after db :
  NoDup (fst <$> list_todos_query done label due_before due_after db).
Proof.
  unfold list_todos_query. rewrite (merge_sort_Permutation created_desc).
  apply NoDup_fmap_filter, NoDup_fst_map_to_list.
Qed.

Lemma elem_of_list_todos_query done label due_before due_after db tid row :
  (tid, row) ∈ list_todos_query done label due_before due_after db <->
  todos db !! tid = Some row /\ todo_matches db done label due_before due_after tid row = true.
Proof.
  unfold list_todos_query.
  rewrite (merge_sort_Permutation created_desc), list_elem_of_filter, elem_of_map_to_list.
  simpl. tauto.
Qed.


(** ** The errors of the todo handlers *)

Section Errors.

Context (rng : nat -> Z) `{!LabelResolver}.

Lemma create_todo_err now p s : wpe (create_todo rng now p) is_integrity s.
Proof.
  unfold create_todo. wpe_step; [apply resolve_err|]. repeat wpe_step; eauto with api.
Qed.

Lemma labels_phase_err tid old lp s : wpe (labels_phase tid old lp) is_integrity s.
Proof.
  destruct lp as [names|]; simpl; [|wpe_step].
  wpe_step; [apply resolve_err|]. repeat wpe_step. unfold replace_labels. eauto with api.
Qed.

(** [PATCH] fails with [OverflowError] only for an id out of range, with
    [NotFound] only for an id that is not stored, and otherwise only on a
    database constraint. *)
Lemma update_todo_err tid p s :
  wpe (update_todo tid p) (fun e =>
    (e = OverflowError /\ fits_sqlite_int tid = false) \/
    (e = NotFound tid /\ todos (s_db s) !! tid = None) \/ is_integrity e) s.
Proof.
  unfold update_todo. destruct (fits_sqlite_int tid) eqn:Ef; simpl; [|wpe_step; by left].
  wpe_step; [wpe_step|]. apply wp_read. cbv beta.
  destruct (todos (s_db s) !! tid) eqn:Er; [|wpe_step; right; by left].
  repeat wpe_step; try discriminate.
  eapply wpe_mono; [|apply labels_phase_err]. intros e He. by right; right.
Qed.

End Errors.

(** ** Progress of create_todo *)

(** With the label loop of [main.py] and enough fresh random ids (one
    per label name and one for the todo), [create_todo] on distinct,
    validated names succeeds. *)
Lemma create_todo_live rng now p s :
  wf_db (s_db s) -> Forall label_name_ok (default [] (TodoCreate.labels p)) ->
  NoDup (default [] (TodoCreate.labels p)) ->
  (1 <= String.length (TodoCreate.title p) <= 200)%nat ->
  fresh_ids rng (s_rng s) (S (List.length (default [] (TodoCreate.labels p)))) (s_db s) ->
  wpt (@create_todo rng (resolve_labels_resolver rng) now p) (fun _ _ => True) s.
Proof.
  intros Hwf Hn Hnd Ht Hf. unfold create_todo. apply wpt_bind.
  eapply wpt_mono; [|apply wpt_wp; [apply (resolve_labels_live rng _ s 1)|by apply resolve_labels_spec]];
    [|by rewrite Nat.add_1_r].
  intros lbls s1 [Hf1 Hr]. destruct (proj1 Hf1 (s_rng s1) ltac:(lia)) as [_ Htid].
  apply wpt_bind, wpt_random_id. apply wpt_bind. eapply wpt_write.
  { unfold insert_todo. simpl. rewrite Htid. reflexivity. }
  apply wpt_bind. eapply wpt_write.
  { apply insert_todo_labels_Ok. split; [|split; [|reflexivity]].
    - apply (stored_ids_NoDup_iff (s_db s1)); [apply Hr|apply Hr|].
      by rewrite (resolved_names _ _ _ _ Hr).
    - intros lid _. simpl. apply rows_of_fresh_todo; [apply Hr|exact Htid]. }
  apply wpt_bind, wpt_read. by apply wpt_ret.
Qed.

(** ** The todo handlers keep the invariant *)

Lemma create_todo_wf rng `{!LabelResolver} now p s :
  wf_db (s_db s) -> Forall label_name_ok (default [] (TodoCreate.labels p)) ->
  (1 <= String.length (TodoCreate.title p) <= 200)%nat ->
  wp (create_todo rng now p) (fun _ s' => wf_db (s_db s')) s.
Proof.
  intros. eapply wp_mono; [|by apply create_todo_spec]. intros out s' Hc. apply Hc.
Qed.

Lemma update_todo_wf `{!LabelResolver} tid p s :
  wf_db (s_db s) -> Forall label_name_ok (default [] (TodoUpdate.labels p)) ->
  (forall t, TodoUpdate.title p = Some t -> (1 <= String.length t <= 200)%nat) ->
  wp (update_todo tid p) (fun _ s' => wf_db (s_db s')) s.
Proof.
  intros Hwf Hn Ht. destruct (todos (s_db s) !! tid) as [row|] eqn:Hrow.
  - eapply wp_mono; [|by apply update_todo_spec]. intros out s' Hu. apply Hu.
  - unfold wp, update_todo, bind, read, raise. destruct (fits_sqlite_int tid); simpl; [|done].
    by rewrite Hrow.
Qed.

(** ** Concrete runs: the todo "Buy milk" with the label "errand" *)

#[local] Instance demo_resolver : LabelResolver := resolve_labels_resolver demo_rng.

Definition demo_create : TodoCreate.t := TodoCreate.mk "Buy milk" None (Some ["errand"]).
Definition demo_start : Sess := mkSess empty_db 0.
Definition demo_sess : Sess := snd (create_todo demo_rng 100 demo_create demo_start).
Definition demo_row : TodoRow := mkTodoRow "Buy milk" false None 100 100.
Definition demo_patch : TodoUpdate.t := TodoUpdate.mk None None (Some ["later"]) (Some true).

Lemma demo_create_run :
  create_todo demo_rng 100 demo_create demo_start =
  (Ok (mkTodoOut 10 "Buy milk" false None ["errand"] 100 100), demo_sess).
Proof. vm_compute. reflexivity. Qed.

Lemma demo_sess_wf : wf_db (s_db demo_sess).
Proof.
  assert (Hn : Forall label_name_ok (default [] (TodoCreate.labels demo_create)))
    by solve_names_ok.
  assert (Ht : (1 <= String.length (TodoCreate.title demo_create) <= 200)%nat) by (simpl; lia).
  exact (wp_run _ _ _ _ _ (create_todo_wf demo_rng 100 demo_create demo_start wf_empty_db Hn Ht)
           demo_create_run).
Qed.

Lemma create_todo_result_witness :
  wf_db (s_db demo_start) /\ Forall label_name_ok (default [] (TodoCreate.labels demo_create)) /\
  (1 <= String.length (TodoCreate.title demo_create) <= 200)%nat /\
  create_todo demo_rng 100 demo_create demo_start =
    (Ok (mkTodoOut 10 "Buy milk" false None ["errand"] 100 100), demo_sess) /\
  wp (create_todo demo_rng 100 demo_create) (fun out s' =>
    out_done out = false /\ out_title out = TodoCreate.title demo_create /\
    out_created_at out = 100%Z /\ out_updated_at out = 100%Z /\
    out_labels out ≡ₚ default [] (TodoCreate.labels demo_create) /\
    forall n, n ∈ default [] (TodoCreate.labels demo_create) ->
      exists i, labels (s_db s') !! i = Some n) demo_start.
Proof.
  assert (Hwf : wf_db (s_db demo_start)) by apply wf_empty_db.
  assert (Hn : Forall label_name_ok (default [] (TodoCreate.labels demo_create)))
    by solve_names_ok.
  assert (Ht : (1 <= String.length (TodoCreate.title demo_create) <= 200)%nat) by (simpl; lia).
  split; [exact Hwf|]. split; [exact Hn|]. split; [exact Ht|]. split; [exact demo_create_run|].
  exact (create_todo_result demo_rng 100 demo_create demo_start Hwf Hn Ht).
Defined.


Lemma demo_sess_row : todos (s_db demo_sess) !! 10%Z = Some demo_row.
Proof. vm_compute. reflexivity. Qed.

Lemma update_todo_replaces_labels_witness :
  wf_db (s_db demo_sess) /\ todos (s_db demo_sess) !! 10%Z = Some demo_row /\
  TodoUpdate.labels demo_patch = Some ["later"] /\ Forall label_name_ok ["later"] /\
  fst (update_todo 10 demo_patch demo_sess) = Ok (mkTodoOut 10 "Buy milk" true None ["later"] 100 100) /\
  wp (update_todo 10 demo_patch) (fun out s' =>
    (forall n, n ∈ out_labels out <-> n ∈ ["later"]) /\ NoDup (out_labels out) /\
    labels (s_db demo_sess) ⊆ labels (s_db s')) demo_sess.
Proof.
  assert (Hn : Forall label_name_ok ["later"]) by solve_names_ok.
  split; [exact demo_sess_wf|]. split; [exact demo_sess_row|]. split; [reflexivity|].
  split; [exact Hn|]. split; [vm_compute; reflexivity|].
  exact (update_todo_replaces_labels 10 demo_patch demo_sess demo_row ["later"]
           demo_sess_wf demo_sess_row eq_refl Hn (fun t Ht => ltac:(discriminate))).
Defined.

Lemma update_todo_fields_witness :
  wf_db (s_db demo_sess) /\ todos (s_db demo_sess) !! 10%Z = Some demo_row /\
  Forall label_name_ok (default [] (TodoUpdate.labels demo_patch)) /\
  fst (update_todo 10 demo_patch demo_sess) = Ok (mkTodoOut 10 "Buy milk" true None ["later"] 100 100) /\
  wp (update_todo 10 demo_patch) (fun out s' =>
    out_id out = 10%Z /\
    out_title out = default (todo_title demo_row) (TodoUpdate.title demo_patch) /\
    out_done out = default (todo_done demo_row) (TodoUpdate.done demo_patch) /\
    out_due_date out = (if TodoUpdate.due_date demo_patch is Some d then Some d else todo_due_date demo_row) /\
    out_created_at out = todo_created_at demo_row /\
    out_updated_at out = todo_updated_at demo_row /\
    todos (s_db s') !! 10%Z = Some (apply_update demo_patch demo_row)) demo_sess.
Proof.
  assert (Hn : Forall label_name_ok (default [] (TodoUpdate.labels demo_patch)))
    by solve_names_ok.
  split; [exact demo_sess_wf|]. split; [exact demo_sess_row|]. split; [exact Hn|].
  split; [vm_compute; reflexivity|].
  exact (update_todo_fields 10 demo_patch demo_sess demo_row demo_sess_wf demo_sess_row Hn
           (fun t Ht => ltac:(discriminate))).
Defined.

Lemma update_todo_not_found_witness :
  fits_sqlite_int 999999999 = true /\ todos (s_db demo_sess) !! 999999999%Z = None /\
  update_todo 999999999 demo_patch demo_sess = (Err (NotFound 999999999), demo_sess).
Proof.
  assert (Hf : fits_sqlite_int 999999999 = true) by reflexivity.
  assert (Hn : todos (s_db demo_sess) !! 999999999%Z = None) by (vm_compute; reflexivity).
  split; [exact Hf|]. split; [exact Hn|].
  exact (update_todo_not_found 999999999 demo_patch demo_sess Hf Hn).
Defined.

Lemma update_todo_overflow_witness :
  fits_sqlite_int (2 ^ 64) = false /\
  update_todo (2 ^ 64) demo_patch demo_sess = (Err OverflowError, demo_sess).
Proof.
  assert (Hf : fits_sqlite_int (2 ^ 64) = false) by reflexivity.
  split; [exact Hf|]. exact (update_todo_overflow (2 ^ 64) demo_patch demo_sess Hf).
Defined.

Definition demo_rows_db : DB := set_todo_labels {[(10%Z, 3%Z)]} empty_db.

Lemma replace_labels_reference_witness :
  (forall l, (10%Z, l) ∈ todo_labels demo_rows_db <-> l ∈ [3%Z]) /\
  replace_labels 10 [3%Z] [3; 3; 5]%Z demo_rows_db =
    Ok (set_todo_labels (filter (fun p : Z * Z => p.1 <> 10%Z) (todo_labels demo_rows_db) ∪
                         list_to_set ((fun l => (10%Z, l)) <$> [3; 3; 5]%Z)) demo_rows_db).
Proof.
  assert (H : forall l, (10%Z, l) ∈ todo_labels demo_rows_db <-> l ∈ [3%Z]).
  { intros l. simpl. rewrite elem_of_singleton, list_elem_of_singleton.
    split; [by intros [= ->]|by intros ->]. }
  split; [exact H|]. apply (replace_labels_reference 10 [3%Z] [3; 3; 5]%Z demo_rows_db _ H).
  split; [|reflexivity]. vm_compute. apply NoDup_singleton.
Defined.

Lemma create_todo_id_bounds_witness :
  wf_db (s_db demo_start) /\ Forall label_name_ok (default [] (TodoCreate.labels demo_create)) /\
  (1 <= String.length (TodoCreate.title demo_create) <= 200)%nat /\
  wp (create_todo demo_rng 100 demo_create) (fun out _ =>
    (0 <= out_id out < 2 ^ 32)%Z /\ fits_sqlite_int (out_id out) = true) demo_start.
Proof.
  assert (Hwf : wf_db (s_db demo_start)) by apply wf_empty_db.
  assert (Hn : Forall label_name_ok (default [] (TodoCreate.labels demo_create)))
    by solve_names_ok.
  assert (Ht : (1 <= String.length (TodoCreate.title demo_create) <= 200)%nat) by (simpl; lia).
  split; [exact Hwf|]. split; [exact Hn|]. split; [exact Ht|].
  exact (create_todo_id_bounds demo_rng 100 demo_create demo_start Hwf Hn Ht).
Defined.
