(* ===== verification/Concurrency.v ===== *)
(** * Concurrency: concurrent [POST /labels] and [POST /todos] requests

    FastAPI runs the handlers of concurrent requests in a thread pool, each
    with its own [Session] on the one SQLite file [db.db].  A request in
    flight is modelled by the statement it runs next ([pc]) and by the
    transaction it holds ([r_tx]):

    - [create_label] runs the [SELECT] of
      [db.query(Label).filter(Label.name == name).first()], draws
      [random_id()], and runs the [INSERT] of the new label, committed at
      once by [db.commit()];
    - [create_todo] runs, for each label name, the [SELECT], and for a
      name not found the draw and the [db.flush()] of the new label; then
      it draws the todo's id and [db.commit()] flushes the [INSERT] of the
      todo and of its [todo_labels] rows and commits.

    Python's [sqlite3] opens a transaction just before the first write
    statement, and SQLite lets one connection at a time hold the write
    lock, from its first write to its commit or rollback.  So a request
    that has flushed a label holds the lock and reads its own writes
    ([r_tx = Some v]); every other request reads the committed database
    ([c_db]) and cannot write until the lock is released: its write step
    is not enabled ([may_write]).  A failing write rolls the transaction
    back ([get_db]'s rollback) and answers the error.  [random] is one
    generator for the whole process, so the position of the generator is
    part of the configuration.

    [cstep] runs the next statement of any one request; [run_schedule]
    runs the requests in a given order.

    Theorems: run alone, a request does what the sequential handler does
    ([run_alone]); and there are interleavings in which two requests for
    one new label name both pass the check, so that the loser fails on
    the [UNIQUE] constraint of [labels.name] (HTTP 500), for two
    [POST /labels] as for two [POST /todos].  The invariant, safety,
    deadlock freedom and termination of the interleaved system are in
    [WriteLock]. *)

From S2P Require Import Prelude Text Schemas Models LabelStore TodoStore.

Open Scope string_scope.

(** ** Requests in flight *)

(** The next statement of a request. *)
Inductive pc :=
(** [create_label] *)
| LQuery (name : string)
| LDraw (name : string)
| LInsert (l : Label)
| LAnswered (r : result Label)
(** [create_todo]: the label loop over [names], with the labels [acc]
    collected so far, then the todo *)
| TSelect (p : TodoCreate.t) (names : list string) (acc : list Label)
| TDraw (p : TodoCreate.t) (name : string) (names : list string) (acc : list Label)
| TFlush (p : TodoCreate.t) (l : Label) (names : list string) (acc : list Label)
| TNew (p : TodoCreate.t) (acc : list Label)
| TCommit (p : TodoCreate.t) (acc : list Label) (tid : Z)
| TAnswered (r : result TodoOut).

(** A request: its next statement and the transaction it has open, when
    it holds the write lock. *)
Record req := mkReq {
  r_pc : pc;
  r_tx : option DB
}.

Record Conf := mkConf {
  c_db : DB;
  c_rng : nat;
  c_reqs : list req
}.

Definition label_request (name : string) : req := mkReq (LQuery name) None.

Definition todo_request (p : TodoCreate.t) : req :=
  mkReq (TSelect p (default [] (TodoCreate.labels p)) []) None.

Definition is_answered (c : pc) : bool :=
  match c with LAnswered _ | TAnswered _ => true | _ => false end.

(** What a request reads: its own transaction, or the committed database. *)
Definition view (db : DB) (r : req) : DB := default db (r_tx r).

(** The request holding SQLite's write lock. *)
Definition lock_holder (rs : list req) : option nat :=
  fst <$> list_find (fun r => is_Some (r_tx r)) rs.

(** Request [i] may write when no other request holds the lock. *)
Definition may_write (rs : list req) (i : nat) : bool :=
  match lock_holder rs with
  | Some j => bool_decide (i = j)
  | None => true
  end.

Section Interleaving.

Context (rng : nat -> Z) (now : Z).

(** [random_id()] at position [k] of the generator. *)
Definition draw (k : nat) : Z := (rng k mod u32_max)%Z.

(** One statement of [create_label] on the committed database [db]; [w]
    tells whether it may write. *)
Definition label_step (db : DB) (k : nat) (w : bool) (c : pc) : option (DB * nat * pc) :=
  match c with
  | LQuery name =>
      Some (db, k, match find_label_by_name db name with
                   | Some _ => LAnswered (Err (Conflict name))
                   | None => LDraw name
                   end)
  | LDraw name => Some (db, S k, LInsert (mkLabel (draw k) name))
  | LInsert l =>
      if w then
        match insert_label l db with
        | Ok db' => Some (db', k, LAnswered (Ok l))
        | Err e => Some (db, k, LAnswered (Err e))
        end
      else None
  | _ => None
  end.

(** One statement of [create_todo]: [db] is the committed database, [v]
    what the request reads and [tx] its open transaction.  The result is
    the committed database, the generator and the request. *)
Definition todo_step (db v : DB) (tx : option DB) (k : nat) (w : bool) (c : pc)
    : option (DB * nat * req) :=
  match c with
  | TSelect p [] acc => Some (db, k, mkReq (TNew p acc) tx)
  | TSelect p (name :: names) acc =>
      Some (db, k, mkReq (match find_label_by_name v name with
                          | Some l => TSelect p names (acc ++ [l])
                          | None => TDraw p name names acc
                          end) tx)
  | TDraw p name names acc => Some (db, S k, mkReq (TFlush p (mkLabel (draw k) name) names acc) tx)
  | TFlush p l names acc =>
      if w then
        match insert_label l v with
        | Ok v' => Some (db, k, mkReq (TSelect p names (acc ++ [l])) (Some v'))
        | Err e => Some (db, k, mkReq (TAnswered (Err e)) None)
        end
      else None
  | TNew p acc => Some (db, S k, mkReq (TCommit p acc (draw k)) tx)
  | TCommit p acc tid =>
      if w then
        match (let? v1 := insert_todo tid (new_row now p) v in
               insert_todo_labels tid (label_id <$> acc) v1) with
        | Ok v' => Some (v', k, mkReq (TAnswered (Ok (todo_to_out v' tid (new_row now p)))) None)
        | Err e => Some (db, k, mkReq (TAnswered (Err e)) None)
        end
      else None
  | _ => None
  end.

(** The next statement of a request; a [POST /labels] request never keeps
    a transaction open. *)
Definition req_step (db : DB) (k : nat) (w : bool) (r : req) : option (DB * nat * req) :=
  match r_pc r with
  | LQuery _ | LDraw _ | LInsert _ | LAnswered _ =>
      '(db', k', c') ← label_step db k w (r_pc r);
      Some (db', k', mkReq c' None)
  | _ => todo_step db (view db r) (r_tx r) k w (r_pc r)
  end.

Definition run_thread (c : Conf) (i : nat) : option Conf :=
  r ← c_reqs c !! i;
  '(db', k', r') ← req_step (c_db c) (c_rng c) (may_write (c_reqs c) i) r;
  Some (mkConf db' k' (<[i := r']> (c_reqs c))).

Inductive cstep : Conf -> Conf -> Prop :=
| cstep_run c i c' : run_thread c i = Some c' -> cstep c c'.

(** A schedule: the request whose next statement runs, in order; a
    request that has answered or waits for the lock is skipped. *)
Fixpoint run_schedule (sched : list nat) (c : Conf) : Conf :=
  match sched with
  | [] => c
  | i :: rest => run_schedule rest (default c (run_thread c i))
  end.

End Interleaving.

(** ** Configurations of the theorems *)

(** Requests for the label names [names] and the todos [ps] arrive
    together on the database [db]. *)
Definition conc_start (db : DB) (k : nat) (names : list string) (ps : list TodoCreate.t) : Conf :=
  mkConf db k ((label_request <$> names) ++ (todo_request <$> ps)).

(** The answer of a request, once it has answered: [Ok tt] for a
    successful one, the error otherwise. *)
Definition outcome (r : req) : option (result unit) :=
  match r_pc r with
  | LAnswered (Ok _) | TAnswered (Ok _) => Some (Ok tt)
  | LAnswered (Err e) | TAnswered (Err e) => Some (Err e)
  | _ => None
  end.

Definition two_labels (name : string) : Conf := conc_start empty_db 0 [name; name] [].

Definition errand_todo (title : string) : TodoCreate.t := TodoCreate.mk title None (Some ["errand"]).

Definition two_todos : Conf := conc_start empty_db 0 [] [errand_todo "Buy milk"; errand_todo "Buy bread"].

(** Both requests look ["errand"] up and draw its id; the first flushes
    it, takes the write lock and commits while the second waits. *)
Definition todo_race_schedule : list nat := [0; 1; 0; 1; 0; 1; 0; 0; 0; 1].

Lemma run_schedule_steps rng now sched c : rtc (cstep rng now) c (run_schedule rng now sched c).
Proof.
  revert c. induction sched as [|i rest IH]; intros c; simpl; [done|].
  destruct (run_thread rng now c i) as [c1|] eqn:E; simpl; [|apply IH].
  eapply rtc_l; [by econstructor|apply IH].
Qed.

(** ** Progress *)

Lemma req_step_answered rng now db k w r : is_answered (r_pc r) = true -> req_step rng now db k w r = None.
Proof. by destruct r as [[] tx]. Qed.

(** A configuration in which every request has answered cannot step. *)
Lemma answered_nf rng now c : Forall (fun r => is_answered (r_pc r) = true) (c_reqs c) -> nf (cstep rng now) c.
Proof.
  intros Hall [c' Hs]. inversion Hs as [? i ? Hrun]; subst. unfold run_thread in Hrun.
  destruct (c_reqs c !! i) as [r|] eqn:Hr; [|done]. simpl in Hrun.
  by rewrite (req_step_answered _ _ _ _ _ _ (Forall_lookup_1 _ _ _ _ Hall Hr)) in Hrun.
Qed.

(** ** A request alone *)

Lemma cstep_length rng now c c' : cstep rng now c c' -> List.length (c_reqs c') = List.length (c_reqs c).
Proof.
  destruct 1 as [c i c' Hrun]. unfold run_thread in Hrun.
  destruct (c_reqs c !! i); [|done]. simpl in Hrun.
  destruct (req_step _ _ _ _ _ _) as [[[??]?]|]; [|done]. injection Hrun as <-. apply length_insert.
Qed.

Lemma cstep_single_det rng now c c1 c2 :
  List.length (c_reqs c) = 1 -> cstep rng now c c1 -> cstep rng now c c2 -> c1 = c2.
Proof.
  intros Hl. assert (H0 : forall i c', run_thread rng now c i = Some c' -> i = 0).
  { intros i c' H. unfold run_thread in H. destruct (c_reqs c !! i) eqn:E; [|done].
    apply lookup_lt_Some in E. lia. }
  intros Hs1 Hs2. inversion Hs1 as [? i ? Hr1]; subst. inversion Hs2 as [? j ? Hr2]; subst.
  rewrite (H0 _ _ Hr1) in Hr1. rewrite (H0 _ _ Hr2) in Hr2. congruence.
Qed.

(** ** The sequential handlers, statement by statement *)

(** A request alone never waits for the lock. *)
Lemma may_write_single r : may_write [r] 0 = true.
Proof. unfold may_write, lock_holder. simpl. destruct (decide (is_Some (r_tx r))); reflexivity. Qed.

Section Lone.
Context (rng : nat -> Z) (now : Z).

Lemma lone_step db k r db' k' r' :
  req_step rng now db k true r = Some (db', k', r') ->
  cstep rng now (mkConf db k [r]) (mkConf db' k' [r']).
Proof.
  intros H. apply (cstep_run _ _ _ 0). unfold run_thread. simpl.
  by rewrite may_write_single, H.
Qed.

Ltac lone_tac H :=
  apply lone_step; cbn -[default find_label_by_name insert_label insert_todo insert_todo_labels];
  unfold view; cbn [r_tx]; try rewrite H; reflexivity.

Lemma resolve_labels_cons n ns s :
  resolve_labels rng (n :: ns) s =
    match get_or_create rng n s with
    | (Ok l, s1) =>
        match resolve_labels rng ns s1 with
        | (Ok ls, s2) => (Ok (l :: ls), s2)
        | (Err e, s2) => (Err e, s2)
        end
    | (Err e, s1) => (Err e, s1)
    end.
Proof.
  simpl. unfold bind at 1. destruct (get_or_create rng n s) as [[l|e] s1]; [|done].
  unfold bind. by destruct (resolve_labels rng ns s1) as [[ls|e] s2].
Qed.

Lemma get_or_create_found n s l :
  find_label_by_name (s_db s) n = Some l -> get_or_create rng n s = (Ok l, s).
Proof. intros Hf. unfold get_or_create, bind, read. simpl. by rewrite Hf. Qed.

Lemma get_or_create_new n s :
  find_label_by_name (s_db s) n = None ->
  get_or_create rng n s =
    match insert_label (mkLabel (draw rng (s_rng s)) n) (s_db s) with
    | Ok db' => (Ok (mkLabel (draw rng (s_rng s)) n), mkSess db' (S (s_rng s)))
    | Err e => (Err e, mkSess (s_db s) (S (s_rng s)))
    end.
Proof.
  intros Hf. unfold get_or_create, bind, read, random_id, write, draw. simpl. rewrite Hf. simpl.
  by destruct (insert_label _ _).
Qed.

Lemma loop_alone p names acc tx db k :
  match resolve_labels rng names (mkSess (default db tx) k) with
  | (Ok lbls, s') => exists tx', default db tx' = s_db s' /\
      rtc (cstep rng now) (mkConf db k [mkReq (TSelect p names acc) tx])
                          (mkConf db (s_rng s') [mkReq (TNew p (acc ++ lbls)) tx'])
  | (Err e, s') =>
      rtc (cstep rng now) (mkConf db k [mkReq (TSelect p names acc) tx])
                          (mkConf db (s_rng s') [mkReq (TAnswered (Err e)) None])
  end.
Proof.
  revert acc tx k. induction names as [|n ns IH]; intros acc tx k.
  - exists tx. rewrite app_nil_r. split; [done|]. apply rtc_once. lone_tac I.
  - rewrite resolve_labels_cons.
    destruct (find_label_by_name (default db tx) n) as [l|] eqn:Hf.
    + rewrite (get_or_create_found _ _ l) by done. specialize (IH (acc ++ [l])%list tx k).
      destruct (resolve_labels rng ns _) as [[lbls|e] s'].
      * destruct IH as (tx' & Hv & Hs). exists tx'. rewrite <- app_assoc in Hs. split; [done|].
        eapply rtc_l; [lone_tac Hf|exact Hs].
      * eapply rtc_l; [lone_tac Hf|exact IH].
    + rewrite get_or_create_new by done. simpl.
      destruct (insert_label (mkLabel (draw rng k) n) (default db tx)) as [v'|e] eqn:Hi.
      * specialize (IH (acc ++ [mkLabel (draw rng k) n])%list (Some v') (S k)). simpl in IH.
        destruct (resolve_labels rng ns _) as [[lbls|e] s'].
        -- destruct IH as (tx' & Hv & Hs). exists tx'. rewrite <- app_assoc in Hs. split; [done|].
           eapply rtc_l; [lone_tac Hf|]. eapply rtc_l; [lone_tac I|].
           eapply rtc_l; [lone_tac Hi|exact Hs].
        -- eapply rtc_l; [lone_tac Hf|]. eapply rtc_l; [lone_tac I|].
           eapply rtc_l; [lone_tac Hi|exact IH].
      * eapply rtc_l; [lone_tac Hf|]. eapply rtc_l; [lone_tac I|].
        apply rtc_once. lone_tac Hi.
Qed.

Lemma todo_alone p db k :
  let '(r, s') := run_tx (@create_todo rng (resolve_labels_resolver rng) now p) (mkSess db k) in
  rtc (cstep rng now) (mkConf db k [todo_request p])
      (mkConf (s_db s') (s_rng s') [mkReq (TAnswered r) None]).
Proof.
  pose proof (loop_alone p (default [] (TodoCreate.labels p)) [] None db k) as H. simpl in H.
  unfold run_tx, create_todo, todo_request. unfold bind at 1. simpl resolve.
  destruct (resolve_labels rng _ (mkSess db k)) as [[lbls|e] s1]; [|exact H].
  destruct H as (tx' & Hv & Hs). unfold random_id, bind, write, read, ret. simpl.
  destruct (insert_todo _ _ (s_db s1)) as [v1|e] eqn:Ht;
    [simpl; destruct (insert_todo_labels _ _ v1) as [v2|e] eqn:Hl|]; simpl;
    (etrans; [exact Hs|]); (eapply rtc_l; [lone_tac I|]);
    apply rtc_once; apply lone_step;
    cbn -[default insert_todo insert_todo_labels]; unfold view, new_row, draw; cbn [r_tx]; rewrite Hv; simpl;
    rewrite ?Ht; cbn [result_bind]; rewrite ?Hl; reflexivity.
Qed.
End Lone.

(** * The theorems *)

(** C9 Run alone, a request does what the sequential handler does:
    [POST /labels] in its three statements answers what [create_label]
    answers and leaves the same database and generator; [POST /todos]
    runs to the answer, the database and the generator of [create_todo]
    under [get_db] (rolled back on an error), and every maximal run of
    it ends there. *)
Theorem run_alone (rng : nat -> Z) (now : Z) :
  (forall name db k,
     let '(r, s') := create_label rng name (mkSess db k) in
     run_schedule rng now [0; 0; 0] (mkConf db k [label_request name]) =
       mkConf (s_db s') (s_rng s') [mkReq (LAnswered r) None]) /\
  (forall p db k,
     let '(r, s') := run_tx (@create_todo rng (resolve_labels_resolver rng) now p) (mkSess db k) in
     rtc (cstep rng now) (mkConf db k [todo_request p]) (mkConf (s_db s') (s_rng s') [mkReq (TAnswered r) None]) /\
     forall c, rtc (cstep rng now) (mkConf db k [todo_request p]) c -> nf (cstep rng now) c ->
       c = mkConf (s_db s') (s_rng s') [mkReq (TAnswered r) None]).
Proof.
  split.
  - intros name db k.
    unfold create_label, bind, read, ret, raise, random_id, write, run_schedule, run_thread, may_write, lock_holder, draw.
    simpl. destruct (find_label_by_name db name); [reflexivity|]. simpl. unfold draw. simpl.
    destruct (insert_label _ db) eqn:Hi; unfold req_step, label_step; simpl; by rewrite Hi.
  - intros p db k. pose proof (todo_alone rng now p db k) as H.
    destruct (run_tx _ _) as [r s']. split; [done|]. intros c Hc Hnf.
    apply (rtc_nf_unique (cstep rng now) (fun c => List.length (c_reqs c) = 1))
      with (x := mkConf db k [todo_request p]); try done.
    + intros x y Hx Hxy. by rewrite (cstep_length _ _ _ _ Hxy).
    + intros x y z Hx. by apply cstep_single_det.
    + apply answered_nf. by repeat constructor.
Qed.


