(* ===== verification/WriteLock.v ===== *)
(** * WriteLock: the interleaved requests under SQLite's write lock

    The invariant of the configurations of [Concurrency] ([conc_inv]):
    the committed database is well formed, each request in flight carries
    validated data and the labels it has collected are stored in what it
    reads, an open transaction is well formed, extends the committed
    database and belongs to an unanswered [POST /todos], at most one
    request holds the write lock, and two successful [POST /labels] never
    share an id.  [cost] counts the statements the requests have left.

    Theorems: every statement keeps the invariant, so under every
    interleaving the committed store stays well formed, successful
    answers are committed and no two [POST /labels] succeed with one name;
    every statement lowers [cost], so every interleaving terminates; and
    the holder of the write lock can always run, so an interleaving that
    cannot go on has answered every request. *)

From S2P Require Import Prelude Text Schemas Models LabelStore TodoStore Concurrency.

Open Scope string_scope.

(** ** The invariant *)

(** A label row as stored. *)
Definition stored (db : DB) (l : Label) : Prop := labels db !! label_id l = Some (label_name l).

(** [title: str = Field(min_length=1, max_length=200)]. *)
Definition title_ok (p : TodoCreate.t) : Prop := (1 <= String.length (TodoCreate.title p) <= 200)%nat.

(** A [POST /todos] body as validation leaves it. *)
Definition todo_payload_ok (p : TodoCreate.t) : Prop :=
  title_ok p /\ Forall label_name_ok (default [] (TodoCreate.labels p)).

(** The label names of a [POST /todos] body. *)
Definition todo_names (p : TodoCreate.t) : list string := default [] (TodoCreate.labels p).

(** What a request in flight carries, read in the database [v] it sees:
    validated names and titles, ids in range, the labels collected so far
    stored and named as the body lists them, and a successful answer
    stored. *)
Definition pc_ok (v : DB) (c : pc) : Prop :=
  match c with
  | LQuery n | LDraw n => label_name_ok n
  | LInsert l => label_name_ok (label_name l) /\ in_u32 (label_id l)
  | LAnswered (Ok l) => stored v l
  | TSelect p names acc =>
      title_ok p /\ Forall label_name_ok names /\ Forall (stored v) acc /\
      ((label_name <$> acc) ++ names)%list = todo_names p
  | TDraw p n names acc =>
      title_ok p /\ label_name_ok n /\ Forall label_name_ok names /\ Forall (stored v) acc /\
      ((label_name <$> acc) ++ n :: names)%list = todo_names p
  | TFlush p l names acc =>
      title_ok p /\ (label_name_ok (label_name l) /\ in_u32 (label_id l)) /\
      Forall label_name_ok names /\ Forall (stored v) acc /\
      ((label_name <$> acc) ++ label_name l :: names)%list = todo_names p
  | TNew p acc => title_ok p /\ Forall (stored v) acc /\ label_name <$> acc = todo_names p
  | TCommit p acc tid =>
      title_ok p /\ Forall (stored v) acc /\ in_u32 tid /\ label_name <$> acc = todo_names p
  | TAnswered (Ok o) => is_Some (todos v !! out_id o)
  | LAnswered (Err _) | TAnswered (Err _) => True
  end.

(** The label names a request may write: those of its body. *)
Definition pc_names (c : pc) : list string :=
  match c with
  | TSelect p _ _ | TDraw p _ _ _ | TFlush p _ _ _ | TNew p _ | TCommit p _ _ => todo_names p
  | _ => []
  end.

(** What an open transaction [v] holds beyond the committed [db]: labels
    with the names [ns] only. *)
Definition tx_writes (db v : DB) (ns : list string) : Prop :=
  (forall i n, labels v !! i = Some n -> labels db !! i = Some n \/ n ∈ ns) /\
  todos v = todos db /\ todo_labels v = todo_labels db.

(** The statements a [POST /todos] runs inside its transaction. *)
Definition in_transaction (c : pc) : bool :=
  match c with TSelect _ _ _ | TDraw _ _ _ _ | TFlush _ _ _ _ | TNew _ _ | TCommit _ _ _ => true | _ => false end.

(** The committed database only grows: labels and todos are never deleted. *)
Definition db_le (db db' : DB) : Prop := labels db ⊆ labels db' /\ todos db ⊆ todos db'.

#[export] Instance db_le_preorder : PreOrder db_le.
Proof. split; [intros db; split; reflexivity|intros ??? [??] [??]; split; etrans; eauto]. Qed.

(** A request in flight is well formed on the committed database [db]; an
    open transaction is well formed, extends [db] by labels of its body
    only and belongs to a [POST /todos] that has not answered. *)
Definition req_ok (db : DB) (r : req) : Prop :=
  pc_ok (view db r) (r_pc r) /\
  match r_tx r with
  | None => True
  | Some v => wf_db v /\ db_le db v /\ in_transaction (r_pc r) = true /\ tx_writes db v (pc_names (r_pc r))
  end.

(** The invariant of the interleaved system: the committed store is well
    formed, every request is, at most one request holds the write lock,
    and two successful [POST /labels] never share an id. *)
Record conc_inv (c : Conf) : Prop := {
  ci_wf : wf_db (c_db c);
  ci_reqs : forall j r, c_reqs c !! j = Some r -> req_ok (c_db c) r;
  ci_lock : forall j1 j2 r1 r2, c_reqs c !! j1 = Some r1 -> c_reqs c !! j2 = Some r2 ->
            is_Some (r_tx r1) -> is_Some (r_tx r2) -> j1 = j2;
  ci_distinct : forall j1 j2 r1 r2 l1 l2, j1 <> j2 ->
            c_reqs c !! j1 = Some r1 -> c_reqs c !! j2 = Some r2 ->
            r_pc r1 = LAnswered (Ok l1) -> r_pc r2 = LAnswered (Ok l2) -> label_id l1 <> label_id l2
}.


(** ** Termination measure: the statements a request has left to run *)

Definition pc_cost (c : pc) : nat :=
  match c with
  | LQuery _ => 3 | LDraw _ => 2 | LInsert _ => 1
  | TSelect _ names _ => 3 * List.length names + 3
  | TDraw _ _ names _ => 3 * List.length names + 5
  | TFlush _ _ names _ => 3 * List.length names + 4
  | TNew _ _ => 2 | TCommit _ _ _ => 1
  | LAnswered _ | TAnswered _ => 0
  end.

Definition cost (c : Conf) : nat := sum_list_with (fun r => pc_cost (r_pc r)) (c_reqs c).


(** ** The invariant is kept *)

Lemma stored_mono db db' l : db_le db db' -> stored db l -> stored db' l.
Proof. intros [Hl _]. unfold stored. intros H. by eapply lookup_weaken. Qed.

Lemma pc_ok_mono v v' c : db_le v v' -> pc_ok v c -> pc_ok v' c.
Proof.
  intros Hle. pose proof (fun l => stored_mono v v' l Hle) as Hs.
  assert (Hf : forall acc, Forall (stored v) acc -> Forall (stored v') acc)
    by (intros acc Hacc; eapply Forall_impl; eauto).
  destruct c as [| | |[]|???|????|????|??|???|[]]; simpl; try naive_solver.
  intros Ht. eapply lookup_weaken_is_Some; [exact Ht|apply Hle].
Qed.

Lemma insert_label_le l v v' :
  insert_label l v = Ok v' -> db_le v v' /\ stored v' l /\ labels v !! label_id l = None.
Proof.
  intros (Hi & _ & ->)%insert_label_Ok. split; [split; simpl; [by apply insert_subseteq|done]|].
  split; [apply lookup_insert_eq|done].
Qed.

Lemma find_label_stored db n l : find_label_by_name db n = Some l -> stored db l.
Proof. intros [Hi <-]%find_label_by_name_Some. exact Hi. Qed.

Lemma commit_ok tid row acc v v' :
  wf_db v -> in_u32 tid -> (1 <= String.length (todo_title row) <= 200)%nat -> Forall (stored v) acc ->
  (let? v1 := insert_todo tid row v in insert_todo_labels tid (label_id <$> acc) v1) = Ok v' ->
  wf_db v' /\ db_le v v' /\ todos v' !! tid = Some row.
Proof.
  intros Hwf Htid Hti Hacc. destruct (insert_todo tid row v) as [v1|] eqn:Ht; simpl; [|done].
  intros Hl. pose proof (insert_todo_wf _ _ _ _ Hwf Htid Hti Ht) as Hwf1.
  unfold insert_todo in Ht. case_decide; [done|]. injection Ht as <-.
  split; [|apply insert_todo_labels_Ok in Hl as (_ & _ & ->); simpl;
           split; [split; [done|by apply insert_subseteq, eq_None_not_Some]|apply lookup_insert_eq]].
  eapply insert_todo_labels_wf; [exact Hwf1|simpl; by rewrite lookup_insert_eq| |exact Hl].
  intros lid (l & -> & Hl')%list_elem_of_fmap. simpl.
  eapply Forall_forall in Hacc; [|exact Hl']. by rewrite Hacc.
Qed.

Lemma label_step_ok rng db k w c db' k' c' :
  label_step rng db k w c = Some (db', k', c') -> wf_db db -> pc_ok db c ->
  wf_db db' /\ pc_ok db' c' /\ (db' = db \/ (w = true /\ db_le db db')) /\
  (forall l, c' = LAnswered (Ok l) -> labels db !! label_id l = None).
Proof.
  intros Hs Hwf Hok. destruct c as [n|n|l| | | | | | |]; simpl in Hs; try done.
  - destruct (find_label_by_name db n); injection Hs as <- <- <-; naive_solver.
  - injection Hs as <- <- <-. simpl. unfold draw. naive_solver eauto with api.
  - destruct w; [|done]. destruct (insert_label l db) as [db1|e] eqn:Hi; injection Hs as <- <- <-.
    + destruct (insert_label_le _ _ _ Hi) as (Hle & Hst & Hnone).
      split; [exact (insert_label_wf _ _ _ Hwf (proj1 Hok) (proj2 Hok) Hi)|]. naive_solver.
    + naive_solver.
Qed.

Lemma req_ok_view db r : wf_db db -> req_ok db r -> wf_db (view db r) /\ db_le db (view db r).
Proof.
  unfold req_ok, view. destruct (r_tx r) as [v|]; simpl; intros Hwf [_ H];
    [destruct H as (? & ? & _)|]; split; done.
Qed.

Lemma req_ok_tx db r : req_ok db r -> tx_writes db (view db r) (pc_names (r_pc r)).
Proof.
  unfold req_ok, view. destruct (r_tx r) as [v|]; simpl; intros [_ H]; [apply H|].
  split_and!; auto.
Qed.

Lemma tx_writes_insert db v l v' ns :
  tx_writes db v ns -> label_name l ∈ ns -> insert_label l v = Ok v' -> tx_writes db v' ns.
Proof.
  intros (Hl & Ht & Hr) Hin (_ & _ & ->)%insert_label_Ok. split_and!; try done.
  intros i n. simpl. rewrite lookup_insert. case_decide; [intros [= <-]; by right|apply Hl].
Qed.

Lemma req_ok_next db c c' tx :
  req_ok db (mkReq c tx) -> pc_ok (default db tx) c' -> in_transaction c' = true ->
  pc_names c' = pc_names c -> req_ok db (mkReq c' tx).
Proof.
  unfold req_ok, view. simpl. intros [_ H] Hpc Ht Hn. split; [done|].
  destruct tx; [|done]. rewrite Hn. naive_solver.
Qed.

(** The steps that neither write nor answer keep the request well formed
    once its next statement is. *)
Ltac next_ok Hok := split_and!; [done|eapply req_ok_next; [exact Hok| |done|done]|by left|by left|done].

Lemma todo_step_ok rng now db tx k w c db' k' r' :
  todo_step rng now db (default db tx) tx k w c = Some (db', k', r') -> wf_db db -> req_ok db (mkReq c tx) ->
  wf_db db' /\ req_ok db' r' /\ (db' = db \/ (w = true /\ db_le db db' /\ r_tx r' = None)) /\
  (is_Some (r_tx r') -> is_Some tx \/ w = true) /\ (forall l, r_pc r' <> LAnswered (Ok l)).
Proof.
  intros Hs Hwf Hok. destruct (req_ok_view db (mkReq c tx) Hwf Hok) as [Hwfv Hle].
  pose proof (req_ok_tx db (mkReq c tx) Hok) as Hw.
  pose proof (proj1 Hok) as Hpc. unfold view in *. simpl in *. set (v := default db tx) in *.
  destruct c as [| | | |p [|n ns] acc|p n ns acc|p l ns acc|p acc|p acc tid|]; simpl in Hs; try done.
  - injection Hs as <- <- <-. next_ok Hok. simpl.
    destruct Hpc as (Ht & _ & Hacc & Heq). by rewrite app_nil_r in Heq.
  - destruct Hpc as (Ht & Hns & Hacc & Heq). apply Forall_cons in Hns as [Hn Hns].
    destruct (find_label_by_name v n) as [l|] eqn:Hf; injection Hs as <- <- <-; next_ok Hok; simpl.
    + destruct (find_label_by_name_Some _ _ _ Hf) as [_ Hname].
      split_and!; [done|done| |].
      * apply Forall_app. split; [done|]. apply Forall_singleton. by eapply find_label_stored.
      * rewrite fmap_app, <- app_assoc. simpl. by rewrite Hname.
    + by split_and!.
  - injection Hs as <- <- <-. next_ok Hok. simpl. unfold draw.
    destruct Hpc as (Ht & Hn & Hns & Hacc & Heq). split_and!; auto with api.
  - destruct w; [|done]. destruct Hpc as (Ht & [Hn Hid] & Hns & Hacc & Heq).
    destruct (insert_label l v) as [v'|e] eqn:Hi; injection Hs as <- <- <-.
    + destruct (insert_label_le _ _ _ Hi) as (Hle' & Hst & _).
      split_and!; [done| | |by right|done]; [|by left]. split; simpl.
      * split_and!; [done|done| |by rewrite fmap_app, <- app_assoc].
        apply Forall_app. split; [eapply Forall_impl; [exact Hacc|]|].
        -- intros l'. by apply stored_mono.
        -- by apply Forall_singleton.
      * split_and!; [exact (insert_label_wf _ _ _ Hwfv Hn Hid Hi)|by etrans|done|].
        apply (tx_writes_insert _ _ l _ _ Hw); [|exact Hi]. simpl. rewrite <- Heq.
        apply elem_of_app. right. left.
    + split_and!; [done|done|by left|by intros []|done].
  - injection Hs as <- <- <-. next_ok Hok. simpl. unfold draw.
    destruct Hpc as (Ht & Hacc & Heq). split_and!; auto with api.
  - destruct w; [|done]. destruct Hpc as (Ht & Hacc & Htid & Heq).
    destruct (let? v1 := insert_todo tid (new_row now p) v in _) as [v'|e] eqn:Hc; injection Hs as <- <- <-.
    + destruct (commit_ok tid (new_row now p) acc v v' Hwfv Htid Ht Hacc Hc) as (Hwf' & Hle' & Hrow).
      split_and!; [done| |right; split_and!; [done|by etrans|done]|by intros []|done].
      split; [unfold view, todo_to_out; simpl; by rewrite Hrow|done].
    + split_and!; [done|done|by left|by intros []|done].
Qed.

Lemma req_ok_label db c tx : in_transaction c = false -> req_ok db (mkReq c tx) -> tx = None /\ pc_ok db c.
Proof.
  unfold req_ok, view. intros Ht [Hpc H]. destruct tx; simpl in *; [|done].
  destruct H as (_ & _ & H & _). congruence.
Qed.

Lemma req_step_ok rng now db k w r db' k' r' :
  req_step rng now db k w r = Some (db', k', r') -> wf_db db -> req_ok db r ->
  wf_db db' /\ req_ok db' r' /\ (db' = db \/ (w = true /\ db_le db db' /\ r_tx r' = None)) /\
  (is_Some (r_tx r') -> is_Some (r_tx r) \/ w = true) /\
  (forall l, r_pc r' = LAnswered (Ok l) -> labels db !! label_id l = None).
Proof.
  destruct r as [c tx]. unfold req_step. simpl. intros Hs Hwf Hok.
  destruct (in_transaction c) eqn:Ht.
  - assert (Hs' : todo_step rng now db (default db tx) tx k w c = Some (db', k', r'))
      by (destruct c; done).
    destruct (todo_step_ok _ _ _ _ _ _ _ _ _ _ Hs' Hwf Hok) as (? & ? & ? & ? & Hl).
    split_and!; try done. intros l Hr. by destruct (Hl l).
  - destruct (req_ok_label _ _ _ Ht Hok) as [-> Hpc].
    assert (Hs' : (label_step rng db k w c ≫= fun '(db1, k1, c1) => Some (db1, k1, mkReq c1 None))
                  = Some (db', k', r')) by (destruct c; done).
    destruct (label_step rng db k w c) as [[[db1 k1] c1]|] eqn:El; [|done].
    simpl in Hs'. injection Hs' as <- <- <-.
    destruct (label_step_ok _ _ _ _ _ _ _ _ El Hwf Hpc) as (? & ? & Hdb & ?).
    split_and!; try done; [|by intros []]. destruct Hdb as [|(? & ?)]; [by left|by right].
Qed.

Lemma may_write_others rs i :
  (forall j1 j2 r1 r2, rs !! j1 = Some r1 -> rs !! j2 = Some r2 -> is_Some (r_tx r1) -> is_Some (r_tx r2) -> j1 = j2) ->
  may_write rs i = true -> forall j r, j <> i -> rs !! j = Some r -> r_tx r = None.
Proof.
  intros Hlock. unfold may_write, lock_holder.
  destruct (list_find (fun r => is_Some (r_tx r)) rs) as [[h rh]|] eqn:Hf; simpl.
  - intros ->%bool_decide_eq_true j r Hne Hj. apply list_find_Some in Hf as (Hh & Hsome & _).
    apply eq_None_not_Some. intros Hs. apply Hne. exact (Hlock j h r rh Hj Hh Hs Hsome).
  - intros _ j r _ Hj. apply list_find_None in Hf. apply eq_None_not_Some.
    eapply Forall_lookup_1 in Hf; [exact Hf|exact Hj].
Qed.

Lemma answered_label_stored db r l : req_ok db r -> r_pc r = LAnswered (Ok l) -> stored db l.
Proof. destruct r as [c tx]. simpl. intros Hok ->. by apply req_ok_label in Hok as [_ ?]. Qed.

Lemma req_ok_grow db db' r : db_le db db' -> r_tx r = None -> req_ok db r -> req_ok db' r.
Proof.
  destruct r as [c tx]. simpl. intros Hle -> [Hpc _]. split; [|done]. by eapply pc_ok_mono.
Qed.

Lemma conc_inv_step rng now c c' : cstep rng now c c' -> conc_inv c -> conc_inv c'.
Proof.
  destruct 1 as [c i c' Hrun]. intros [Hwf Hreqs Hlock Hdis].
  unfold run_thread in Hrun. destruct (c_reqs c !! i) as [r|] eqn:Hr; [|done]. simpl in Hrun.
  destruct (req_step rng now (c_db c) (c_rng c) (may_write (c_reqs c) i) r) as [[[db' k'] r']|] eqn:Hs;
    [|done].
  simpl in Hrun. injection Hrun as <-.
  destruct (req_step_ok _ _ _ _ _ _ _ _ _ Hs Hwf (Hreqs i r Hr)) as (Hwf' & Hok' & Hdb & Htx & Hnew).
  pose proof (may_write_others _ i Hlock) as Hothers.
  constructor; simpl; [done| | |].
  - intros j rj [(<- & <- & _)|(Hne & Hj)]%list_lookup_insert_Some; [done|].
    destruct Hdb as [->|(Hw & Hle & _)]; [by eapply Hreqs|].
    apply req_ok_grow with (c_db c); [done|exact (Hothers Hw j rj (not_eq_sym Hne) Hj)|by eapply Hreqs].
  - intros j1 j2 r1 r2 [(<- & <- & _)|(Hne1 & Hj1)]%list_lookup_insert_Some
      [(<- & <- & _)|(Hne2 & Hj2)]%list_lookup_insert_Some S1 S2; [done| | |by eapply Hlock].
    + destruct (Htx S1) as [Hold|Hw]; [by eapply Hlock|].
      rewrite (Hothers Hw j2 r2 (not_eq_sym Hne2) Hj2) in S2. by destruct S2.
    + destruct (Htx S2) as [Hold|Hw]; [by eapply Hlock|].
      rewrite (Hothers Hw j1 r1 (not_eq_sym Hne1) Hj1) in S1. by destruct S1.
  - intros j1 j2 r1 r2 l1 l2 Hne [(<- & <- & _)|(Hne1 & Hj1)]%list_lookup_insert_Some
      [(<- & <- & _)|(Hne2 & Hj2)]%list_lookup_insert_Some P1 P2; [done| | |exact (Hdis j1 j2 r1 r2 l1 l2 Hne Hj1 Hj2 P1 P2)].
    + pose proof (Hnew l1 P1) as Hfree. pose proof (answered_label_stored _ _ _ (Hreqs j2 r2 Hj2) P2) as Hst.
      intros Heq. unfold stored in Hst. rewrite <- Heq, Hfree in Hst. discriminate.
    + pose proof (Hnew l2 P2) as Hfree. pose proof (answered_label_stored _ _ _ (Hreqs j1 r1 Hj1) P1) as Hst.
      intros Heq. unfold stored in Hst. rewrite Heq, Hfree in Hst. discriminate.
Qed.

Lemma conc_inv_steps rng now c c' : rtc (cstep rng now) c c' -> conc_inv c -> conc_inv c'.
Proof. induction 1; eauto using conc_inv_step. Qed.

Lemma req_step_cost rng now db k w r db' k' r' :
  req_step rng now db k w r = Some (db', k', r') -> pc_cost (r_pc r') < pc_cost (r_pc r).
Proof.
  destruct r as [c tx]. unfold req_step. simpl.
  destruct c as [n|n|l| |p [|n ns] acc|p n ns acc|p l ns acc|p acc|p acc tid|]; simpl; try done;
    repeat (case_match; simpl); intros; simplify_eq; simpl; lia.
Qed.

Lemma cstep_cost rng now c c' : cstep rng now c c' -> cost c' < cost c.
Proof.
  destruct 1 as [c i c' Hrun]. unfold run_thread in Hrun.
  destruct (c_reqs c !! i) as [r|] eqn:Hr; [|done]. simpl in Hrun.
  destruct (req_step _ _ _ _ _ r) as [[[db' k'] r']|] eqn:Hs; [|done]. injection Hrun as <-.
  unfold cost. simpl. pose proof (req_step_cost _ _ _ _ _ _ _ _ _ Hs).
  pose proof (sum_list_with_insert (fun r => pc_cost (r_pc r)) _ i r' r Hr). simpl in *. lia.
Qed.

Lemma req_step_enabled rng now db k r :
  is_answered (r_pc r) = false -> is_Some (req_step rng now db k true r).
Proof.
  destruct r as [c tx]. unfold req_step. simpl.
  destruct c as [n|n|l| |p [|n ns] acc|p n ns acc|p l ns acc|p acc|p acc tid|]; simpl; try done;
    repeat (case_match; simpl); eauto.
Qed.

Lemma run_thread_enabled rng now c i r :
  c_reqs c !! i = Some r -> may_write (c_reqs c) i = true -> is_answered (r_pc r) = false ->
  exists c', cstep rng now c c'.
Proof.
  intros Hr Hw Ha. destruct (req_step_enabled rng now (c_db c) (c_rng c) r Ha) as [[[db' k'] r'] Hs].
  exists (mkConf db' k' (<[i := r']> (c_reqs c))). apply (cstep_run _ _ _ i).
  unfold run_thread. rewrite Hr. simpl. by rewrite Hw, Hs.
Qed.

Lemma in_transaction_answered c : in_transaction c = true -> is_answered c = false.
Proof. by destruct c. Qed.

Lemma conc_inv_progress rng now c j r :
  conc_inv c -> c_reqs c !! j = Some r -> is_answered (r_pc r) = false -> exists c', cstep rng now c c'.
Proof.
  intros [Hwf Hreqs Hlock Hdis] Hj Ha. unfold may_write, lock_holder in *.
  destruct (list_find (fun r => is_Some (r_tx r)) (c_reqs c)) as [[h rh]|] eqn:Hf.
  - pose proof Hf as Hf0. apply list_find_Some in Hf0 as (Hh & Hsome & _).
    apply (run_thread_enabled _ _ _ h rh Hh); [unfold may_write, lock_holder; rewrite Hf; simpl; by apply bool_decide_eq_true|].
    destruct (Hreqs h rh Hh) as [_ Htx]. destruct (r_tx rh) as [v|]; [|by destruct Hsome].
    apply in_transaction_answered, Htx.
  - apply (run_thread_enabled _ _ _ j r Hj); [unfold may_write, lock_holder; by rewrite Hf|done].
Qed.

Lemma answered_todo_stored db r o : req_ok db r -> r_pc r = TAnswered (Ok o) -> is_Some (todos db !! out_id o).
Proof. destruct r as [c tx]. simpl. intros Hok ->. by apply req_ok_label in Hok as [_ ?]. Qed.

Lemma conc_inv_init db k names ps :
  wf_db db -> Forall label_name_ok names -> Forall todo_payload_ok ps -> conc_inv (conc_start db k names ps).
Proof.
  intros Hwf Hn Hp. constructor; simpl; [done| | |].
  - intros j r [Hj|(_ & Hj)]%lookup_app_Some; apply list_lookup_fmap_Some in Hj as (x & -> & Hx);
      (split; [simpl|done]).
    + by eapply Forall_lookup_1.
    + destruct (Forall_lookup_1 _ _ _ _ Hp Hx) as [Ht Hl]. by split_and!.
  - intros j1 j2 r1 r2 H1 _ S1 _. exfalso. apply lookup_app_Some in H1 as [H1|(_ & H1)];
      apply list_lookup_fmap_Some in H1 as (x & -> & _); by destruct S1.
  - intros j1 j2 r1 r2 l1 l2 _ H1 _ P1 _. exfalso. apply lookup_app_Some in H1 as [H1|(_ & H1)];
      apply list_lookup_fmap_Some in H1 as (x & -> & _); discriminate.
Qed.

(** * The theorems *)

(** C7 Under every interleaving of concurrent [POST /labels] and
    [POST /todos] requests with validated bodies, the committed store
    stays well formed, every successful answer (label or todo) is
    committed, and no two [POST /labels] succeed with the same name: when
    two requests race for a new name, the [UNIQUE] constraint of
    [labels.name] fails the second insert. *)
Theorem concurrent_store_safe (rng : nat -> Z) (now : Z) (db : DB) (k : nat)
    (names : list string) (ps : list TodoCreate.t) (c : Conf) :
  wf_db db -> Forall label_name_ok names -> Forall todo_payload_ok ps ->
  rtc (cstep rng now) (conc_start db k names ps) c ->
  wf_db (c_db c) /\
  (forall j r l, c_reqs c !! j = Some r -> r_pc r = LAnswered (Ok l) -> stored (c_db c) l) /\
  (forall j r o, c_reqs c !! j = Some r -> r_pc r = TAnswered (Ok o) -> is_Some (todos (c_db c) !! out_id o)) /\
  (forall j1 j2 r1 r2 l1 l2, j1 <> j2 -> c_reqs c !! j1 = Some r1 -> c_reqs c !! j2 = Some r2 ->
     r_pc r1 = LAnswered (Ok l1) -> r_pc r2 = LAnswered (Ok l2) -> label_name l1 <> label_name l2).
Proof.
  intros Hwf Hn Hp Hsteps.
  destruct (conc_inv_steps _ _ _ _ Hsteps (conc_inv_init db k names ps Hwf Hn Hp)) as [Hwf' Hreqs _ Hdis].
  split_and!; [done|eauto using answered_label_stored|eauto using answered_todo_stored|].
  intros j1 j2 r1 r2 l1 l2 Hne H1 H2 P1 P2 Heq. apply (Hdis j1 j2 r1 r2 l1 l2 Hne H1 H2 P1 P2).
  eapply wf_names_unique; [exact Hwf'|apply (answered_label_stored _ _ _ (Hreqs _ _ H1) P1)|].
  rewrite Heq. apply (answered_label_stored _ _ _ (Hreqs _ _ H2) P2).
Qed.

(** C10 Every interleaving that cannot go on has answered every request:
    the write lock never deadlocks, since the request holding it can
    always run its next statement, and a request that waits for it runs
    once it is released.  With [interleavings_terminate], every request
    of every interleaving is answered. *)
Theorem concurrent_requests_answered (rng : nat -> Z) (now : Z) (db : DB) (k : nat)
    (names : list string) (ps : list TodoCreate.t) (c : Conf) :
  wf_db db -> Forall label_name_ok names -> Forall todo_payload_ok ps ->
  rtc (cstep rng now) (conc_start db k names ps) c -> nf (cstep rng now) c ->
  Forall (fun r => is_answered (r_pc r) = true) (c_reqs c).
Proof.
  intros Hwf Hn Hp Hsteps Hnf.
  pose proof (conc_inv_steps _ _ _ _ Hsteps (conc_inv_init db k names ps Hwf Hn Hp)) as Hinv.
  apply Forall_lookup_2. intros j r Hj. destruct (is_answered (r_pc r)) eqn:Ha; [done|].
  destruct (conc_inv_progress rng now c j r Hinv Hj Ha) as [c' Hc']. destruct Hnf. by exists c'.
Qed.

(** C11 Every interleaving of requests in flight terminates: [cstep] is
    strongly normalising, and a run from [c] has at most [cost c] steps
    (three per [POST /labels], three per label name and three more per
    [POST /todos]), since every statement lowers the statements left. *)
Theorem interleavings_terminate (rng : nat -> Z) (now : Z) (c : Conf) :
  sn (cstep rng now) c /\ forall n c', nsteps (cstep rng now) n c c' -> n <= cost c.
Proof.
  split.
  - revert c. apply (wf_projected (<)%nat cost); [|exact lt_wf].
    intros x y Hxy. exact (cstep_cost _ _ _ _ Hxy).
  - intros n c' Hn. induction Hn as [c|n c1 c2 c3 H12 H23 IH]; [lia|].
    pose proof (cstep_cost _ _ _ _ H12). lia.
Qed.

(** ** Witnesses *)

Lemma two_todos_ok : Forall todo_payload_ok [errand_todo "Buy milk"; errand_todo "Buy bread"].
Proof.
  constructor; [|constructor; [|constructor]]; (split; [unfold title_ok; simpl; lia|solve_names_ok]).
Qed.

Lemma concurrent_store_safe_witness :
  wf_db empty_db /\ Forall label_name_ok [] /\
  Forall todo_payload_ok [errand_todo "Buy milk"; errand_todo "Buy bread"] /\
  rtc (cstep demo_rng 0) two_todos (run_schedule demo_rng 0 todo_race_schedule two_todos) /\
  wf_db (c_db (run_schedule demo_rng 0 todo_race_schedule two_todos)).
Proof.
  assert (Hst : rtc (cstep demo_rng 0) two_todos (run_schedule demo_rng 0 todo_race_schedule two_todos))
    by apply run_schedule_steps.
  split_and!; [apply wf_empty_db|constructor|apply two_todos_ok|exact Hst|].
  exact (proj1 (concurrent_store_safe demo_rng 0 empty_db 0 [] _ _ wf_empty_db (Forall_nil_2 _) two_todos_ok Hst)).
Defined.

Lemma concurrent_requests_answered_witness :
  wf_db empty_db /\ Forall label_name_ok [] /\
  Forall todo_payload_ok [errand_todo "Buy milk"; errand_todo "Buy bread"] /\
  rtc (cstep demo_rng 0) two_todos (run_schedule demo_rng 0 todo_race_schedule two_todos) /\
  nf (cstep demo_rng 0) (run_schedule demo_rng 0 todo_race_schedule two_todos) /\
  Forall (fun r => is_answered (r_pc r) = true) (c_reqs (run_schedule demo_rng 0 todo_race_schedule two_todos)).
Proof.
  assert (Hst : rtc (cstep demo_rng 0) two_todos (run_schedule demo_rng 0 todo_race_schedule two_todos))
    by apply run_schedule_steps.
  assert (Hnf : nf (cstep demo_rng 0) (run_schedule demo_rng 0 todo_race_schedule two_todos))
    by (apply answered_nf; vm_compute; repeat constructor).
  split_and!; [apply wf_empty_db|constructor|apply two_todos_ok|exact Hst|exact Hnf|].
  exact (concurrent_requests_answered demo_rng 0 empty_db 0 [] _ _ wf_empty_db (Forall_nil_2 _) two_todos_ok Hst Hnf).
Defined.

