(* ===== verification/Abstract.v ===== *)
(** * Abstract: the store as the spec describes it, and the handlers' refinement of it

    The spec speaks of label names and of todos carrying a set of label
    names; label ids and the association table are how [models.py] stores
    that.  [AState] is the spec's view: the set of label names and, per
    todo id, the todo's columns with the set of its label names.  [abs]
    maps a database to that view.  The abstract operations say what each
    state-changing handler does to the view, and the refinement lemmas of
    this file show that every successful run of [create_label],
    [create_todo] and [update_todo] from a well-formed store moves [abs]
    exactly as the abstract operation says.  [Refinement] lifts them to
    the whole service. *)

From S2P Require Import Prelude Text Schemas Models LabelStore TodoStore.

Open Scope string_scope.

(** ** The abstract state *)

Record ATodo := mkATodo {
  at_row : TodoRow;
  at_labels : gset string
}.

Record AState := mkAState {
  a_names : gset string;
  a_todos : gmap Z ATodo
}.

(** The label names a todo shows, as a set. *)
Definition names_of (db : DB) (tid : Z) : gset string :=
  list_to_set (label_name <$> labels_of db tid).

Definition abs (db : DB) : AState :=
  mkAState (map_img (labels db))
    (map_imap (fun tid row => Some (mkATodo row (names_of db tid))) (todos db)).

(** ** The abstract operations *)

Definition a_add_names (ns : list string) (A : AState) : AState :=
  mkAState (a_names A ∪ list_to_set ns) (a_todos A).

Definition a_new_todo (now : Z) (p : TodoCreate.t) : ATodo :=
  mkATodo (new_row now p) (list_to_set (default [] (TodoCreate.labels p))).

Definition a_create_todo (tid now : Z) (p : TodoCreate.t) (A : AState) : AState :=
  mkAState (a_names A ∪ list_to_set (default [] (TodoCreate.labels p)))
    (<[tid := a_new_todo now p]> (a_todos A)).

Definition a_apply (p : TodoUpdate.t) (t : ATodo) : ATodo :=
  mkATodo (apply_update p (at_row t))
    (match TodoUpdate.labels p with Some ns => list_to_set ns | None => at_labels t end).

Definition a_update_todo (tid : Z) (p : TodoUpdate.t) (t : ATodo) (A : AState) : AState :=
  mkAState (a_names A ∪ list_to_set (default [] (TodoUpdate.labels p)))
    (<[tid := a_apply p t]> (a_todos A)).

(** The columns of an answer. *)
Definition out_row (out : TodoOut) : TodoRow :=
  mkTodoRow (out_title out) (out_done out) (out_due_date out) (out_created_at out) (out_updated_at out).

(** An answer shows the abstract todo [t] under id [tid]. *)
Definition a_view (tid : Z) (t : ATodo) (out : TodoOut) : Prop :=
  out_id out = tid /\ out_row out = at_row t /\ NoDup (out_labels out) /\
  list_to_set (out_labels out) = at_labels t.

(** The filters of [list_todos] on the abstract todo. *)
Definition a_matches (done : option bool) (label : option string)
    (due_before due_after : option Z) (t : ATodo) : bool :=
  match done with Some d => Bool.eqb (todo_done (at_row t)) d | None => true end &&
  match label with
  | Some l => if String.eqb l "" then true else bool_decide (py_lower l ∈ at_labels t)
  | None => true
  end &&
  match due_before with
  | Some b => match todo_due_date (at_row t) with Some d => Z.leb d b | None => false end
  | None => true
  end &&
  match due_after with
  | Some a => match todo_due_date (at_row t) with Some d => Z.leb a d | None => false end
  | None => true
  end.

(** The filter of [list_labels] on a name. *)
Definition name_matches (q : option string) (n : string) : bool := label_matches q (mkLabel 0 n).

(** ** The abstraction *)

Lemma elem_of_a_names db n : n ∈ a_names (abs db) <-> exists i, labels db !! i = Some n.
Proof. apply elem_of_map_img. Qed.

Lemma lookup_a_todos db tid :
  a_todos (abs db) !! tid = (fun row => mkATodo row (names_of db tid)) <$> todos db !! tid.
Proof. simpl. rewrite map_lookup_imap. by destruct (todos db !! tid). Qed.

Lemma elem_of_names_of db tid n :
  n ∈ names_of db tid <-> exists lid, (tid, lid) ∈ todo_labels db /\ labels db !! lid = Some n.
Proof. unfold names_of. by rewrite elem_of_list_to_set, elem_of_label_names_of. Qed.

Lemma list_to_set_perm (l k : list string) : l ≡ₚ k -> (list_to_set l : gset string) = list_to_set k.
Proof. intros Hp. apply set_eq. intros x. by rewrite !elem_of_list_to_set, Hp. Qed.

Lemma list_to_set_elem_iff (l k : list string) :
  (forall x, x ∈ l <-> x ∈ k) -> (list_to_set l : gset string) = list_to_set k.
Proof. intros H. apply set_eq. intros x. by rewrite !elem_of_list_to_set. Qed.

(** A todo's names survive when its rows stay and labels are only added. *)
Lemma names_of_frame db db' tid :
  wf_db db -> labels db ⊆ labels db' ->
  (forall l, (tid, l) ∈ todo_labels db' <-> (tid, l) ∈ todo_labels db) ->
  names_of db' tid = names_of db tid.
Proof.
  intros Hwf Hg Hr. apply set_eq. intros n. rewrite !elem_of_names_of.
  setoid_rewrite Hr. split; intros (lid & Hin & Hl); exists lid; split; try done.
  - destruct (wf_assoc_label _ Hwf _ Hin) as [m Hm]. simpl in Hm.
    rewrite (lookup_weaken _ _ _ _ Hm Hg) in Hl. congruence.
  - by eapply lookup_weaken.
Qed.

(** The label names after a phase that only adds labels named [ns]. *)
Lemma map_img_grow (m m' : gmap Z string) (ns : list string) :
  m ⊆ m' -> (forall i n, m' !! i = Some n -> m !! i = Some n \/ n ∈ ns) ->
  (forall n, n ∈ ns -> exists i, m' !! i = Some n) ->
  (map_img m' : gset string) = map_img m ∪ list_to_set ns.
Proof.
  intros Hg Hnew Hst. apply set_eq. intros n.
  rewrite elem_of_union, elem_of_list_to_set, !elem_of_map_img. split.
  - intros (i & Hi). destruct (Hnew i n Hi); eauto.
  - intros [(i & Hi)|Hin]; [|by apply Hst]. exists i. by eapply lookup_weaken.
Qed.

(** The todos after writing [row] under [tid], the rows of the other todos
    kept and labels only added. *)
Lemma a_todos_insert db db' tid row :
  wf_db db -> labels db ⊆ labels db' -> todos db' = <[tid := row]> (todos db) ->
  (forall t l, t <> tid -> (t, l) ∈ todo_labels db' <-> (t, l) ∈ todo_labels db) ->
  a_todos (abs db') = <[tid := mkATodo row (names_of db' tid)]> (a_todos (abs db)).
Proof.
  intros Hwf Hg Ht Hr. apply map_eq. intros t.
  rewrite lookup_a_todos, Ht. destruct (decide (t = tid)) as [->|Hne].
  - by rewrite !lookup_insert_eq.
  - rewrite !lookup_insert_ne by done. rewrite lookup_a_todos.
    by rewrite (names_of_frame db db' t Hwf Hg (fun l => Hr t l Hne)).
Qed.

Lemma AState_eq (A B : AState) : a_names A = a_names B -> a_todos A = a_todos B -> A = B.
Proof. destruct A, B. simpl. by intros -> ->. Qed.

(** An answer built from the store shows the abstract todo. *)
Lemma todo_to_out_view db tid row :
  wf_db db -> a_view tid (mkATodo row (names_of db tid)) (todo_to_out db tid row).
Proof.
  intros Hwf. split_and!; try done.
  - by destruct row.
  - by apply labels_of_names_NoDup.
Qed.

(** A phase that adds labels and leaves the todos and their rows alone
    only adds names. *)
Lemma abs_add_labels db db' ns :
  wf_db db -> labels db ⊆ labels db' ->
  (forall i n, labels db' !! i = Some n -> labels db !! i = Some n \/ n ∈ ns) ->
  (forall n, n ∈ ns -> exists i, labels db' !! i = Some n) ->
  todos db' = todos db -> todo_labels db' = todo_labels db ->
  abs db' = a_add_names ns (abs db).
Proof.
  intros Hwf Hg Hnew Hst Ht Hr. apply AState_eq; simpl; [by apply map_img_grow|].
  apply map_eq. intros t. rewrite !map_lookup_imap, Ht.
  by rewrite (names_of_frame db db' t Hwf Hg) by (intros l; by rewrite Hr).
Qed.

(** The names a todo shows, read back as a set. *)
Lemma names_of_out db tid row :
  names_of db tid = list_to_set (out_labels (todo_to_out db tid row)).
Proof. done. Qed.

(** ** The handlers refine the abstract operations *)

(** [INSERT INTO labels] of a new name adds the name. *)
Lemma abs_insert_label db l db' :
  wf_db db -> insert_label l db = Ok db' ->
  (label_name l ∉ a_names (abs db)) /\ abs db' = a_add_names [label_name l] (abs db).
Proof.
  intros Hwf (Hfree & Hfind & ->)%insert_label_Ok.
  pose proof (proj1 (find_label_by_name_None _ _) Hfind) as Hfresh. split.
  - intros (i & Hi)%elem_of_map_img. exact (Hfresh i Hi).
  - apply abs_add_labels; simpl; try done.
    + by apply insert_subseteq.
    + intros i n. rewrite lookup_insert. case_decide; [intros [= <-]; right; by left|by left].
    + intros n ->%list_elem_of_singleton. eexists. apply lookup_insert_eq.
Qed.

Lemma create_label_refines rng name s :
  wf_db (s_db s) -> label_name_ok name ->
  wp (create_label rng name) (fun l s' =>
    label_name l = name /\ (name ∉ a_names (abs (s_db s))) /\
    abs (s_db s') = a_add_names [name] (abs (s_db s))) s.
Proof.
  intros Hwf Hn. unfold create_label. wp_step. wp_step. simpl.
  destruct (find_label_by_name (s_db s) name) eqn:E; [wp_step|].
  wp_step. wp_step. simpl. wp_step. wp_step. wp_step. simpl.
  match goal with H : insert_label _ _ = Ok _ |- _ => apply (abs_insert_label _ _ _ Hwf) in H as [? ?] end.
  by split_and!.
Qed.

Section Todos.

Context (rng : nat -> Z) `{!LabelResolver}.

Lemma create_todo_refines now p s :
  wf_db (s_db s) -> Forall label_name_ok (default [] (TodoCreate.labels p)) ->
  (1 <= String.length (TodoCreate.title p) <= 200)%nat ->
  wp (create_todo rng now p) (fun out s' =>
    (out_id out ∉ dom (a_todos (abs (s_db s)))) /\
    a_view (out_id out) (a_new_todo now p) out /\
    abs (s_db s') = a_create_todo (out_id out) now p (abs (s_db s))) s.
Proof.
  intros Hwf Hn Ht. eapply wp_mono; [|by apply create_todo_spec].
  intros out s' Hc. pose proof (created_out _ _ _ _ _ Hc) as Hout.
  assert (Hnm : names_of (s_db s') (out_id out) = list_to_set (default [] (TodoCreate.labels p))).
  { rewrite (names_of_out _ _ (new_row now p)), <- Hout.
    apply list_to_set_perm, (created_names _ _ _ _ _ Hc). }
  split_and!.
  - rewrite not_elem_of_dom, lookup_a_todos, (created_fresh _ _ _ _ _ Hc). done.
  - pose proof (todo_to_out_view _ (out_id out) (new_row now p) (created_wf _ _ _ _ _ Hc)) as Hv.
    rewrite <- Hout, Hnm in Hv. exact Hv.
  - apply AState_eq.
    + apply map_img_grow; [apply Hc|apply Hc|]. intros n Hin.
      apply (labels_of_stored _ (out_id out)).
      rewrite <- (created_names _ _ _ _ _ Hc) in Hin. rewrite Hout in Hin at 1. exact Hin.
    + erewrite a_todos_insert; [|done|apply Hc|apply Hc|apply Hc]. by rewrite Hnm.
Qed.

Lemma update_todo_refines tid p s :
  wf_db (s_db s) -> Forall label_name_ok (default [] (TodoUpdate.labels p)) ->
  (forall t, TodoUpdate.title p = Some t -> (1 <= String.length t <= 200)%nat) ->
  wp (update_todo tid p) (fun out s' =>
    exists t, a_todos (abs (s_db s)) !! tid = Some t /\ a_view tid (a_apply p t) out /\
      abs (s_db s') = a_update_todo tid p t (abs (s_db s))) s.
Proof.
  intros Hwf Hn Hti. eapply wp_mono; [|by apply update_todo_spec_found].
  intros out s' (row & Er & Hu).
  pose proof (updated_out _ _ _ _ _ _ Hu) as Hout.
  exists (mkATodo row (names_of (s_db s) tid)). split; [by rewrite lookup_a_todos, Er|].
  assert (Hnm : names_of (s_db s') tid = at_labels (a_apply p (mkATodo row (names_of (s_db s) tid)))).
  { simpl. destruct (TodoUpdate.labels p) as [ns|] eqn:Ep.
    - rewrite (names_of_out _ _ (apply_update p row)), <- Hout.
      apply list_to_set_elem_iff, (updated_names _ _ _ _ _ _ Hu _ Ep).
    - apply names_of_frame; [done|apply Hu|]. intros l. by rewrite (updated_rows _ _ _ _ _ _ Hu Ep). }
  split.
  - pose proof (todo_to_out_view _ tid (apply_update p row) (updated_wf _ _ _ _ _ _ Hu)) as Hv.
    rewrite <- Hout, Hnm in Hv. exact Hv.
  - apply AState_eq.
    + apply map_img_grow; [apply Hu|apply Hu|]. intros n Hin.
      destruct (TodoUpdate.labels p) as [ns|] eqn:Ep; [|simpl in Hin; set_solver].
      apply (labels_of_stored _ tid). rewrite <- (updated_names _ _ _ _ _ _ Hu _ Ep) in Hin.
      rewrite Hout in Hin at 1. exact Hin.
    + erewrite a_todos_insert; [|done|apply Hu|apply Hu|apply Hu]. by rewrite Hnm.
Qed.

End Todos.

(** ** The queries read the abstract state *)

Lemma existsb_label_name (ls : list Label) n :
  existsb (fun lb => String.eqb (label_name lb) n) ls =
  bool_decide (n ∈ (list_to_set (label_name <$> ls) : gset string)).
Proof.
  destruct (existsb _ ls) eqn:E; symmetry;
    [apply bool_decide_eq_true|apply bool_decide_eq_false];
    rewrite elem_of_list_to_set, list_elem_of_fmap.
  - apply existsb_exists in E as (lb & Hin & Hn%String.eqb_eq). exists lb.
    split; [done|by apply list_elem_of_In].
  - intros (lb & -> & Hin). apply not_true_iff_false in E. apply E, existsb_exists.
    exists lb. split; [by apply list_elem_of_In|apply String.eqb_refl].
Qed.

Lemma todo_matches_abs db done label due_before due_after tid row :
  todo_matches db done label due_before due_after tid row =
  a_matches done label due_before due_after (mkATodo row (names_of db tid)).
Proof.
  unfold todo_matches, a_matches, names_of. simpl. destruct label as [l|]; [|done].
  destruct (String.eqb l ""); [done|]. by rewrite existsb_label_name.
Qed.

Lemma label_matches_name q l : label_matches q l = name_matches q (label_name l).
Proof. by destruct q. Qed.
