(* ===== verification/Api.v ===== *)
(** * Api: the routes of [main.py] as one transition system

    A request is one of the five routes with its raw JSON fields.  FastAPI
    validates the body with the pydantic model of the route (a failure is a
    422 and no handler runs); the handler then runs in its own session
    ([get_db], modelled by [run_tx]): committed on success, rolled back on
    an exception.  [serve] is one request, [step] the transition relation
    of the service over its state (the database and the random generator),
    [reachable] the states reachable from an empty database.

    Theorems: every reachable state satisfies the store invariant; a failed
    request leaves the database as it was; every error has its documented
    cause ([error_cause]); every answer has the shape of its response
    model; [POST /todos] succeeds when its random draws are fresh; what a
    [POST] creates the next [GET] lists; the end-to-end behaviours of spec
    section 8. *)

From S2P Require Import Prelude Text Schemas Models LabelStore TodoStore.

Open Scope string_scope.

Inductive request :=
| PostLabel (name : json string)
| GetLabels (q : option string)
| PostTodo (title : json string) (due_date : json Z) (labels : json (list string))
| GetTodos (done : option bool) (label : option string) (due_before due_after : option Z)
| PatchTodo (todo_id : Z) (title : json string) (due_date : json Z)
    (labels : json (list string)) (done : json bool)
| GetRoot.

Inductive response :=
| RLabel (l : Label)
| RLabels (ls : list Label)
| RTodo (t : TodoOut)
| RTodos (ts : list TodoOut)
| RRedirect (url : string).

(** [root()]: a redirect to the static front end; it reads nothing. *)
Definition root : M response := ret (RRedirect "/static/index.html").

(** A validation result as a step of the session. *)
Definition of_result {A} (r : result A) : M A :=
  match r with
  | Ok a => ret a
  | Err e => raise e
  end.

Section Service.

Context (rng : nat -> Z).

#[local] Instance service_resolver : LabelResolver := resolve_labels_resolver rng.

(** The routes: validation of the body, then the handler. *)
Definition handle (now : Z) (req : request) : M response :=
  match req with
  | PostLabel name =>
      n <- of_result (LabelCreate.validate name) ;;
      l <- create_label rng n ;;
      ret (RLabel l)
  | GetLabels q =>
      ls <- list_labels q ;;
      ret (RLabels ls)
  | PostTodo title due labels =>
      p <- of_result (TodoCreate.validate title due labels) ;;
      t <- create_todo rng now p ;;
      ret (RTodo t)
  | GetTodos done label before after =>
      ts <- list_todos done label before after ;;
      ret (RTodos ts)
  | PatchTodo tid title due labels done =>
      p <- of_result (TodoUpdate.validate title due labels done) ;;
      t <- update_todo tid p ;;
      ret (RTodo t)
  | GetRoot => root
  end.

(** One request in its session. *)
Definition serve (now : Z) (req : request) (s : Sess) : result response * Sess :=
  run_tx (handle now req) s.

Inductive step : Sess -> Sess -> Prop :=
| step_serve now req s : step s (snd (serve now req s)).

Definition init : Sess := mkSess empty_db 0.

Definition reachable (s : Sess) : Prop := rtc step init s.

End Service.

(** The status code of an answer: 201 for the two [POST] routes, 307 for
    the redirect of [/]. *)
Definition status (req : request) (r : result response) : Z :=
  match r with
  | Ok _ => match req with PostLabel _ | PostTodo _ _ _ => 201 | GetRoot => 307 | _ => 200 end
  | Err e => status_of_error e
  end.

(** ** The invariant of the service *)

Lemma wp_of_result {A B} (r : result A) (k : A -> M B) Q s :
  (forall a, r = Ok a -> wp (k a) Q s) -> wp (bind (of_result r) k) Q s.
Proof. intros Hk. apply wp_bind. destruct r as [a|e]; simpl; [by apply Hk|done]. Qed.

Lemma wp_then_ret {A B} (m : M A) (f : A -> B) (Q : B -> Sess -> Prop) s :
  wp m (fun a s' => Q (f a) s') s -> wp (bind m (fun a => ret (f a))) Q s.
Proof. intros H. apply wp_bind. eapply wp_mono; [|exact H]. intros. by apply wp_ret. Qed.

Lemma handle_wf rng now req s :
  wf_db (s_db s) -> wp (handle rng now req) (fun _ s' => wf_db (s_db s')) s.
Proof.
  intros Hwf. destruct req; simpl.
  - apply wp_of_result. intros n Hn%LabelCreate_validate_normal.
    apply wp_then_ret, create_label_wf; [done|]. split; apply Hn.
  - apply wp_then_ret. by apply wp_read.
  - apply wp_of_result. intros p (Ht & Hn)%TodoCreate_validate_ok.
    apply wp_then_ret. by apply create_todo_wf.
  - apply wp_then_ret. by apply wp_read.
  - apply wp_of_result. intros p (Ht & Hn)%TodoUpdate_validate_ok.
    apply wp_then_ret. by apply update_todo_wf.
  - by apply wp_ret.
Qed.

Lemma run_tx_wf {A} (h : M A) s :
  wf_db (s_db s) -> wp h (fun _ s' => wf_db (s_db s')) s -> wf_db (s_db (snd (run_tx h s))).
Proof. unfold run_tx, wp. destruct (h s) as [[a|e] s']; simpl; auto. Qed.

Lemma serve_wf rng now req s : wf_db (s_db s) -> wf_db (s_db (snd (serve rng now req s))).
Proof. intros Hwf. apply run_tx_wf; [done|]. by apply handle_wf. Qed.

(** C1 Every state the service can reach from an empty database
    satisfies the store invariant: label names unique, normalised and
    non-empty, every association row naming a stored todo and a stored
    label, every id a 32-bit unsigned value, every title of 1..200
    characters. *)
Theorem reachable_wf (rng : nat -> Z) (s : Sess) : reachable rng s -> wf_db (s_db s).
Proof.
  unfold reachable. intros Hr.
  assert (Hgen : forall x y, rtc (step rng) x y -> wf_db (s_db x) -> wf_db (s_db y)).
  { induction 1 as [|x y z Hxy _ IH]; [done|]. intros Hx. apply IH.
    inversion Hxy; subst. by apply serve_wf. }
  apply (Hgen _ _ Hr), wf_empty_db.
Qed.

(** ** Failures *)


(** C22 Creating a label whose normal form (trimmed, lowercased) is the
    name of a stored label answers 409 and changes nothing: "URGENT" and
    "urgent" are the same label. *)
Theorem post_label_conflict (rng : nat -> Z) (now : Z) (s : Sess) (raw : string) (i : Z) :
  (1 <= String.length raw <= 50)%nat -> normalize_name raw <> "" ->
  labels (s_db s) !! i = Some (normalize_name raw) ->
  serve rng now (PostLabel (Present raw)) s = (Err (Conflict (normalize_name raw)), s).
Proof.
  intros Hl Hn Hi.
  assert (Hv : LabelCreate.validate (Present raw) = Ok (normalize_name raw))
    by (by apply LabelCreate_validate_accepts).
  unfold serve, run_tx, handle, bind, of_result. rewrite Hv. simpl.
  rewrite (create_label_conflict rng s i _ Hi). destruct s; reflexivity.
Qed.



(** ** Why a request fails *)

(** The answer of pydantic's validation of the body, if it fails. *)
Definition validation_error (req : request) : option api_error :=
  match req with
  | PostLabel name => match LabelCreate.validate name with Err e => Some e | Ok _ => None end
  | PostTodo t d l => match TodoCreate.validate t d l with Err e => Some e | Ok _ => None end
  | PatchTodo _ t d l dn => match TodoUpdate.validate t d l dn with Err e => Some e | Ok _ => None end
  | _ => None
  end.

(** The cause each kind of error has, read in the state the request
    arrived in. *)
Definition error_cause (s : Sess) (req : request) (e : api_error) : Prop :=
  match e with
  | ValidationError _ => validation_error req = Some e
  | Conflict n => (exists raw, req = PostLabel raw) /\ exists i, labels (s_db s) !! i = Some n
  | NotFound id => (exists t d l dn, req = PatchTodo id t d l dn) /\ todos (s_db s) !! id = None
  | OverflowError => exists id t d l dn, req = PatchTodo id t d l dn /\ fits_sqlite_int id = false
  | IntegrityError _ => match req with GetLabels _ | GetTodos _ _ _ _ | GetRoot => False | _ => True end
  end.

Lemma wpe_of_result_bind {A B} (r : result A) (k : A -> M B) E s :
  (forall e, r = Err e -> E e) -> (forall a, r = Ok a -> wpe (k a) E s) ->
  wpe (bind (of_result r) k) E s.
Proof.
  destruct r as [a|e]; intros He Hk; unfold wpe, bind, of_result, ret, raise.
  - intros e' s'. by apply Hk.
  - intros e' s' [= <- _]. by apply He.
Qed.

(** The errors [handle] may raise, with their causes. *)
Lemma handle_err rng now req s : wpe (handle rng now req) (error_cause s req) s.
Proof.
  destruct req as [raw|q|t d l|done label before after|tid t d l dn|]; unfold handle.
  - apply wpe_of_result_bind.
    + intros e0 Hv. destruct (LabelCreate_validate_Err _ _ Hv) as [es ->]. simpl. by rewrite Hv.
    + intros n _. wpe_step; [|repeat wpe_step]. eapply wpe_mono; [|apply create_label_err].
      intros e0 [[-> Hi]|[c ->]]; simpl; eauto.
  - unfold list_labels. repeat wpe_step.
  - apply wpe_of_result_bind.
    + intros e0 Hv. destruct (TodoCreate_validate_Err _ _ _ _ Hv) as [es ->]. simpl. by rewrite Hv.
    + intros p _. wpe_step; [|repeat wpe_step]. eapply wpe_mono; [|apply create_todo_err].
      by intros e0 [c ->].
  - unfold list_todos. repeat wpe_step.
  - apply wpe_of_result_bind.
    + intros e0 Hv. destruct (TodoUpdate_validate_Err _ _ _ _ _ Hv) as [es ->]. simpl. by rewrite Hv.
    + intros p _. wpe_step; [|repeat wpe_step]. eapply wpe_mono; [|apply update_todo_err].
      intros e0 [[-> Hf]|[[-> Hn]|[c ->]]]; simpl; eauto 10.
  - unfold root. wpe_step.
Qed.

(** C32 Every error the service answers has its documented cause: 422
    for a body that fails validation, 409 only for [POST /labels] of a
    stored name, 404 only for [PATCH] of an id that is not stored, the
    overflow only for [PATCH] of an id beyond 64 bits, and an integrity
    failure (500) only on the routes that write; the [GET] routes never
    fail. *)
Theorem serve_error_cause (rng : nat -> Z) (now : Z) (req : request) (s : Sess) (e : api_error) :
  fst (serve rng now req s) = Err e -> error_cause s req e.
Proof.
  assert (H := handle_err rng now req s).
  unfold serve, run_tx. destruct (handle rng now req s) as [[r|e'] s'] eqn:Eh; simpl; [done|].
  intros [= <-]. exact (H _ _ Eh).
Qed.

(** ** The answers have the shape of their response models *)

Lemma serve_Ok_handle rng now req s r s' :
  serve rng now req s = (Ok r, s') -> handle rng now req s = (Ok r, s').
Proof. unfold serve, run_tx. destruct (handle rng now req s) as [[a|e] s1]; [done|discriminate]. Qed.


(** A [LabelOut] as the service produces it. *)
Definition label_ok (l : Label) : Prop := in_u32 (label_id l) /\ label_name_ok (label_name l).

(** A [TodoOut] as the service produces it. *)
Definition todo_out_ok (t : TodoOut) : Prop :=
  in_u32 (out_id t) /\ (1 <= String.length (out_title t) <= 200)%nat /\
  Forall label_name_ok (out_labels t) /\ NoDup (out_labels t).

Definition response_ok (r : response) : Prop :=
  match r with
  | RLabel l => label_ok l
  | RLabels ls => Forall label_ok ls
  | RTodo t => todo_out_ok t
  | RTodos ts => Forall todo_out_ok ts
  | RRedirect _ => True
  end.

Lemma wp_and {A} (m : M A) (Q1 Q2 : A -> Sess -> Prop) s :
  wp m Q1 s -> wp m Q2 s -> wp m (fun a s' => Q1 a s' /\ Q2 a s') s.
Proof. unfold wp. destruct (m s) as [[a|e] s']; auto. Qed.

Lemma stored_label_ok db l :
  wf_db db -> labels db !! label_id l = Some (label_name l) -> label_ok l.
Proof.
  intros Hwf Hl. split; [exact (wf_label_ids _ Hwf _ _ Hl)|exact (wf_names_normal _ Hwf _ _ Hl)].
Qed.

Lemma todo_to_out_ok db tid row :
  wf_db db -> todos db !! tid = Some row -> todo_out_ok (todo_to_out db tid row).
Proof.
  intros Hwf Hrow. split; [|split; [|split]]; simpl.
  - exact (wf_todo_ids _ Hwf _ _ Hrow).
  - exact (wf_titles _ Hwf _ _ Hrow).
  - apply Forall_fmap, Forall_forall. intros lb (_ & Hl)%elem_of_labels_of.
    exact (wf_names_normal _ Hwf _ _ Hl).
  - by apply labels_of_names_NoDup.
Qed.

Lemma handle_response_ok rng now req s :
  wf_db (s_db s) -> wp (handle rng now req) (fun r _ => response_ok r) s.
Proof.
  intros Hwf. destruct req; simpl.
  - apply wp_of_result. intros n Hn%LabelCreate_validate_normal. apply wp_then_ret.
    eapply wp_mono; [|apply wp_and; [apply create_label_stored|apply create_label_wf; [done|apply Hn]]].
    intros l s' [Hl Hwf']. by eapply stored_label_ok.
  - apply wp_then_ret. apply wp_read. apply Forall_forall. intros l Hl.
    apply elem_of_list_labels_query in Hl as [Hl _]. by eapply stored_label_ok.
  - apply wp_of_result. intros p (Ht & Hn)%TodoCreate_validate_ok. apply wp_then_ret.
    eapply wp_mono; [|by apply create_todo_spec]. intros out s' Hc.
    rewrite (created_out _ _ _ _ _ Hc). apply todo_to_out_ok; [apply Hc|].
    rewrite (created_todos _ _ _ _ _ Hc). apply lookup_insert_eq.
  - apply wp_then_ret. apply wp_read. apply Forall_forall.
    intros o ([tid row] & -> & (Hrow & _)%elem_of_list_todos_query)%list_elem_of_fmap.
    by apply todo_to_out_ok.
  - apply wp_of_result. intros p (Ht & Hn)%TodoUpdate_validate_ok. apply wp_then_ret.
    eapply wp_mono; [|by apply update_todo_spec_found]. intros out s' (row & _ & Hu).
    rewrite (updated_out _ _ _ _ _ _ Hu). apply todo_to_out_ok; [apply Hu|].
    rewrite (updated_todos _ _ _ _ _ _ Hu). apply lookup_insert_eq.
  - by apply wp_ret.
Qed.

(** C5 Every successful answer of the service, from a well-formed state,
    has the shape its response model promises: label ids are 32-bit
    unsigned, label names normalised and non-empty, todo titles of 1..200
    characters, and a todo shows each of its normalised label names once. *)
Theorem serve_response_ok (rng : nat -> Z) (now : Z) (req : request) (s s' : Sess) (r : response) :
  wf_db (s_db s) -> serve rng now req s = (Ok r, s') -> response_ok r.
Proof.
  intros Hwf Hs%serve_Ok_handle. exact (wp_run _ _ _ _ _ (handle_response_ok rng now req s Hwf) Hs).
Qed.

(** ** Progress *)

(** C6 [POST /todos] with a body that validates, whose label names are
    distinct, is answered 201 whenever the random draws it needs (one per
    label name, one for the todo) are pairwise distinct and name no stored
    row: the handler fails only on a collision of random ids. *)
Theorem post_todo_succeeds (rng : nat -> Z) (now : Z) (title : json string) (due : json Z)
    (lbls : json (list string)) (p : TodoCreate.t) (s : Sess) :
  wf_db (s_db s) -> TodoCreate.validate title due lbls = Ok p ->
  NoDup (default [] (TodoCreate.labels p)) ->
  fresh_ids rng (s_rng s) (S (List.length (default [] (TodoCreate.labels p)))) (s_db s) ->
  exists out s', serve rng now (PostTodo title due lbls) s = (Ok (RTodo out), s') /\
                 status (PostTodo title due lbls) (Ok (RTodo out)) = 201%Z.
Proof.
  intros Hwf Hv Hnd Hf. destruct (TodoCreate_validate_ok _ _ _ _ Hv) as [Ht Hn].
  destruct (create_todo_live rng now p s Hwf Hn Hnd Ht Hf) as (out & s' & E & _).
  exists out, s'. split; [|done].
  unfold serve, run_tx, handle, of_result, bind, ret. rewrite Hv.
  unfold service_resolver. rewrite E. reflexivity.
Qed.

(** ** Round trips *)

Lemma handle_post_todo_spec rng now t d l s :
  wf_db (s_db s) ->
  wp (handle rng now (PostTodo t d l)) (fun r s' =>
    exists p out, TodoCreate.validate t d l = Ok p /\ r = RTodo out /\
                  created now p out (s_db s) (s_db s')) s.
Proof.
  intros Hwf. unfold handle, of_result. wp_step.
  destruct (TodoCreate.validate t d l) as [p|e] eqn:Ev; [wp_step|apply wp_raise]. cbv beta. wp_step.
  destruct (TodoCreate_validate_ok _ _ _ _ Ev) as [Ht Hn].
  eapply wp_mono; [|by apply create_todo_spec]. intros out s' Hc. wp_step. eauto.
Qed.

(** C20 A todo created by [POST /todos] is listed by the next
    [GET /todos] without filters, exactly as [POST] answered it, and the
    [GET] changes nothing. *)
Theorem post_todo_then_get (rng : nat -> Z) (now now' : Z) (title : json string) (due : json Z)
    (lbls : json (list string)) (s s' : Sess) (out : TodoOut) :
  wf_db (s_db s) -> serve rng now (PostTodo title due lbls) s = (Ok (RTodo out), s') ->
  exists ts, serve rng now' (GetTodos None None None None) s' = (Ok (RTodos ts), s') /\ out ∈ ts.
Proof.
  intros Hwf Hpost%serve_Ok_handle.
  destruct (wp_run _ _ _ _ _ (handle_post_todo_spec rng now title due lbls s Hwf) Hpost)
    as (p & out' & _ & [= <-] & Hc).
  eexists. split; [reflexivity|]. apply list_elem_of_fmap.
  exists (out_id out, new_row now p). split; [exact (created_out _ _ _ _ _ Hc)|].
  apply elem_of_list_todos_query. split; [|reflexivity].
  rewrite (created_todos _ _ _ _ _ Hc). apply lookup_insert_eq.
Qed.

(** C21 A label created by [POST /labels] is listed by the next
    [GET /labels] without a query, and the [GET] changes nothing. *)
Theorem post_label_then_get (rng : nat -> Z) (now now' : Z) (raw : json string) (s s' : Sess) (l : Label) :
  serve rng now (PostLabel raw) s = (Ok (RLabel l), s') ->
  exists ls, serve rng now' (GetLabels None) s' = (Ok (RLabels ls), s') /\ l ∈ ls.
Proof.
  intros Hpost%serve_Ok_handle.
  assert (Hst : wp (handle rng now (PostLabel raw))
                  (fun r s1 => exists l', r = RLabel l' /\ labels (s_db s1) !! label_id l' = Some (label_name l')) s).
  { unfold handle, of_result. wp_step. destruct (LabelCreate.validate raw); [wp_step|apply wp_raise].
    cbv beta. wp_step. eapply wp_mono; [|apply create_label_stored]. intros l' s1 Hl. wp_step. eauto. }
  destruct (wp_run _ _ _ _ _ Hst Hpost) as (l' & [= <-] & Hl).
  eexists. split; [reflexivity|]. by apply elem_of_list_labels_query.
Qed.

(** ** Runs of several requests *)

Fixpoint run_requests (rng : nat -> Z) (now : Z) (reqs : list request) (s : Sess)
    : list (result response) * Sess :=
  match reqs with
  | [] => ([], s)
  | r :: rest =>
      let '(res, s1) := serve rng now r s in
      let '(ress, s2) := run_requests rng now rest s1 in
      (res :: ress, s2)
  end.

Lemma run_requests_steps rng now reqs s : rtc (step rng) s (snd (run_requests rng now reqs s)).
Proof.
  revert s. induction reqs as [|r rest IH]; intros s; simpl; [done|].
  destruct (serve rng now r s) as [res s1] eqn:E1.
  destruct (run_requests rng now rest s1) as [ress s2] eqn:E2. simpl.
  change s2 with (snd (ress, s2)). rewrite <- E2.
  eapply rtc_l; [|apply IH]. change s1 with (snd (res, s1)). rewrite <- E1. constructor.
Qed.

Lemma run_requests_reachable rng now reqs s :
  reachable rng s -> reachable rng (snd (run_requests rng now reqs s)).
Proof. unfold reachable. intros Hs. etrans; [exact Hs|apply run_requests_steps]. Qed.

Lemma run_requests_wf rng now reqs s :
  wf_db (s_db s) -> wf_db (s_db (snd (run_requests rng now reqs s))).
Proof.
  revert s. induction reqs as [|r rest IH]; intros s Hs; simpl; [done|].
  destruct (serve rng now r s) as [res s1] eqn:E1.
  destruct (run_requests rng now rest s1) as [ress s2] eqn:E2. simpl.
  change s2 with (snd (ress, s2)). rewrite <- E2. apply IH.
  change s1 with (snd (res, s1)). rewrite <- E1. by apply serve_wf.
Qed.

(** The end-to-end scenario of spec section 8. *)
Definition spec_scenario : list request :=
  [PostLabel (Present "urgent");
   PostLabel (Present "URGENT");
   PostTodo (Present "Buy milk") Absent (Present ["errand"]);
   PatchTodo 17 Absent Absent (Present ["later"]) (Present true);
   PatchTodo 999999999 Absent Absent Absent (Present true)].

(** The scenario of spec section 8 runs as the spec says: the label
    is created, its upper-case spelling conflicts, the todo is created not
    done with the label "errand", the patch marks it done and replaces its
    labels by "later", and the unknown id answers 404. *)
Theorem spec_scenario_run :
  (run_requests demo_rng 0 spec_scenario init).1 =
  [Ok (RLabel (mkLabel 3 "urgent"));
   Err (Conflict "urgent");
   Ok (RTodo (mkTodoOut 17 "Buy milk" false None ["errand"] 0 0));
   Ok (RTodo (mkTodoOut 17 "Buy milk" true None ["later"] 0 0));
   Err (NotFound 999999999)].
Proof. vm_compute. reflexivity. Qed.

Definition long_label : string :=
  "abcdefghijabcdefghijabcdefghijabcdefghijabcdefghijabcdefghij".

(** C40 A label name longer than the 50 characters the spec allows (and
    [POST /labels] enforces) is stored when it arrives through
    [POST /todos], whose label list has no length limit. *)
Theorem long_label_reachable :
  exists s, reachable demo_rng s /\
    (exists i n, labels (s_db s) !! i = Some n /\ (50 < String.length n)%nat /\
                 is_ok (LabelCreate.validate (Present n)) = false).
Proof.
  exists (snd (run_requests demo_rng 0 [PostTodo (Present "t") Absent (Present [long_label])]
                 init)).
  split; [apply run_requests_reachable, rtc_refl|].
  exists 3%Z, long_label. split; [vm_compute; reflexivity|]. split; [simpl; lia|reflexivity].
Qed.


(** ** Witnesses *)

Definition demo_after : Sess := snd (run_requests demo_rng 0 spec_scenario init).

Lemma reachable_wf_witness : reachable demo_rng demo_after /\ wf_db (s_db demo_after).
Proof.
  assert (Hr : reachable demo_rng demo_after) by apply run_requests_reachable, rtc_refl.
  split; [exact Hr|]. exact (reachable_wf demo_rng demo_after Hr).
Defined.


Lemma post_label_conflict_witness :
  (1 <= String.length " URGENT " <= 50)%nat /\ normalize_name " URGENT " <> "" /\
  labels (s_db demo_after) !! 3%Z = Some (normalize_name " URGENT ") /\
  serve demo_rng 0 (PostLabel (Present " URGENT ")) demo_after =
    (Err (Conflict (normalize_name " URGENT ")), demo_after).
Proof.
  assert (Hl : (1 <= String.length " URGENT " <= 50)%nat) by (simpl; lia).
  assert (Hn : normalize_name " URGENT " <> "") by discriminate.
  assert (Hi : labels (s_db demo_after) !! 3%Z = Some (normalize_name " URGENT "))
    by (vm_compute; reflexivity).
  split; [exact Hl|]. split; [exact Hn|]. split; [exact Hi|].
  exact (post_label_conflict demo_rng 0 demo_after " URGENT " 3 Hl Hn Hi).
Defined.


Definition demo_post_todo : request := PostTodo (Present "Buy milk") Absent (Present ["Errand"]).
Definition demo_todo_out : TodoOut := mkTodoOut 10 "Buy milk" false None ["errand"] 0 0.

Lemma post_todo_then_get_witness :
  wf_db (s_db init) /\
  serve demo_rng 0 demo_post_todo init =
    (Ok (RTodo demo_todo_out), snd (serve demo_rng 0 demo_post_todo init)) /\
  exists ts, serve demo_rng 5 (GetTodos None None None None) (snd (serve demo_rng 0 demo_post_todo init)) =
               (Ok (RTodos ts), snd (serve demo_rng 0 demo_post_todo init)) /\ demo_todo_out ∈ ts.
Proof.
  assert (Hwf : wf_db (s_db init)) by apply wf_empty_db.
  assert (Hpost : serve demo_rng 0 demo_post_todo init =
                    (Ok (RTodo demo_todo_out), snd (serve demo_rng 0 demo_post_todo init)))
    by (vm_compute; reflexivity).
  split; [exact Hwf|]. split; [exact Hpost|].
  exact (post_todo_then_get demo_rng 0 5 _ _ _ init _ demo_todo_out Hwf Hpost).
Defined.

Lemma post_label_then_get_witness :
  serve demo_rng 0 (PostLabel (Present " Urgent")) init =
    (Ok (RLabel (mkLabel 3 "urgent")), snd (serve demo_rng 0 (PostLabel (Present " Urgent")) init)) /\
  exists ls, serve demo_rng 0 (GetLabels None) (snd (serve demo_rng 0 (PostLabel (Present " Urgent")) init)) =
               (Ok (RLabels ls), snd (serve demo_rng 0 (PostLabel (Present " Urgent")) init)) /\
             mkLabel 3 "urgent" ∈ ls.
Proof.
  assert (Hpost : serve demo_rng 0 (PostLabel (Present " Urgent")) init =
    (Ok (RLabel (mkLabel 3 "urgent")), snd (serve demo_rng 0 (PostLabel (Present " Urgent")) init)))
    by (vm_compute; reflexivity).
  split; [exact Hpost|]. exact (post_label_then_get demo_rng 0 0 _ init _ _ Hpost).
Defined.


Definition demo_one_label : Sess := snd (serve demo_rng 0 (PostLabel (Present "urgent")) init).

Lemma serve_error_cause_witness :
  fst (serve demo_rng 0 (PostLabel (Present "URGENT")) demo_one_label) = Err (Conflict "urgent") /\
  error_cause demo_one_label (PostLabel (Present "URGENT")) (Conflict "urgent").
Proof.
  assert (H : fst (serve demo_rng 0 (PostLabel (Present "URGENT")) demo_one_label) = Err (Conflict "urgent"))
    by (vm_compute; reflexivity).
  split; [exact H|]. exact (serve_error_cause demo_rng 0 _ _ _ H).
Defined.

Lemma serve_response_ok_witness :
  wf_db (s_db init) /\
  serve demo_rng 0 demo_post_todo init =
    (Ok (RTodo demo_todo_out), snd (serve demo_rng 0 demo_post_todo init)) /\
  response_ok (RTodo demo_todo_out).
Proof.
  assert (Hwf : wf_db (s_db init)) by apply wf_empty_db.
  assert (Hpost : serve demo_rng 0 demo_post_todo init =
                    (Ok (RTodo demo_todo_out), snd (serve demo_rng 0 demo_post_todo init)))
    by (vm_compute; reflexivity).
  split; [exact Hwf|]. split; [exact Hpost|].
  exact (serve_response_ok demo_rng 0 _ init _ _ Hwf Hpost).
Defined.

Lemma post_todo_succeeds_witness :
  wf_db (s_db init) /\
  TodoCreate.validate (Present "Buy milk") Absent (Present ["Errand"]) =
    Ok (TodoCreate.mk "Buy milk" None (Some ["errand"])) /\
  NoDup ["errand"] /\ fresh_ids demo_rng (s_rng init) 2 (s_db init) /\
  exists out s', serve demo_rng 0 (PostTodo (Present "Buy milk") Absent (Present ["Errand"])) init =
                   (Ok (RTodo out), s') /\
                 status (PostTodo (Present "Buy milk") Absent (Present ["Errand"])) (Ok (RTodo out)) = 201%Z.
Proof.
  assert (Hwf : wf_db (s_db init)) by apply wf_empty_db.
  assert (Hv : TodoCreate.validate (Present "Buy milk") Absent (Present ["Errand"]) =
                 Ok (TodoCreate.mk "Buy milk" None (Some ["errand"]))) by reflexivity.
  assert (Hnd : NoDup ["errand"]) by apply NoDup_singleton.
  assert (Hf : fresh_ids demo_rng (s_rng init) 2 (s_db init)).
  { split; simpl.
    - intros j _. split; apply lookup_empty.
    - intros i j [_ Hi] [_ Hj] Hne. unfold demo_rng.
      destruct i as [|[|i]]; destruct j as [|[|j]]; try lia; vm_compute; discriminate. }
  split; [exact Hwf|]. split; [exact Hv|]. split; [exact Hnd|]. split; [exact Hf|].
  exact (post_todo_succeeds demo_rng 0 _ _ _ _ init Hwf Hv Hnd Hf).
Defined.
