(* ===== verification/Refinement.v ===== *)
(** * Refinement: the service implements the abstract store

    [a_step] is the spec of one request on the abstract state of
    [Abstract]: a request may fail for one of the causes [a_error_cause]
    lists, and then the abstract state is unchanged; when it succeeds, [POST /labels] adds the validated name
    (which was not there), [POST /todos] adds a todo under a fresh id with
    the submitted label names and adds those names, [PATCH] rewrites the
    present fields of an existing todo and replaces its names when
    [labels] is given, and the two [GET] routes answer exactly the
    abstract labels or todos that pass their filters, changing nothing.
    [a_run] chains steps.  The theorems: from a well-formed store [serve]
    is an [a_step] of the abstraction, and every run of requests from the
    empty store is an [a_run] from the empty abstract state. *)

From S2P Require Import Prelude Text Schemas Models LabelStore TodoStore Abstract Api.

Open Scope string_scope.

(** The causes an error may have, read on the abstract state. *)
Definition a_error_cause (A : AState) (req : request) (e : api_error) : Prop :=
  match e with
  | ValidationError _ => validation_error req = Some e
  | Conflict n => (exists raw, req = PostLabel raw) /\ n ∈ a_names A
  | NotFound id => (exists t d l dn, req = PatchTodo id t d l dn) /\ id ∉ dom (a_todos A)
  | OverflowError => exists id t d l dn, req = PatchTodo id t d l dn /\ fits_sqlite_int id = false
  | IntegrityError _ => match req with GetLabels _ | GetTodos _ _ _ _ | GetRoot => False | _ => True end
  end.

Inductive a_step (now : Z) : AState -> request -> result response -> AState -> Prop :=
| a_step_fail A req e : a_error_cause A req e -> a_step now A req (Err e) A
| a_step_post_label A raw n l :
    LabelCreate.validate raw = Ok n -> n ∉ a_names A -> label_name l = n ->
    a_step now A (PostLabel raw) (Ok (RLabel l)) (a_add_names [n] A)
| a_step_get_labels A q ls :
    NoDup (label_name <$> ls) ->
    (forall n, n ∈ label_name <$> ls <-> n ∈ a_names A /\ name_matches q n = true) ->
    a_step now A (GetLabels q) (Ok (RLabels ls)) A
| a_step_post_todo A title due lbls p out :
    TodoCreate.validate title due lbls = Ok p -> out_id out ∉ dom (a_todos A) ->
    a_view (out_id out) (a_new_todo now p) out ->
    a_step now A (PostTodo title due lbls) (Ok (RTodo out)) (a_create_todo (out_id out) now p A)
| a_step_get_todos A done label before after ts :
    NoDup (out_id <$> ts) ->
    (forall o, o ∈ ts -> exists t, a_todos A !! out_id o = Some t /\ a_view (out_id o) t o /\
                                   a_matches done label before after t = true) ->
    (forall tid t, a_todos A !! tid = Some t -> a_matches done label before after t = true ->
                   tid ∈ out_id <$> ts) ->
    a_step now A (GetTodos done label before after) (Ok (RTodos ts)) A
| a_step_patch A tid title due lbls dn p t out :
    TodoUpdate.validate title due lbls dn = Ok p -> a_todos A !! tid = Some t ->
    a_view tid (a_apply p t) out ->
    a_step now A (PatchTodo tid title due lbls dn) (Ok (RTodo out)) (a_update_todo tid p t A)
| a_step_root A : a_step now A GetRoot (Ok (RRedirect "/static/index.html")) A.

Inductive a_run (now : Z) : AState -> list (request * result response) -> AState -> Prop :=
| a_run_nil A : a_run now A [] A
| a_run_cons A A' A'' req r rest :
    a_step now A req r A' -> a_run now A' rest A'' -> a_run now A ((req, r) :: rest) A''.

Definition a_init : AState := mkAState ∅ ∅.

(** ** The two queries *)

Lemma get_labels_step now q db :
  wf_db db -> a_step now (abs db) (GetLabels q) (Ok (RLabels (list_labels_query q db))) (abs db).
Proof.
  intros Hwf.
  assert (Hst : Forall (fun l => labels db !! label_id l = Some (label_name l)) (list_labels_query q db)).
  { apply Forall_forall. intros l Hl. by apply elem_of_list_labels_query in Hl as [? _]. }
  constructor.
  - apply (stored_ids_NoDup_iff db); [done|done|apply list_labels_query_ids_NoDup].
  - intros n. rewrite list_elem_of_fmap, elem_of_a_names. split.
    + intros (l & -> & (Hl & Hm)%elem_of_list_labels_query).
      rewrite <- label_matches_name. eauto.
    + intros ((i & Hi) & Hm). exists (mkLabel i n). split; [done|].
      by apply elem_of_list_labels_query.
Qed.

Lemma out_ids_query db (l : list (Z * TodoRow)) :
  out_id <$> ((fun tr : Z * TodoRow => todo_to_out db tr.1 tr.2) <$> l) = fst <$> l.
Proof. induction l as [|[tid row] l IH]; [done|]. by rewrite !fmap_cons, IH. Qed.

Lemma get_todos_step now db done label before after :
  wf_db db ->
  a_step now (abs db) (GetTodos done label before after)
    (Ok (RTodos ((fun tr : Z * TodoRow => todo_to_out db tr.1 tr.2) <$>
                   list_todos_query done label before after db))) (abs db).
Proof.
  intros Hwf. constructor.
  - rewrite out_ids_query. apply list_todos_query_NoDup.
  - intros o ([tid row] & -> & (Hrow & Hm)%elem_of_list_todos_query)%list_elem_of_fmap.
    exists (mkATodo row (names_of db tid)). cbn [fst snd].
    change (out_id (todo_to_out db tid row)) with tid.
    split_and!; [by rewrite lookup_a_todos, Hrow|by apply todo_to_out_view|].
    by rewrite <- todo_matches_abs.
  - intros tid t. rewrite lookup_a_todos. intros (row & Hrow & ->)%fmap_Some Hm.
    cbv beta in Hm. rewrite <- todo_matches_abs in Hm. rewrite out_ids_query.
    apply (list_elem_of_fmap_2 fst _ (tid, row)).
    by apply elem_of_list_todos_query.
Qed.

(** ** One request *)

Lemma error_cause_abs s req e : error_cause s req e -> a_error_cause (abs (s_db s)) req e.
Proof.
  destruct e; cbn -[abs]; try done.
  - intros [Hr (i & Hi)]. split; [done|]. apply elem_of_a_names. eauto.
  - intros [Hr Hn]. split; [done|]. by rewrite not_elem_of_dom, lookup_a_todos, Hn.
Qed.

Lemma serve_step_of_wp rng now req s :
  wp (handle rng now req) (fun r s' => a_step now (abs (s_db s)) req (Ok r) (abs (s_db s'))) s ->
  a_step now (abs (s_db s)) req (fst (serve rng now req s)) (abs (s_db (snd (serve rng now req s)))).
Proof.
  pose proof (handle_err rng now req s) as Herr.
  unfold serve, run_tx, wp. destruct (handle rng now req s) as [[r|e] s'] eqn:Eh; [done|].
  constructor. apply error_cause_abs. exact (Herr _ _ Eh).
Qed.

(** Served from a well-formed store, every request is a step of the
    abstract spec. *)
Lemma serve_refines (rng : nat -> Z) (now : Z) (req : request) (s : Sess) :
  wf_db (s_db s) ->
  a_step now (abs (s_db s)) req (fst (serve rng now req s)) (abs (s_db (snd (serve rng now req s)))).
Proof.
  intros Hwf. apply serve_step_of_wp.
  destruct req as [raw|q|title due lbls|done label before after|tid title due lbls dn|];
    unfold handle, of_result.
  - wp_step. destruct (LabelCreate.validate raw) as [n|e] eqn:Ev; [wp_step|apply wp_raise].
    cbv beta. wp_step.
    eapply wp_mono; [|apply create_label_refines; [done|by eapply LabelCreate_validate_normal]].
    intros l s' (Hn & Hnot & Habs). wp_step. rewrite Habs. by econstructor.
  - unfold list_labels. wp_step. wp_step. cbv beta. wp_step. by apply get_labels_step.
  - wp_step. destruct (TodoCreate.validate title due lbls) as [p|e] eqn:Ev; [wp_step|apply wp_raise].
    cbv beta. wp_step. destruct (TodoCreate_validate_ok _ _ _ _ Ev) as [Ht Hn].
    eapply wp_mono; [|by apply create_todo_refines].
    intros out s' (Hfresh & Hv & Habs). wp_step. rewrite Habs. by econstructor.
  - unfold list_todos. wp_step. wp_step. cbv beta. wp_step. by apply get_todos_step.
  - wp_step. destruct (TodoUpdate.validate title due lbls dn) as [p|e] eqn:Ev; [wp_step|apply wp_raise].
    cbv beta. wp_step. destruct (TodoUpdate_validate_ok _ _ _ _ _ Ev) as [Ht Hn].
    eapply wp_mono; [|by apply update_todo_refines].
    intros out s' (t & Hlk & Hv & Habs). wp_step. rewrite Habs. by econstructor.
  - unfold root. wp_step. constructor.
Qed.

(** ** Runs of requests *)

Lemma abs_empty : abs empty_db = a_init.
Proof. apply AState_eq; simpl; [apply leibniz_equiv, map_img_empty|apply map_imap_empty]. Qed.

Lemma run_requests_a_run rng now reqs s :
  wf_db (s_db s) ->
  a_run now (abs (s_db s)) (zip reqs (run_requests rng now reqs s).1)
    (abs (s_db (run_requests rng now reqs s).2)).
Proof.
  revert s. induction reqs as [|r rest IH]; intros s Hwf; simpl; [constructor|].
  pose proof (serve_refines rng now r s Hwf) as Hstep.
  pose proof (serve_wf rng now r s Hwf) as Hwf1.
  destruct (serve rng now r s) as [res s1]. simpl in *.
  pose proof (IH s1 Hwf1) as Hrun.
  destruct (run_requests rng now rest s1) as [ress s2]. simpl in *.
  by econstructor.
Qed.


(** ** Reachable states *)

Definition a_any_step (A A' : AState) : Prop := exists now req r, a_step now A req r A'.

Definition a_reachable (A : AState) : Prop := rtc a_any_step a_init A.

Lemma step_a_any_step rng s s' :
  wf_db (s_db s) -> step rng s s' -> a_any_step (abs (s_db s)) (abs (s_db s')) /\ wf_db (s_db s').
Proof.
  intros Hwf Hst. inversion Hst as [now req s0]; subst.
  split; [exists now, req; eexists; by apply serve_refines|by apply serve_wf].
Qed.

Lemma steps_a_steps rng s s' :
  rtc (step rng) s s' -> wf_db (s_db s) -> rtc a_any_step (abs (s_db s)) (abs (s_db s')).
Proof.
  induction 1 as [|x y z Hxy _ IH]; intros Hwf; [done|].
  destruct (step_a_any_step _ _ _ Hwf Hxy) as [Ha Hwf'].
  eapply rtc_l; [exact Ha|by apply IH].
Qed.

(** An abstract step only adds label names and todos, and never changes
    a todo's [created_at]. *)
Lemma a_step_mono now A req r A' :
  a_step now A req r A' ->
  a_names A ⊆ a_names A' /\
  forall tid t, a_todos A !! tid = Some t ->
    exists t', a_todos A' !! tid = Some t' /\ todo_created_at (at_row t') = todo_created_at (at_row t).
Proof.
  destruct 1 as [| | |A title due lbls p out _ Hfresh _| |A tid0 title due lbls dn p t0 out _ Ht0 _|];
    simpl; (split; [set_solver|]); intros tid t Ht; eauto.
  - exists t. rewrite lookup_insert_ne; [done|]. intros Heq. apply Hfresh. rewrite Heq.
    by eapply elem_of_dom_2.
  - destruct (decide (tid = tid0)) as [->|Hne].
    + rewrite lookup_insert_eq. eexists. split; [done|]. rewrite Ht0 in Ht. by injection Ht as ->.
    + rewrite lookup_insert_ne by done. eauto.
Qed.

Lemma a_steps_mono A A' :
  rtc a_any_step A A' ->
  a_names A ⊆ a_names A' /\
  forall tid t, a_todos A !! tid = Some t ->
    exists t', a_todos A' !! tid = Some t' /\ todo_created_at (at_row t') = todo_created_at (at_row t).
Proof.
  induction 1 as [A|A B C (now & req & r & Hab) _ [IHn IHt]]; [split; [done|eauto]|].
  destruct (a_step_mono _ _ _ _ _ Hab) as [Hn Ht]. split; [set_solver|].
  intros tid t Hat. destruct (Ht tid t Hat) as (t' & Ht' & Hc).
  destruct (IHt tid t' Ht') as (t'' & Ht'' & Hc'). exists t''. split; [done|congruence].
Qed.

(** C3 Every state the service reaches is, through the abstraction, a
    state the abstract spec reaches from the empty store: the service
    simulates the spec step by step. *)
Theorem reachable_refines (rng : nat -> Z) (s : Sess) : reachable rng s -> a_reachable (abs (s_db s)).
Proof.
  intros Hr. unfold a_reachable. rewrite <- abs_empty. change empty_db with (s_db init).
  apply (steps_a_steps rng); [exact Hr|apply wf_empty_db].
Qed.

(** A later store keeps every todo of an earlier one, with its creation
    time, and every label name. *)
Definition store_extends (db db' : DB) : Prop :=
  (forall tid row, todos db !! tid = Some row ->
     exists row', todos db' !! tid = Some row' /\ todo_created_at row' = todo_created_at row) /\
  map_img (labels db) ⊆@{gset string} map_img (labels db').

(** C4 Nothing the service does deletes a todo or moves its creation
    time: from a well-formed state, every later state keeps each stored
    todo, with the same [created_at], and every label name. *)
Theorem todos_persist (rng : nat -> Z) (s s' : Sess) :
  wf_db (s_db s) -> rtc (step rng) s s' -> store_extends (s_db s) (s_db s').
Proof.
  intros Hwf Hsteps.
  destruct (a_steps_mono _ _ (steps_a_steps _ _ _ Hsteps Hwf)) as [Hn Ht]. split; [|exact Hn].
  intros tid row Hrow.
  destruct (Ht tid (mkATodo row (names_of (s_db s) tid))) as (t' & Ht' & Hc);
    [by rewrite lookup_a_todos, Hrow|].
  rewrite lookup_a_todos in Ht'. apply fmap_Some in Ht' as (row' & Hrow' & ->). eauto.
Qed.

(** ** Witnesses *)

Lemma reachable_refines_witness :
  reachable demo_rng demo_after /\ a_reachable (abs (s_db demo_after)).
Proof.
  assert (Hr : reachable demo_rng demo_after) by apply run_requests_reachable, rtc_refl.
  split; [exact Hr|]. exact (reachable_refines demo_rng demo_after Hr).
Defined.

Definition persist_before : Sess :=
  snd (run_requests demo_rng 0 [PostTodo (Present "Buy milk") Absent (Present ["errand"])] init).

Definition persist_after : Sess :=
  snd (run_requests demo_rng 5 [PatchTodo 10 (Present "Buy oat milk") Absent (Present ["later"]) (Present true)]
         persist_before).

Lemma todos_persist_witness :
  wf_db (s_db persist_before) /\ rtc (step demo_rng) persist_before persist_after /\
  store_extends (s_db persist_before) (s_db persist_after).
Proof.
  assert (Hwf : wf_db (s_db persist_before)) by apply run_requests_wf, wf_empty_db.
  assert (Hst : rtc (step demo_rng) persist_before persist_after) by apply run_requests_steps.
  split; [exact Hwf|]. split; [exact Hst|].
  exact (todos_persist demo_rng persist_before persist_after Hwf Hst).
Defined.
