(* ===== verification/Linearizability.v ===== *)
(** * Linearizability: every interleaving is a run of the abstract spec

    The requests of [Concurrency] answer one by one, each at the statement
    that decides its answer: the [SELECT] that finds the name of a
    [POST /labels] ([Conflict]), the insert of a [POST /labels] (its label
    or the constraint that refused it), the failing flush of a
    [POST /todos], or its commit.  Every other statement leaves the
    committed database as it is.  This file shows that each answering
    statement is a step of the abstract spec [a_step] of [Refinement] on
    the committed database seen through [abs], for the HTTP request the
    request in flight serves ([orig_ok]), with its actual answer.  So the
    committed state after any interleaving is the abstract state reached
    by serving the answered requests one after the other in the order
    they answered: the interleaved service is linearizable with respect to
    the spec, the order being the order of the answers. *)

From S2P Require Import Prelude Text Schemas Models LabelStore TodoStore Concurrency WriteLock Abstract Api Refinement.

Open Scope string_scope.

(** The HTTP request [raw] a request in flight serves: its body validated
    to the name or the todo the request carries. *)
Definition orig_ok (raw : request) (c : pc) : Prop :=
  match raw, c with
  | PostLabel r, (LQuery n | LDraw n) => LabelCreate.validate r = Ok n
  | PostLabel r, LInsert l => LabelCreate.validate r = Ok (label_name l)
  | PostLabel _, LAnswered _ => True
  | PostTodo t d ls, (TSelect p _ _ | TDraw p _ _ _ | TFlush p _ _ _ | TNew p _ | TCommit p _ _) =>
      TodoCreate.validate t d ls = Ok p
  | PostTodo _ _ _, TAnswered _ => True
  | _, _ => False
  end.

(** The HTTP answer of a request that has answered. *)
Definition answer_of (c : pc) : option (result response) :=
  match c with
  | LAnswered (Ok l) => Some (Ok (RLabel l))
  | TAnswered (Ok o) => Some (Ok (RTodo o))
  | LAnswered (Err e) | TAnswered (Err e) => Some (Err e)
  | _ => None
  end.

(** The answered requests with their answers, in the order of the
    requests. *)
Fixpoint answered (raws : list request) (rs : list req) : list (request * result response) :=
  match raws, rs with
  | raw :: raws', r :: rs' =>
      match answer_of (r_pc r) with
      | Some a => (raw, a) :: answered raws' rs'
      | None => answered raws' rs'
      end
  | _, _ => []
  end.

(** ** The commit of a [POST /todos] *)

(** Committing a transaction that added labels of the body only, with the
    labels of the body collected, creates the abstract todo. *)
Lemma commit_refines now p acc tid db v v' :
  wf_db db -> wf_db v' -> db_le db v -> tx_writes db v (todo_names p) ->
  Forall (stored v) acc -> label_name <$> acc = todo_names p ->
  (let? v1 := insert_todo tid (new_row now p) v in insert_todo_labels tid (label_id <$> acc) v1) = Ok v' ->
  (tid ∉ dom (a_todos (abs db))) /\
  a_view tid (a_new_todo now p) (todo_to_out v' tid (new_row now p)) /\
  abs v' = a_create_todo tid now p (abs db).
Proof.
  intros Hwf Hwf' [Hlab _] (Hnew & Htodos & Hrows) Hacc Hnames Hc.
  destruct (insert_todo tid (new_row now p) v) as [v1|] eqn:Ht; simpl in Hc; [|done].
  pose proof Ht as Ht'. unfold insert_todo in Ht'. case_decide as Hfree; [done|]. injection Ht' as <-.
  apply insert_todo_labels_Ok in Hc as (Hnd & Hnot & ->).
  assert (Hno : forall lid, (tid, lid) ∉ todo_labels v).
  { intros lid Hin. apply Hfree. rewrite Htodos. apply (wf_assoc_todo _ Hwf (tid, lid)). by rewrite <- Hrows. }
  assert (Hnm : names_of (set_todo_labels (list_to_set ((fun lid => (tid, lid)) <$> (label_id <$> acc)) ∪
                  todo_labels (set_todos (<[tid:=new_row now p]> (todos v)) v))
                  (set_todos (<[tid:=new_row now p]> (todos v)) v)) tid = list_to_set (todo_names p)).
  { apply set_eq. intros n. rewrite elem_of_names_of, elem_of_list_to_set, <- Hnames. simpl. split.
    - intros (lid & [Hin|Hin]%elem_of_union & Hl); [|by destruct (Hno lid)].
      apply elem_of_list_to_set, list_elem_of_fmap in Hin as (lid' & [= <-] & Hin).
      apply list_elem_of_fmap in Hin as (l & -> & Hl'). apply list_elem_of_fmap.
      exists l. split; [|done]. eapply Forall_forall in Hacc; [|exact Hl']. unfold stored in Hacc. congruence.
    - intros (l & -> & Hl)%list_elem_of_fmap. exists (label_id l). split.
      + apply elem_of_union_l, elem_of_list_to_set, list_elem_of_fmap. exists (label_id l).
        split; [done|]. apply list_elem_of_fmap. by exists l.
      + eapply Forall_forall in Hacc; [|exact Hl]. exact Hacc. }
  split_and!.
  - rewrite not_elem_of_dom, lookup_a_todos, <- Htodos. by apply eq_None_not_Some in Hfree as ->.
  - pose proof (todo_to_out_view _ tid (new_row now p) Hwf') as Hv. by rewrite Hnm in Hv.
  - apply AState_eq.
    + simpl. apply map_img_grow; [done|done|]. intros n Hin.
      change (default [] (TodoCreate.labels p)) with (todo_names p) in Hin. rewrite <- Hnames in Hin.
      apply list_elem_of_fmap in Hin as (l & -> & Hl). exists (label_id l).
      eapply Forall_forall in Hacc; [|exact Hl]. exact Hacc.
    + unfold a_create_todo. cbn [a_todos].
      erewrite (a_todos_insert db _ tid (new_row now p)); [by rewrite Hnm|done|done|simpl; by rewrite Htodos|].
      intros t l Hne. simpl. rewrite elem_of_union, Hrows, elem_of_list_to_set. split; [|by right].
      intros [(lid & [= -> _] & _)%list_elem_of_fmap|]; [done|done].
Qed.

(** ** One statement *)

Lemma answer_of_pending c : is_answered c = false <-> answer_of c = None.
Proof. by destruct c as [| | |[]| | | | | |[]]. Qed.

(** A statement that does not answer does not commit. *)
Lemma req_step_silent rng now db k w r db' k' r' :
  req_step rng now db k w r = Some (db', k', r') -> answer_of (r_pc r') = None -> db' = db.
Proof.
  destruct r as [c tx]. unfold req_step. simpl.
  destruct c as [n|n|l| |p [|n ns] acc|p n ns acc|p l ns acc|p acc|p acc tid|]; simpl; try done;
    repeat (case_match; simpl); intros; simplify_eq; done.
Qed.

Lemma req_step_orig rng now db k w r db' k' r' raw :
  req_step rng now db k w r = Some (db', k', r') -> orig_ok raw (r_pc r) -> orig_ok raw (r_pc r').
Proof.
  destruct r as [c tx]. unfold req_step. simpl.
  destruct c as [n|n|l| |p [|n ns] acc|p n ns acc|p l ns acc|p acc|p acc tid|]; simpl; try done;
    repeat (case_match; simpl); intros; simplify_eq; destruct raw; done.
Qed.

Lemma integrity_cause A raw e :
  is_integrity e -> (exists r, raw = PostLabel r) \/ (exists t d ls, raw = PostTodo t d ls) ->
  a_error_cause A raw e.
Proof. intros [m ->] [[r ->]|(t & d & ls & ->)]; done. Qed.

Lemma commit_Err tid row lids v e :
  (let? v1 := insert_todo tid row v in insert_todo_labels tid lids v1) = Err e -> is_integrity e.
Proof.
  destruct (insert_todo tid row v) as [v1|e1] eqn:Ht; simpl; [apply insert_todo_labels_Err|].
  intros [= <-]. by eapply insert_todo_Err.
Qed.

(** A statement that answers is a step of the abstract spec on the
    committed database, for the request it serves. *)
Lemma req_step_a_step rng now db k w r db' k' r' raw res :
  wf_db db -> req_ok db r -> orig_ok raw (r_pc r) ->
  req_step rng now db k w r = Some (db', k', r') -> answer_of (r_pc r') = Some res ->
  a_step now (abs db) raw res (abs db').
Proof.
  intros Hwf Hok Horig Hs Ha.
  destruct (req_ok_view db r Hwf Hok) as [Hwfv Hle]. pose proof (req_ok_tx db r Hok) as Hw.
  pose proof (proj1 Hok) as Hpc. destruct r as [c tx]. unfold view in *. simpl in *.
  unfold req_step in Hs. simpl in Hs.
  destruct c as [n|n|l| |p [|n ns] acc|p n ns acc|p l ns acc|p acc|p acc tid|]; simpl in Hs; try done.
  - destruct raw as [r0| | | | |]; try done.
    destruct (find_label_by_name db n) as [l0|] eqn:Hf; simpl in Hs; injection Hs as <- <- <-; [|done].
    injection Ha as <-. constructor. split; [by eexists|].
    apply elem_of_a_names. destruct (find_label_by_name_Some _ _ _ Hf). eauto.
  - by injection Hs as <- <- <-.
  - destruct w; [|done]. destruct raw as [r0| | | | |]; try done.
    destruct (insert_label l db) as [db1|e] eqn:Hi; simpl in Hs; injection Hs as <- <- <-; injection Ha as <-.
    + destruct (abs_insert_label _ _ _ Hwf Hi) as [Hnot ->]. by econstructor.
    + constructor. apply integrity_cause; [by eapply insert_label_Err|eauto].
  - by injection Hs as <- <- <-.
  - destruct (find_label_by_name _ n); by injection Hs as <- <- <-.
  - by injection Hs as <- <- <-.
  - destruct w; [|done]. destruct raw as [| |t d ls| | |]; try done.
    destruct (insert_label l _) as [v'|e] eqn:Hi; injection Hs as <- <- <-; [done|].
    injection Ha as <-. constructor. apply integrity_cause; [by eapply insert_label_Err|right; eauto].
  - by injection Hs as <- <- <-.
  - destruct w; [|done]. destruct raw as [| |t d ls| | |]; try done.
    destruct Hpc as (Ht & Hacc & Htid & Hnames).
    destruct (let? v1 := insert_todo tid (new_row now p) _ in _) as [v'|e] eqn:Hc;
      injection Hs as <- <- <-; injection Ha as <-.
    + destruct (commit_ok tid (new_row now p) acc _ v' Hwfv Htid Ht Hacc Hc) as (Hwf' & _ & _).
      destruct (commit_refines now p acc tid db _ v' Hwf Hwf' Hle Hw Hacc Hnames Hc) as (Hfresh & Hv & ->).
      by apply a_step_post_todo.
    + constructor. apply integrity_cause; [by eapply commit_Err|right; eauto].
Qed.

(** ** The answered requests *)

Lemma answered_insert_None raws rs i r r' :
  rs !! i = Some r -> answer_of (r_pc r) = None -> answer_of (r_pc r') = None ->
  answered raws (<[i := r']> rs) = answered raws rs.
Proof.
  revert rs i. induction raws as [|raw raws IH]; intros [|r0 rs] [|i]; simpl; try done.
  - intros [= ->] Hn Hn'. by rewrite Hn, Hn'.
  - intros Hi Hn Hn'. by rewrite (IH rs i Hi Hn Hn').
Qed.

Lemma answered_insert_Some raws rs i r r' raw a :
  rs !! i = Some r -> raws !! i = Some raw -> answer_of (r_pc r) = None -> answer_of (r_pc r') = Some a ->
  answered raws (<[i := r']> rs) ≡ₚ answered raws rs ++ [(raw, a)].
Proof.
  revert rs i. induction raws as [|raw0 raws IH]; intros [|r0 rs] [|i]; simpl; try done.
  - intros [= ->] [= ->] Hn Ha. rewrite Hn, Ha. apply Permutation_cons_append.
  - intros Hi Hraw Hn Ha. destruct (answer_of (r_pc r0)); [apply perm_skip|]; by eapply IH.
Qed.

Lemma answered_none raws rs : Forall (fun r => answer_of (r_pc r) = None) rs -> answered raws rs = [].
Proof.
  revert rs. induction raws as [|raw raws IH]; intros [|r rs] H; simpl; try done.
  apply Forall_cons in H as [-> H]. by apply IH.
Qed.

Lemma a_run_snoc now A hist B req r C :
  a_run now A hist B -> a_step now B req r C -> a_run now A (hist ++ [(req, r)]) C.
Proof.
  induction 1 as [A|A A' A'' req' r' rest Hs _ IH]; intros Hst; simpl.
  - econstructor; [exact Hst|constructor].
  - econstructor; [exact Hs|by apply IH].
Qed.

(** ** The bodies of the requests *)

Lemma orig_label_names raws names :
  Forall2 (fun raw r => orig_ok raw (r_pc r)) raws (label_request <$> names) -> Forall label_name_ok names.
Proof.
  revert raws. induction names as [|n names IH]; intros [|raw raws] H; inversion H as [|? ? ? ? Ho Hrest]; subst;
    constructor; [|by eapply IH].
  destruct raw; try done. by apply LabelCreate_validate_normal in Ho.
Qed.

Lemma orig_todo_payloads raws ps :
  Forall2 (fun raw r => orig_ok raw (r_pc r)) raws (todo_request <$> ps) -> Forall todo_payload_ok ps.
Proof.
  revert raws. induction ps as [|p ps IH]; intros [|raw raws] H; inversion H as [|? ? ? ? Ho Hrest]; subst;
    constructor; [|by eapply IH].
  destruct raw; try done. by apply TodoCreate_validate_ok in Ho.
Qed.

Lemma conc_inv_start db k names ps raws :
  wf_db db -> Forall2 (fun raw r => orig_ok raw (r_pc r)) raws (c_reqs (conc_start db k names ps)) ->
  conc_inv (conc_start db k names ps).
Proof.
  intros Hwf Ho. simpl in Ho. apply Forall2_app_inv_r in Ho as (raws1 & raws2 & H1 & H2 & _).
  apply conc_inv_init; [done|by eapply orig_label_names|by eapply orig_todo_payloads].
Qed.

Lemma conc_start_pending db k names ps :
  Forall (fun r => answer_of (r_pc r) = None) (c_reqs (conc_start db k names ps)).
Proof. simpl. apply Forall_app. split; apply Forall_fmap, Forall_true; done. Qed.

(** One statement: the bodies are kept, and either nothing is answered
    and nothing committed, or one request answers and its statement is an
    abstract step. *)
Lemma lin_step rng now raws c c' :
  conc_inv c -> Forall2 (fun raw r => orig_ok raw (r_pc r)) raws (c_reqs c) -> cstep rng now c c' ->
  Forall2 (fun raw r => orig_ok raw (r_pc r)) raws (c_reqs c') /\
  ((answered raws (c_reqs c') = answered raws (c_reqs c) /\ c_db c' = c_db c) \/
   exists raw res, answered raws (c_reqs c') ≡ₚ answered raws (c_reqs c) ++ [(raw, res)] /\
                   a_step now (abs (c_db c)) raw res (abs (c_db c'))).
Proof.
  intros Hinv Horig Hst. inversion Hst as [? i ? Hrun]; subst. unfold run_thread in Hrun.
  destruct (c_reqs c !! i) as [r|] eqn:Hr; [|done]. simpl in Hrun.
  destruct (req_step rng now (c_db c) (c_rng c) (may_write (c_reqs c) i) r) as [[[db' k'] r']|] eqn:Hs;
    [|done].
  injection Hrun as <-. simpl.
  destruct (Forall2_lookup_r _ _ _ _ _ Horig Hr) as (raw & Hraw & Ho).
  assert (Hpend : answer_of (r_pc r) = None).
  { apply answer_of_pending. destruct (is_answered (r_pc r)) eqn:E; [|done].
    by rewrite (req_step_answered _ _ _ _ _ _ E) in Hs. }
  split.
  - rewrite <- (list_insert_id raws i raw Hraw). apply Forall2_insert; [done|]. by eapply req_step_orig.
  - destruct (answer_of (r_pc r')) as [res|] eqn:Ha.
    + right. exists raw, res. split; [by eapply answered_insert_Some|].
      eapply req_step_a_step; [apply Hinv|eapply ci_reqs; [apply Hinv|exact Hr]|exact Ho|exact Hs|exact Ha].
    + left. split; [by eapply answered_insert_None|by eapply req_step_silent].
Qed.

(** * The theorem *)

(** C13 The interleaved service is linearizable with respect to the
    abstract spec: for validated [POST /labels] and [POST /todos] requests
    served concurrently from a well-formed database, after any
    interleaving there is an order of the requests answered so far (the
    order of their answers) in which serving them one after the other by
    the abstract spec [a_step], with the answers they actually got, leads
    from the abstraction of the initial database to the abstraction of
    the committed one.  In particular the races of [Concurrency] are
    answers the spec allows: a lost race is an integrity error of a
    writing route, which changes nothing. *)
Theorem interleavings_linearizable (rng : nat -> Z) (now : Z) (db : DB) (k : nat)
    (names : list string) (ps : list TodoCreate.t) (raws : list request) (c : Conf) :
  wf_db db ->
  Forall2 (fun raw r => orig_ok raw (r_pc r)) raws (c_reqs (conc_start db k names ps)) ->
  rtc (cstep rng now) (conc_start db k names ps) c ->
  exists hist, hist ≡ₚ answered raws (c_reqs c) /\ a_run now (abs db) hist (abs (c_db c)).
Proof.
  intros Hwf Horig Hsteps.
  cut (conc_inv c /\ Forall2 (fun raw r => orig_ok raw (r_pc r)) raws (c_reqs c) /\
       exists hist, hist ≡ₚ answered raws (c_reqs c) /\ a_run now (abs db) hist (abs (c_db c)));
    [naive_solver|].
  revert c Hsteps. apply rtc_ind_r.
  - split_and!; [by eapply conc_inv_start|done|]. exists []. split; [|constructor].
    by rewrite answered_none by apply conc_start_pending.
  - intros c1 c2 _ Hst (Hinv & Ho & hist & Hp & Hrun).
    pose proof (conc_inv_step _ _ _ _ Hst Hinv) as Hinv2.
    destruct (lin_step rng now raws c1 c2 Hinv Ho Hst) as (Ho' & [[Heq Hdb]|(raw & res & Hp' & Ha)]).
    + split_and!; [done|done|]. exists hist. by rewrite Heq, Hdb.
    + split_and!; [done|done|]. exists (hist ++ [(raw, res)])%list.
      split; [rewrite Hp'; by apply Permutation_app_tail|by eapply a_run_snoc].
Qed.

(** ** Witness *)

Definition two_todo_requests : list request :=
  [PostTodo (Present "Buy milk") Absent (Present ["errand"]);
   PostTodo (Present "Buy bread") Absent (Present ["errand"])].

Lemma interleavings_linearizable_witness :
  wf_db empty_db /\
  Forall2 (fun raw r => orig_ok raw (r_pc r)) two_todo_requests (c_reqs two_todos) /\
  rtc (cstep demo_rng 0) two_todos (run_schedule demo_rng 0 todo_race_schedule two_todos) /\
  exists hist, hist ≡ₚ answered two_todo_requests (c_reqs (run_schedule demo_rng 0 todo_race_schedule two_todos)) /\
    a_run 0 (abs empty_db) hist (abs (c_db (run_schedule demo_rng 0 todo_race_schedule two_todos))).
Proof.
  assert (Ho : Forall2 (fun raw r => orig_ok raw (r_pc r)) two_todo_requests (c_reqs two_todos))
    by (repeat constructor; vm_compute; reflexivity).
  assert (Hst : rtc (cstep demo_rng 0) two_todos (run_schedule demo_rng 0 todo_race_schedule two_todos))
    by apply run_schedule_steps.
  split_and!; [apply wf_empty_db|exact Ho|exact Hst|].
  exact (interleavings_linearizable demo_rng 0 empty_db 0 [] _ _ _ wf_empty_db Ho Hst).
Defined.
