(* ===== verification/Tests.v ===== *)
(** * Tests: the end-to-end tests of [test_app.py] run on the model

    Each test of [test_app.py] is a function of the service state: it sends
    its requests through [serve] in the order of the test, reads the
    answers as the test does ([r.status_code], [r.json()]) and returns
    whether all its [assert]s hold, with the state it leaves.  pytest runs
    the tests in file order against one database ([db.db]), so
    [test_suite] threads the state through them.  [unique_name] (a name
    with the current time in milliseconds) is replaced by fixed distinct
    names.

    Theorems: with ids drawn without collision ([demo_rng]) every test
    passes; with a generator that repeats an id, a test fails on an
    [IntegrityError], because nothing retries a colliding random id. *)

From S2P Require Import Prelude Text Schemas Models LabelStore TodoStore Api.

Open Scope string_scope.

Section Tests.

Context (rng : nat -> Z) (now : Z).

(** [status_code == code]. *)
Definition has_status (req : request) (r : result response) (code : Z) : bool :=
  Z.eqb (status req r) code.

(** [set(todo["labels"]) == {...}]. *)
Definition same_names (names expected : list string) : bool :=
  bool_decide ((list_to_set names : gset string) = list_to_set expected).

Definition test_create_label_and_conflict (name : string) (s : Sess) : bool * Sess :=
  let req := PostLabel (Present name) in
  let '(r1, s1) := serve rng now req s in
  let ok1 := has_status req r1 201 &&
             match r1 with Ok (RLabel l) => String.eqb (label_name l) name | _ => false end in
  let '(r2, s2) := serve rng now req s1 in
  (ok1 && has_status req r2 409, s2).

Definition test_list_labels_contains_new_label (name : string) (s : Sess) : bool * Sess :=
  let '(_, s1) := serve rng now (PostLabel (Present name)) s in
  let '(r, s2) := serve rng now (GetLabels None) s1 in
  (has_status (GetLabels None) r 200 &&
   match r with Ok (RLabels ls) => bool_decide (name ∈ label_name <$> ls) | _ => false end, s2).

Definition test_create_todo_with_labels (lbl1 lbl2 title : string) (s : Sess) : bool * Sess :=
  let '(_, s1) := serve rng now (PostLabel (Present lbl1)) s in
  let '(_, s2) := serve rng now (PostLabel (Present lbl2)) s1 in
  let req := PostTodo (Present title) Absent (Present [lbl1; lbl2]) in
  let '(r, s3) := serve rng now req s2 in
  (has_status req r 201 &&
   match r with
   | Ok (RTodo t) => same_names (out_labels t) [lbl1; lbl2] && negb (out_done t)
   | _ => false
   end, s3).

Definition test_list_todos_and_filter_by_label (lbl title : string) (s : Sess) : bool * Sess :=
  let '(_, s1) := serve rng now (PostLabel (Present lbl)) s in
  let '(_, s2) := serve rng now (PostTodo (Present title) Absent (Present [lbl])) s1 in
  let req := GetTodos None (Some lbl) None None in
  let '(r, s3) := serve rng now req s2 in
  (has_status req r 200 &&
   match r with Ok (RTodos ts) => existsb (fun t => String.eqb (out_title t) title) ts | _ => false end,
   s3).

(** [todo["id"]] of an answer that is not a todo raises in the test: the
    test fails. *)
Definition test_patch_todo_toggle_done_and_replace_labels (lbl title new_lbl : string) (s : Sess)
    : bool * Sess :=
  let '(r1, s1) := serve rng now (PostTodo (Present title) Absent (Present [lbl])) s in
  match r1 with
  | Ok (RTodo todo) =>
      let req := PatchTodo (out_id todo) Absent Absent (Present [new_lbl]) (Present true) in
      let '(r2, s2) := serve rng now req s1 in
      (has_status req r2 200 &&
       match r2 with
       | Ok (RTodo updated) => out_done updated && same_names (out_labels updated) [new_lbl]
       | _ => false
       end, s2)
  | _ => (false, s1)
  end.

Definition test_patch_nonexistent_returns_404 (s : Sess) : bool * Sess :=
  let req := PatchTodo 999999999 Absent Absent Absent (Present true) in
  let '(r, s1) := serve rng now req s in
  (has_status req r 404, s1).

(** The file, in order, on one database. *)
Definition test_suite (s : Sess) : list bool * Sess :=
  let '(b1, s1) := test_create_label_and_conflict "urgent_1" s in
  let '(b2, s2) := test_list_labels_contains_new_label "lbl_2" s1 in
  let '(b3, s3) := test_create_todo_with_labels "school_3" "home_4" "Write homework_5" s2 in
  let '(b4, s4) := test_list_todos_and_filter_by_label "filter_6" "Buy milk_7" s3 in
  let '(b5, s5) := test_patch_todo_toggle_done_and_replace_labels "math_8" "Solve task_9" "updated_10" s4 in
  let '(b6, s6) := test_patch_nonexistent_returns_404 s5 in
  ([b1; b2; b3; b4; b5; b6], s6).

End Tests.

(** A generator that returns the same id every time. *)
Definition stuck_rng (k : nat) : Z := 7.


